(** * cf-ghproxy-worker: the routing, cache-strategy and cache-key engine

    A shallow embedding of [src/worker.js] and the properties of its
    functions.  A JavaScript string is modelled as a [string] in which
    one character is one UTF-16 code unit: the strings the worker handles
    have all their code units below 256, a serialised URL being ASCII and
    the names and values of headers being the byte strings of the Fetch
    standard, which JavaScript sees with one code unit a byte.  So the
    length of a [string] is the length of the JavaScript string, and
    [substring] counts the same units.  The one place where text beyond
    that range lives is the list of a URLSearchParams object, whose names
    and values are kept in UTF-8, the encoding in which the serialiser
    writes them (module [UTF8]).  Status codes, loop counters and delays
    are modelled as [nat], seconds and calendar fields as [N], [null] and
    [undefined] as [None].  What the handler
    does to the world (cache lookups and writes, upstream fetches, waits)
    is returned as a list of effects; what it reads from the world (the
    clock, the cache, the network) is a record it is given.  Platform
    objects (URL, URLSearchParams, Headers) are modelled after their
    standards, each in a module of its own; the functions of the worker
    keep their names. *)

From Stdlib Require Import String Ascii List Arith NArith Lia Bool DecimalString.
From Stdlib Require Import DecimalN.
Import ListNotations.
Open Scope string_scope.
Open Scope nat_scope.

Set Implicit Arguments.

(* ================================================================== *)
(** ** JavaScript string primitives *)
(* ================================================================== *)

Module JS.

(** [!!s] for a string: the empty string is the only falsy one. *)
Definition truthy (s : string) : bool :=
  match s with "" => false | _ => true end.

(** [a || b] where [a] is a string-or-null and [b] a string. *)
Definition or_else (a : option string) (b : string) : string :=
  match a with
  | Some s => if truthy s then s else b
  | None => b
  end.

(** [hay.includes(needle)]. *)
Fixpoint includes (needle hay : string) : bool :=
  String.prefix needle hay ||
  match hay with
  | "" => false
  | String _ rest => includes needle rest
  end.

(** [s.split(sep)] for a one-character separator: never the empty list. *)
Fixpoint split (sep : ascii) (s : string) : list string :=
  match s with
  | "" => [""]
  | String c rest =>
      if Ascii.eqb c sep then "" :: split sep rest
      else match split sep rest with
           | [] => [String c ""]
           | x :: xs => String c x :: xs
           end
  end.

(** [parts.join(sep)]. *)
Definition join (sep : string) (parts : list string) : string :=
  String.concat sep parts.

(** [s.substring(0, n)]: the first [n] code units of [s]. *)
Definition substring0 (n : nat) (s : string) : string :=
  String.substring 0 n s.

(** [String(n)] for a non-negative integer. *)
Definition of_N (n : N) : string :=
  NilEmpty.string_of_uint (N.to_uint n).

Fixpoint repeat_char (c : ascii) (n : nat) : string :=
  match n with 0 => "" | S k => String c (repeat_char c k) end.

(** [s.padStart(n, c)] for a one-character filler. *)
Definition padStart (n : nat) (c : ascii) (s : string) : string :=
  repeat_char c (n - String.length s) ++ s.

Definition lower_char (c : ascii) : ascii :=
  let n := nat_of_ascii c in
  if (65 <=? n) && (n <=? 90) then ascii_of_nat (n + 32) else c.

Fixpoint toLowerCase (s : string) : string :=
  match s with
  | "" => ""
  | String c rest => String (lower_char c) (toLowerCase rest)
  end.

Fixpoint remove_char (c : ascii) (s : string) : string :=
  match s with
  | "" => ""
  | String d rest =>
      if Ascii.eqb d c then remove_char c rest
      else String d (remove_char c rest)
  end.

Fixpoint drop (n : nat) (s : string) : string :=
  match n, s with
  | 0, _ => s
  | S k, "" => ""
  | S k, String _ rest => drop k rest
  end.

(** The text before the first [sep] of [s], and the text after it when
    there is one. *)
Fixpoint cut (sep : ascii) (s : string) : string * option string :=
  match s with
  | "" => ("", None)
  | String c rest =>
      if Ascii.eqb c sep then ("", Some rest)
      else let (before, after) := cut sep rest in (String c before, after)
  end.

Fixpoint has_char (c : ascii) (s : string) : bool :=
  match s with
  | "" => false
  | String d rest => Ascii.eqb d c || has_char c rest
  end.

End JS.

(* ================================================================== *)
(** ** Regular expressions (the fragment the worker uses) *)
(* ================================================================== *)

Module RegExp.

Inductive regex : Type :=
| Void                          (* matches nothing *)
| Eps                           (* matches the empty string *)
| Lit (c : ascii)               (* one given character *)
| Digit                         (* \d : 0-9 *)
| Cat (r s : regex)
| Alt (r s : regex)
| Star (r : regex).

Definition Opt (r : regex) : regex := Alt r Eps.       (* r? *)
Definition Plus (r : regex) : regex := Cat r (Star r). (* r+ *)

(** The regex of a literal string. *)
Fixpoint Str (s : string) : regex :=
  match s with
  | "" => Eps
  | String c rest => Cat (Lit c) (Str rest)
  end.

Definition is_digit (c : ascii) : bool :=
  let n := nat_of_ascii c in (48 <=? n) && (n <=? 57).

Fixpoint nullable (r : regex) : bool :=
  match r with
  | Void => false
  | Eps => true
  | Lit _ => false
  | Digit => false
  | Cat r s => nullable r && nullable s
  | Alt r s => nullable r || nullable s
  | Star _ => true
  end.

(** Brzozowski derivative of [r] by the character [c]. *)
Fixpoint deriv (c : ascii) (r : regex) : regex :=
  match r with
  | Void => Void
  | Eps => Void
  | Lit d => if Ascii.eqb c d then Eps else Void
  | Digit => if is_digit c then Eps else Void
  | Cat r s =>
      if nullable r then Alt (Cat (deriv c r) s) (deriv c s)
      else Cat (deriv c r) s
  | Alt r s => Alt (deriv c r) (deriv c s)
  | Star r => Cat (deriv c r) (Star r)
  end.

(** Some prefix of [s] matches [r]. *)
Fixpoint matches_prefix (r : regex) (s : string) : bool :=
  nullable r ||
  match s with
  | "" => false
  | String c rest => matches_prefix (deriv c r) rest
  end.

(** [r.test(s)] for an unanchored regex: a match may start anywhere. *)
Fixpoint test (r : regex) (s : string) : bool :=
  matches_prefix r s ||
  match s with
  | "" => false
  | String _ rest => test r rest
  end.

(** The language of a regex: the strings it matches as a whole. *)
Inductive matches : regex -> string -> Prop :=
| m_eps : matches Eps ""
| m_lit c : matches (Lit c) (String c "")
| m_digit c : is_digit c = true -> matches Digit (String c "")
| m_cat r s a b : matches r a -> matches s b -> matches (Cat r s) (a ++ b)
| m_alt_l r s a : matches r a -> matches (Alt r s) a
| m_alt_r r s a : matches s a -> matches (Alt r s) a
| m_star_nil r : matches (Star r) ""
| m_star_cons r a b :
    matches r a -> matches (Star r) b -> matches (Star r) (a ++ b).

End RegExp.

(* ================================================================== *)
(** ** Headers and responses *)
(* ================================================================== *)

Module Headers.

(** A [Headers] object: names are stored in lower case, one entry a name.
    Names and values are byte strings, a character of the model being a
    byte. *)
Definition t : Type := list (string * string).

Fixpoint get (name : string) (h : t) : option string :=
  match h with
  | [] => None
  | (k, v) :: rest =>
      if String.eqb k (JS.toLowerCase name) then Some v else get name rest
  end.


(** HTTP whitespace: tab, line feed, carriage return and space. *)
Definition is_http_whitespace (c : ascii) : bool :=
  let n := nat_of_ascii c in
  (n =? 9) || (n =? 10) || (n =? 13) || (n =? 32).

Fixpoint strip_leading (s : string) : string :=
  match s with
  | "" => ""
  | String c rest => if is_http_whitespace c then strip_leading rest else s
  end.

Fixpoint strip_trailing (s : string) : string :=
  match s with
  | "" => ""
  | String c rest =>
      match strip_trailing rest with
      | "" => if is_http_whitespace c then "" else String c ""
      | kept => String c kept
      end
  end.

(** To normalize a value (Fetch standard): its leading and trailing HTTP
    whitespace is removed. *)
Definition normalize (value : string) : string :=
  strip_trailing (strip_leading value).

(** The entry of the name gets the value; a new name gets a new entry. *)
Fixpoint store (name value : string) (h : t) : t :=
  match h with
  | [] => [(JS.toLowerCase name, value)]
  | (k, v) :: rest =>
      if String.eqb k (JS.toLowerCase name) then (k, value) :: rest
      else (k, v) :: store name value rest
  end.

(** [headers.set(name, value)]: the value is normalized, then stored.
    The standard validates name and value in between; what the worker
    sets passes, being a constant, a number, a serialised URL, or a
    value that a Headers object holds or a piece of one. *)
Definition set (name value : string) (h : t) : t :=
  store name (normalize value) h.

(** [new Headers({name: value, ...})]. *)
Definition of_list (l : list (string * string)) : t :=
  fold_left (fun h kv => set (fst kv) (snd kv) h) l [].

End Headers.

(** A response as [fetch] or the cache hands it over: its status text is
    what came with the status line and its body is null when the status
    allows none.  The status itself is whatever the server sent. *)
Record Response : Type := mkResponse {
  status : nat;
  statusText : string;
  headers : Headers.t;
  body : option string
}.

(** The statuses [new Response(body, {status})] accepts: for any other
    one it throws a RangeError (Fetch standard, initialize a response). *)
Definition valid_init_status (n : nat) : bool :=
  (200 <=? n) && (n <=? 599).

(** [response.ok]: the status is in the range 200-299. *)
Definition ok (r : Response) : bool :=
  (200 <=? status r) && (status r <=? 299).

(* ================================================================== *)
(** ** UTF-8 (Encoding standard) *)
(* ================================================================== *)

Module UTF8.

Definition code (c : ascii) : N := N_of_ascii c.

(** [lo <= c <= hi]. *)
Definition between (lo hi : N) (c : ascii) : bool :=
  ((lo <=? code c) && (code c <=? hi))%N.

(** UTF-8 encode of a JavaScript string whose code units are below 256:
    a unit below 128 is one byte, any other one is the two bytes
    0xC0 | (c >> 6) and 0x80 | (c & 0x3F). *)
Definition encode_unit (c : ascii) : string :=
  if (code c <? 128)%N then String c ""
  else String (ascii_of_N (192 + code c / 64))
         (String (ascii_of_N (128 + code c mod 64)) "").

Fixpoint encode (s : string) : string :=
  match s with
  | "" => ""
  | String c rest => encode_unit c ++ encode rest
  end.

(** U+FFFD, the replacement character, in UTF-8: EF BF BD. *)
Definition replacement : string :=
  String (ascii_of_N 239) (String (ascii_of_N 191) (String (ascii_of_N 189) "")).

(** The bounds of the byte that follows a lead byte: 0x80 to 0xBF but
    after E0 (from 0xA0), ED (to 0x9F), F0 (from 0x90) and F4 (to 0x8F). *)
Definition lower_boundary (lead : ascii) : N :=
  if (code lead =? 224)%N then 160%N
  else if (code lead =? 240)%N then 144%N else 128%N.

Definition upper_boundary (lead : ascii) : N :=
  if (code lead =? 237)%N then 159%N
  else if (code lead =? 244)%N then 143%N else 191%N.

(** UTF-8 decode without BOM, in replacement mode, of a byte sequence;
    the text it gives is held in UTF-8 again.  So a well-formed sequence
    of one to four bytes is kept, and the decoder's errors become U+FFFD:
    one for a byte that cannot start a sequence, one for a sequence that
    is cut short by the end of the input, and one for a sequence that is
    cut short by a byte out of its bounds, which is then read again as
    the start of the next sequence. *)
Fixpoint decode (s : string) : string :=
  match s with
  | "" => ""
  | String b0 rest =>
      if between 0 127 b0 then String b0 (decode rest)
      else if between 194 223 b0 then
        match rest with
        | String b1 rest1 =>
            if between 128 191 b1
            then String b0 (String b1 (decode rest1))
            else replacement ++ decode rest
        | "" => replacement
        end
      else if between 224 239 b0 then
        match rest with
        | String b1 rest1 =>
            if between (lower_boundary b0) (upper_boundary b0) b1 then
              match rest1 with
              | String b2 rest2 =>
                  if between 128 191 b2
                  then String b0 (String b1 (String b2 (decode rest2)))
                  else replacement ++ decode rest1
              | "" => replacement
              end
            else replacement ++ decode rest
        | "" => replacement
        end
      else if between 240 244 b0 then
        match rest with
        | String b1 rest1 =>
            if between (lower_boundary b0) (upper_boundary b0) b1 then
              match rest1 with
              | String b2 rest2 =>
                  if between 128 191 b2 then
                    match rest2 with
                    | String b3 rest3 =>
                        if between 128 191 b3
                        then String b0 (String b1 (String b2 (String b3
                               (decode rest3))))
                        else replacement ++ decode rest2
                    | "" => replacement
                    end
                  else replacement ++ decode rest1
              | "" => replacement
              end
            else replacement ++ decode rest
        | "" => replacement
        end
      else replacement ++ decode rest
  end.

(** Well-formed UTF-8: the text the decoder leaves as it is. *)
Definition well_formed (s : string) : Prop := decode s = s.

End UTF8.

(* ================================================================== *)
(** ** URLSearchParams and URL (WHATWG URL standard) *)
(* ================================================================== *)

Module URLSearchParams.

(** The list of name-value pairs of a URLSearchParams object.  Names and
    values are strings of Unicode scalar values; the list holds them in
    UTF-8. *)
Definition t : Type := list (string * string).

(** *** The application/x-www-form-urlencoded serializer *)

Definition hex_digit (n : nat) : ascii :=
  if n <? 10 then ascii_of_nat (48 + n) else ascii_of_nat (55 + n).

(** Bytes the serializer leaves as they are: ASCII alphanumerics and the
    four characters star, hyphen, dot, underscore.  A space becomes a
    plus sign and every other byte of the UTF-8 text is percent-encoded. *)
Definition is_unreserved (c : ascii) : bool :=
  let n := nat_of_ascii c in
  ((48 <=? n) && (n <=? 57)) || ((65 <=? n) && (n <=? 90)) ||
  ((97 <=? n) && (n <=? 122)) ||
  (n =? 42) || (n =? 45) || (n =? 46) || (n =? 95).

Definition encode_char (c : ascii) : string :=
  if Ascii.eqb c " " then "+"
  else if is_unreserved c then String c ""
  else let n := nat_of_ascii c in
       String "%" (String (hex_digit (n / 16)) (String (hex_digit (n mod 16)) "")).

Fixpoint encode (s : string) : string :=
  match s with
  | "" => ""
  | String c rest => encode_char c ++ encode rest
  end.

Definition serialize_pair (kv : string * string) : string :=
  encode (fst kv) ++ "=" ++ encode (snd kv).

Definition serialize (l : t) : string :=
  JS.join "&" (map serialize_pair l).

(** *** The application/x-www-form-urlencoded parser *)

Definition hex_value (c : ascii) : option nat :=
  let n := nat_of_ascii c in
  if (48 <=? n) && (n <=? 57) then Some (n - 48)
  else if (65 <=? n) && (n <=? 70) then Some (n - 55)
  else if (97 <=? n) && (n <=? 102) then Some (n - 87)
  else None.

Fixpoint replace_plus (s : string) : string :=
  match s with
  | "" => ""
  | String c rest =>
      String (if Ascii.eqb c "+" then " "%char else c) (replace_plus rest)
  end.

(** Percent-decode: a percent sign followed by two hex digits is the
    byte they spell; any other character stands for itself. *)
Fixpoint percent_decode (s : string) : string :=
  match s with
  | "" => ""
  | String c rest =>
      if Ascii.eqb c "%" then
        match rest with
        | String a (String b rest') =>
            match hex_value a, hex_value b with
            | Some x, Some y =>
                String (ascii_of_nat (16 * x + y)) (percent_decode rest')
            | _, _ => String c (percent_decode rest)
            end
        | _ => String c (percent_decode rest)
        end
      else String c (percent_decode rest)
  end.

(** A name or a value of the query: plus signs become spaces, the bytes
    are percent-decoded, and the result is UTF-8 decoded. *)
Definition decode (s : string) : string :=
  UTF8.decode (percent_decode (replace_plus s)).

Definition parse_pair (piece : string) : string * string :=
  match JS.cut "=" piece with
  | (name, Some value) => (decode name, decode value)
  | (name, None) => (decode name, "")
  end.

Definition parse (query : string) : t :=
  map parse_pair (filter JS.truthy (JS.split "&" query)).

(** *** The methods the worker calls *)

Definition has_name (name : string) (kv : string * string) : bool :=
  String.eqb (fst kv) name.

(** The first pair named [name] gets the value, the later ones go. *)
Fixpoint set_first (name value : string) (l : t) : t :=
  match l with
  | [] => []
  | kv :: rest =>
      if has_name name kv
      then (fst kv, value) :: filter (fun p => negb (has_name name p)) rest
      else kv :: set_first name value rest
  end.

(** The list after [set]: the value replaces the one of the first pair
    of that name and the later pairs of that name go; a new name is
    appended. *)
Definition set_pair (name value : string) (l : t) : t :=
  if existsb (has_name name) l then set_first name value l
  else (l ++ [(name, value)])%list.

(** [params.set(name, value)] for JavaScript strings [name] and [value]:
    the list takes them in UTF-8. *)
Definition set (name value : string) (l : t) : t :=
  set_pair (UTF8.encode name) (UTF8.encode value) l.

(** The values the list holds under a name, in UTF-8 as the list has
    them: what [params.getAll] reads. *)
Definition getAll (name : string) (l : t) : list string :=
  map snd (filter (has_name name) l).

(** What the parser and [set] guarantee of the list: every name and
    every value is well-formed UTF-8. *)
Definition well_formed (l : t) : Prop :=
  Forall (fun kv => UTF8.well_formed (fst kv) /\ UTF8.well_formed (snd kv)) l.

(** The characters that delimit pairs, names and values, and the fragment. *)
Definition is_delimiter (d : ascii) : Prop :=
  d = "&"%char \/ d = "="%char \/ d = "#"%char.

End URLSearchParams.

Module URL.

(** A URL object.  [origin] is the scheme, the two slashes and the
    authority; [query] and [fragment] are null ([None]) or the text after
    the question mark and after the hash sign; [searchParams] is the list
    of the URL's query object, which the standard keeps in step with
    [query]. *)
Record t : Type := mk {
  origin : string;
  pathname : string;
  query : option string;
  fragment : option string;
  searchParams : URLSearchParams.t
}.

(** Scheme and authority against path: the scheme up to the colon, the
    two slashes, the authority up to the next slash, and the path from
    that slash on.  An authority with nothing after it gets the path [/],
    as the URL parser gives it.  A string that does not start this way is
    no absolute URL of this kind and is left whole. *)
Definition split_origin (s : string) : string * string :=
  match JS.cut ":" s with
  | (scheme, Some rest) =>
      if String.prefix "//" rest then
        match JS.cut "/" (JS.drop 2 rest) with
        | (authority, Some p) => (scheme ++ "://" ++ authority, "/" ++ p)
        | (authority, None) => (scheme ++ "://" ++ authority, "/")
        end
      else (s, "")
  | (_, None) => (s, "")
  end.

(** [new URL(s)] for [s] an absolute http(s) URL in serialised form, as
    [request.url] is: the parser then keeps every component as written,
    and this definition only cuts [s] into its components. *)
Definition new (s : string) : t :=
  let (before_hash, frag) := JS.cut "#" s in
  let (before_query, q) := JS.cut "?" before_hash in
  let (o, p) := split_origin before_query in
  {| origin := o; pathname := p; query := q; fragment := frag;
     searchParams :=
       URLSearchParams.parse (match q with Some q' => q' | None => "" end) |}.

(** [url.search]: empty for a null or empty query. *)
Definition search (u : t) : string :=
  match query u with
  | None => ""
  | Some q => if JS.truthy q then "?" ++ q else ""
  end.

(** [url.searchParams.set(name, value)]: the list is updated and the
    query becomes its serialisation (null when that is empty). *)
Definition searchParams_set (name value : string) (u : t) : t :=
  let l := URLSearchParams.set name value (searchParams u) in
  let q := URLSearchParams.serialize l in
  {| origin := origin u; pathname := pathname u;
     query := if JS.truthy q then Some q else None;
     fragment := fragment u;
     searchParams := l |}.

(** [url.toString()], the URL serializer. *)
Definition toString (u : t) : string :=
  origin u ++ pathname u ++
  (match query u with Some q => "?" ++ q | None => "" end) ++
  (match fragment u with Some f => "#" ++ f | None => "" end).

(** What [new] guarantees of a URL object and [searchParams_set] keeps. *)
Record wf (u : t) : Prop := mk_wf {
  wf_split :
    split_origin (origin u ++ pathname u) = (origin u, pathname u);
  wf_no_question :
    JS.has_char "?" (origin u ++ pathname u) = false;
  wf_no_hash :
    JS.has_char "#" (origin u ++ pathname u) = false;
  wf_query :
    forall q, query u = Some q -> JS.has_char "#" q = false;
  wf_params :
    searchParams u =
    URLSearchParams.parse
      (match query u with Some q => q | None => "" end)
}.

End URL.

(* ================================================================== *)
(** ** Configuration *)
(* ================================================================== *)

Definition EDGE_CACHE_SECONDS : N := 2592000.
Definition SWR_SECONDS : N := 86400.
Definition BROWSER_CACHE_SECONDS : N := 3600.
Definition ENABLE_COMPRESSION : bool := true.
Definition ENABLE_EARLY_HINTS : bool := true.
Definition MAX_RETRIES : nat := 2.
Definition RETRY_DELAY_MS : nat := 500.
Definition REQUEST_TIMEOUT_MS : N := 30000.

Definition GITHUB_HOSTS : list string :=
  [ "github.com";
    "raw.githubusercontent.com";
    "gist.github.com";
    "gist.githubusercontent.com" ].

Definition FALLBACK_MIRRORS : list string := [].

(* ================================================================== *)
(** ** getCacheVersion *)
(* ================================================================== *)

(** What the worker reads off [new Date()]: the UTC year, the UTC month
    (0-11, as [getUTCMonth] gives it) and the UTC day of the month. *)
Record UTCDate : Type := mkDate {
  getUTCFullYear : N;
  getUTCMonth : N;
  getUTCDate : N
}.

Definition getCacheVersion (now : UTCDate) : string :=
  let year := JS.of_N (getUTCFullYear now) in
  let month := JS.padStart 2 "0" (JS.of_N (getUTCMonth now + 1)) in
  let day := JS.padStart 2 "0" (JS.of_N (getUTCDate now)) in
  year ++ month ++ day.

(* ================================================================== *)
(** ** extractETag *)
(* ================================================================== *)

(** The double quote character (code 34) and the weak-validator prefix,
    the three characters W, slash, double quote. *)
Definition dquote : ascii := ascii_of_nat 34.
Definition weak_prefix : string := "W/" ++ String dquote "".

(** The call etag.replace(re, '') where re is the global regex with the two
    alternatives: weak prefix anchored at the start, or a double quote.
    The global replace scans from the left; the anchored alternative can
    only match at index 0 and is tried there before the other one; after
    it, and everywhere else, only a double quote matches.  So: drop a
    leading weak prefix if there is one, then drop every double quote of
    what is left. *)
Definition strip_weak_and_quotes (etag : string) : string :=
  let rest :=
    if String.prefix weak_prefix etag then JS.drop 3 etag else etag in
  JS.remove_char dquote rest.

Definition extractETag (response : Response) : option string :=
  match Headers.get "etag" (headers response) with
  | None => None
  | Some etag =>
      if negb (JS.truthy etag) then None
      else Some (JS.substring0 32 (strip_weak_and_quotes etag))
  end.

(* ================================================================== *)
(** ** getCacheStrategy *)
(* ================================================================== *)

Record CacheStrategy : Type := mkStrategy {
  edgeTTL : N;
  browserTTL : N;
  useETag : bool;
  description : string
}.

Module Patterns.
Import RegExp.

(** A slash, an optional v, digits, a dot, digits, optionally a dot and
    digits, a slash. *)
Definition semver_segment : regex :=
  Cat (Lit "/") (Cat (Opt (Lit "v")) (Cat (Plus Digit) (Cat (Lit ".")
    (Cat (Plus Digit) (Cat (Opt (Cat (Lit ".") (Plus Digit))) (Lit "/")))))).

(** A slash, tag, an optional s, a slash. *)
Definition tag_segment : regex :=
  Cat (Str "/tag") (Cat (Opt (Lit "s")) (Lit "/")).

(** The literal /releases/download/, an optional v, digits. *)
Definition release_download : regex :=
  Cat (Str "/releases/download/") (Cat (Opt (Lit "v")) (Plus Digit)).

End Patterns.

Definition dynamic_strategy : CacheStrategy :=
  {| edgeTTL := 3600; browserTTL := 300; useETag := true;
     description := "dynamic" |}.

Definition versioned_strategy : CacheStrategy :=
  {| edgeTTL := 2592000; browserTTL := 86400; useETag := false;
     description := "versioned" |}.

Definition default_strategy : CacheStrategy :=
  {| edgeTTL := 86400; browserTTL := 3600; useETag := true;
     description := "default" |}.

(** The condition of the first [if]. *)
Definition is_dynamic_path (pathname : string) : bool :=
  JS.includes "/latest/" pathname ||
  JS.includes "/nightly/" pathname ||
  JS.includes "/master/" pathname ||
  JS.includes "/main/" pathname.

(** The condition of the second [if]. *)
Definition is_versioned_path (pathname : string) : bool :=
  RegExp.test Patterns.semver_segment pathname ||
  RegExp.test Patterns.tag_segment pathname ||
  RegExp.test Patterns.release_download pathname.

Definition getCacheStrategy (pathname : string) : CacheStrategy :=
  if is_dynamic_path pathname then dynamic_strategy
  else if is_versioned_path pathname then versioned_strategy
  else default_strategy.

(** The substrings that make a path dynamic, and the patterns that make
    it versioned. *)
Definition dynamic_markers : list string :=
  ["/latest/"; "/nightly/"; "/master/"; "/main/"].

Definition versioned_patterns : list RegExp.regex :=
  [Patterns.semver_segment; Patterns.tag_segment; Patterns.release_download].

(** [hay] has [needle] as a substring. *)
Definition contains (needle hay : string) : Prop :=
  exists before after, hay = before ++ needle ++ after.

(** [s] has a substring in the language of [r]. *)
Definition contains_match (r : RegExp.regex) (s : string) : Prop :=
  exists before m after, s = before ++ m ++ after /\ RegExp.matches r m.

(* ================================================================== *)
(** ** parseGitHubPath *)
(* ================================================================== *)

Record GitHubInfo : Type := mkInfo {
  host : string;
  path : string;
  fullUrl : string
}.

(** [GITHUB_HOSTS.includes(part)]. *)
Definition is_github_host (part : string) : bool :=
  existsb (String.eqb part) GITHUB_HOSTS.

(** [pathname.split('/').filter(p => p)]. *)
Definition path_parts (pathname : string) : list string :=
  filter JS.truthy (JS.split "/" pathname).

Definition parseGitHubPath (pathname : string) : option GitHubInfo :=
  match path_parts pathname with
  | [] => None
  | first :: others =>
      let githubHost :=
        if is_github_host first then first else "github.com" in
      let githubPath :=
        if is_github_host first then "/" ++ JS.join "/" others
        else pathname in
      Some {| host := githubHost;
              path := githubPath;
              fullUrl := "https://" ++ githubHost ++ githubPath |}
  end.

(* ================================================================== *)
(** ** fetchWithRetry *)
(* ================================================================== *)

(** What one awaited [fetch] does: it resolves with a response, or it
    rejects (the abort after REQUEST_TIMEOUT_MS, or a transport error). *)
Inductive Outcome : Type :=
| Resolved (response : Response)
| Rejected (error : string).

(** How an async function ends. *)
Inductive Completion (A : Type) : Type :=
| Return (value : A)
| Throw (error : string)
| ReturnUndefined.
Arguments Throw {A} error.
Arguments ReturnUndefined {A}.

(** What the loop does that the outside can observe. *)
Inductive RetryEvent : Type :=
| Attempt (i : nat)              (* the upstream fetch of iteration i *)
| Delay (ms : nat).              (* the awaited setTimeout *)

Section FetchWithRetry.

(** The network as seen by one call: the outcome of the fetch issued in
    iteration [i]. *)
Variable network : nat -> Outcome.
Variable retries : nat.

(** The [for] loop from iteration [i] on.  [fuel] bounds the number of
    iterations; [None] means the fuel ran out before the loop ended. *)
Fixpoint retry_loop (fuel i : nat)
  : option (list RetryEvent * Completion Response) :=
  match fuel with
  | 0 => None
  | S fuel' =>
      if i <=? retries then
        match network i with
        | Resolved response =>
            if ok response ||
               ((400 <=? status response) && (status response <? 500))
            then Some ([Attempt i], Return response)
            else if i <? retries then
              match retry_loop fuel' (i + 1) with
              | Some (evs, c) =>
                  Some (Attempt i :: Delay (RETRY_DELAY_MS * (i + 1)) :: evs,
                        c)
              | None => None
              end
            else Some ([Attempt i], Return response)
        | Rejected error =>
            if i <? retries then
              match retry_loop fuel' (i + 1) with
              | Some (evs, c) =>
                  Some (Attempt i :: Delay (RETRY_DELAY_MS * (i + 1)) :: evs,
                        c)
              | None => None
              end
            else Some ([Attempt i], Throw error)
        end
      else Some ([], ReturnUndefined)
  end.

Definition fetchWithRetry
  : option (list RetryEvent * Completion Response) :=
  retry_loop (retries + 1) 0.

End FetchWithRetry.

(** The condition under which the loop goes on after attempt [i] if it
    may: a response that is neither ok nor 4xx, or a rejection. *)
Definition retryable (o : Outcome) : bool :=
  match o with
  | Resolved response =>
      negb (ok response ||
            ((400 <=? status response) && (status response <? 500)))
  | Rejected _ => true
  end.

(** How the loop ends on the outcome of its last attempt. *)
Definition completion_of (o : Outcome) : Completion Response :=
  match o with
  | Resolved response => Return response
  | Rejected error => Throw error
  end.

(** Attempt [i], then [k] times a delay and the next attempt, the delay
    before the retry number [n] (counted from 1) being RETRY_DELAY_MS * n. *)
Fixpoint schedule (i k : nat) : list RetryEvent :=
  match k with
  | 0 => [Attempt i]
  | S k' => Attempt i :: Delay (RETRY_DELAY_MS * (i + 1)) :: schedule (i + 1) k'
  end.

Definition attempts (evs : list RetryEvent) : nat :=
  List.length (filter (fun e => match e with Attempt _ => true | _ => false end) evs).

Definition delays (evs : list RetryEvent) : list nat :=
  flat_map (fun e => match e with Delay ms => [ms] | _ => [] end) evs.

(* ================================================================== *)
(** ** shouldCompress *)
(* ================================================================== *)

Definition compressibleTypes : list string :=
  [ "text/";
    "application/javascript";
    "application/json";
    "application/xml";
    "application/x-yaml";
    "image/svg+xml" ].

(** [contentType] is the Content-Type header value, [None] when the
    caller has none. *)
Definition shouldCompress (contentType : option string) : bool :=
  match contentType with
  | None => false
  | Some ct =>
      if negb (JS.truthy ct) then false
      else existsb (fun type => JS.includes type ct) compressibleTypes
  end.

(* ================================================================== *)
(** ** getOptimalCacheKey *)
(* ================================================================== *)

(** The URL object [cacheUrl] as it is when the function serialises it.
    [now] is what [new Date()] gives when the function runs. *)
Definition getOptimalCacheUrl (now : UTCDate)
    (url acceptEncoding : string) (version : option string) : URL.t :=
  let cacheUrl := URL.new url in
  let cacheVersion := JS.or_else version (getCacheVersion now) in
  let cacheUrl := URL.searchParams_set "__v" cacheVersion cacheUrl in
  if JS.truthy acceptEncoding then
    if JS.includes "br" acceptEncoding then
      URL.searchParams_set "__enc" "br" cacheUrl
    else if JS.includes "gzip" acceptEncoding then
      URL.searchParams_set "__enc" "gzip" cacheUrl
    else cacheUrl
  else cacheUrl.

Definition getOptimalCacheKey (now : UTCDate)
    (url acceptEncoding : string) (version : option string) : string :=
  URL.toString (getOptimalCacheUrl now url acceptEncoding version).

(** The version the key carries: the given one unless it is null or empty,
    else the date stamp. *)
Definition effective_version (now : UTCDate) (version : option string)
    : string :=
  JS.or_else version (getCacheVersion now).

(** The encoding tag the key gets, if any. *)
Definition encoding_tag (acceptEncoding : string) : option string :=
  if JS.truthy acceptEncoding then
    if JS.includes "br" acceptEncoding then Some "br"
    else if JS.includes "gzip" acceptEncoding then Some "gzip"
    else None
  else None.

(** Two parameter lists that differ only in the values of one name: the
    same names in the same order, and the same value wherever the name
    is another one. *)
Definition same_but_for (name : string) (l1 l2 : URLSearchParams.t) : Prop :=
  Forall2
    (fun p1 p2 => fst p1 = fst p2 /\ (fst p1 <> name -> snd p1 = snd p2))
    l1 l2.

(** Two URLs that differ only in the values of one query parameter. *)
Definition differ_only_in (name : string) (u1 u2 : string) : Prop :=
  URL.origin (URL.new u1) = URL.origin (URL.new u2) /\
  URL.pathname (URL.new u1) = URL.pathname (URL.new u2) /\
  URL.fragment (URL.new u1) = URL.fragment (URL.new u2) /\
  same_but_for name (URL.searchParams (URL.new u1))
    (URL.searchParams (URL.new u2)).

(* ================================================================== *)
(** ** The request handler: export default { fetch } *)
(* ================================================================== *)

Record Request : Type := mkRequest {
  method : string;
  url : string;
  request_headers : Headers.t
}.

(** The [cf] object handed to the upstream fetch. *)
Record CfOptions : Type := mkCf {
  cacheEverything : bool;
  cacheTtl : N;
  cacheTtlByStatus : list (string * N);
  polish : string;
  mirage : bool;
  minify : bool * bool * bool;      (* javascript, css, html *)
  resolveOverride : string
}.

(** The second argument of the upstream fetch. *)
Record FetchInit : Type := mkInit {
  init_method : string;
  init_headers : Headers.t;
  redirect : string;
  cf : CfOptions
}.

(** What a run of the handler does to the world, in order. *)
Inductive Effect : Type :=
| EarlyHint (target link : string)   (* the detached HEAD fetch with a Link header *)
| CacheMatch (key : string)          (* await cache.match(cacheKey) *)
| UpstreamFetch (target : string) (init : FetchInit) (i : nat)
| Sleep (ms : nat)
| CachePut (key : string) (response : Response).  (* detached cache.put *)

(** What the handler reads from the world. *)
Record World : Type := mkWorld {
  (** [new Date()] when the lookup key is built, and again once the
      upstream response has arrived. *)
  date_at_lookup : UTCDate;
  date_at_assembly : UTCDate;
  (** [Date.now() - startTime] when the response is built. *)
  elapsed_ms : N;
  (** [caches.default]: the entry stored under a key URL, if any; an
      entry is a response that was given to [cache.put], with a status
      that [new Response] accepts. *)
  cache_match : string -> option Response;
  (** The outbound fetch: the outcome of the i-th attempt. *)
  network : string -> FetchInit -> nat -> Outcome
}.

Definition retry_effect (target : string) (init : FetchInit)
    (e : RetryEvent) : Effect :=
  match e with
  | Attempt i => UpstreamFetch target init i
  | Delay ms => Sleep ms
  end.

Definition invalid_path_response : Response :=
  {| status := 400; statusText := "";
     headers := Headers.of_list [("Content-Type", "text/plain")];
     body := Some "Invalid path. Usage: /[github.com]/user/repo/path/to/file" |}.

Definition preflight_response : Response :=
  {| status := 204; statusText := "";
     headers := Headers.of_list
       [ ("Access-Control-Allow-Origin", "*");
         ("Access-Control-Allow-Methods", "GET,HEAD,OPTIONS");
         ("Access-Control-Allow-Headers", "*");
         ("Access-Control-Max-Age", "86400") ];
     body := None |}.

(** A Response built from a string body and no headers gets the content
    type of text. *)
Definition method_not_allowed_response : Response :=
  {| status := 405; statusText := "";
     headers := Headers.of_list [("Content-Type", "text/plain;charset=UTF-8")];
     body := Some "Method Not Allowed" |}.

Definition forwarded_headers : list string :=
  [ "range"; "if-range"; "if-none-match"; "if-modified-since";
    "user-agent"; "accept"; "accept-encoding" ].

(** The loop that fills [passHeaders]. *)
Definition passHeaders (request : Request) : Headers.t :=
  fold_left
    (fun acc h =>
       match Headers.get h (request_headers request) with
       | Some v => if JS.truthy v then Headers.set h v acc else acc
       | None => acc
       end)
    forwarded_headers [].

Definition upstream_init (request : Request) (strategy : CacheStrategy)
    : FetchInit :=
  {| init_method := method request;
     init_headers := passHeaders request;
     redirect := "follow";
     cf := {| cacheEverything := true;
              cacheTtl := edgeTTL strategy;
              cacheTtlByStatus :=
                [ ("200-299", edgeTTL strategy); ("404", 60%N);
                  ("500-599", 0%N) ];
              polish := "lossy";
              mirage := true;
              minify := (true, true, true);
              resolveOverride := "1.1.1.1" |} |}.

(** [!!request.headers.get(name)]. *)
Definition header_truthy (name : string) (h : Headers.t) : bool :=
  match Headers.get name h with
  | Some v => JS.truthy v
  | None => false
  end.

(** The response returned on a cache hit. *)
Definition hit_response (w : World) (strategy : CacheStrategy)
    (hit : Response) : Response :=
  let h := headers hit in
  let h := Headers.set "X-Cache-Status" "HIT" h in
  let h := Headers.set "X-Cache-Strategy" (description strategy) h in
  let h := Headers.set "X-Response-Time" (JS.of_N (elapsed_ms w) ++ "ms") h in
  {| status := status hit; statusText := ""; headers := h; body := body hit |}.

(** [finalCacheKey] and [cacheVersion] after the ETag step. *)
Definition final_key_and_version (w : World) (request : Request)
    (strategy : CacheStrategy) (acceptEncoding initialCacheKey : string)
    (upstreamResp : Response) : string * string :=
  let cacheVersion := getCacheVersion (date_at_assembly w) in
  if useETag strategy then
    match extractETag upstreamResp with
    | Some etag =>
        if JS.truthy etag then
          (getOptimalCacheKey (date_at_assembly w) (url request)
             acceptEncoding (Some etag),
           etag)
        else (initialCacheKey, cacheVersion)
    | None => (initialCacheKey, cacheVersion)
    end
  else (initialCacheKey, cacheVersion).

(** The response built from the upstream one: the headers as the handler
    leaves them, and what [new Response] makes of them when it accepts
    the status. *)
Definition miss_response (w : World) (strategy : CacheStrategy)
    (cacheVersion upstreamUrl : string) (upstreamResp : Response) : Response :=
  let h := headers upstreamResp in
  let h := Headers.set "Cache-Control"
             ("public, max-age=" ++ JS.of_N (browserTTL strategy) ++
              ", s-maxage=" ++ JS.of_N (edgeTTL strategy) ++
              ", stale-while-revalidate=" ++ JS.of_N SWR_SECONDS) h in
  let varyHeaders :=
    match Headers.get "Vary" h with
    | Some v => ["Accept-Encoding"; v]
    | None => ["Accept-Encoding"]
    end in
  let h := Headers.set "Vary" (JS.join ", " varyHeaders) h in
  let h := Headers.set "Access-Control-Allow-Origin" "*" h in
  let h := Headers.set "Access-Control-Expose-Headers" "*" h in
  let h := Headers.set "X-Mirror-Version" cacheVersion h in
  let h := Headers.set "X-Cache-Strategy" (description strategy) h in
  let h := Headers.set "X-GitHub-Target" upstreamUrl h in
  let h := Headers.set "X-Cache-Status" "MISS" h in
  let h := Headers.set "X-Response-Time" (JS.of_N (elapsed_ms w) ++ "ms") h in
  let h := Headers.set "X-Content-Type-Options" "nosniff" h in
  let h := Headers.set "X-Frame-Options" "SAMEORIGIN" h in
  let h := Headers.set "Connection" "keep-alive" h in
  let h := Headers.set "Keep-Alive" "timeout=60, max=1000" h in
  {| status := status upstreamResp;
     statusText := statusText upstreamResp;
     headers := h;
     body := body upstreamResp |}.

(** The handler once path and method are accepted: everything from the
    choice of the strategy on.  The result is the list of effects in the
    order they happen and how the handler ends; [None] only if the retry
    loop ran out of fuel (it never does). *)
Definition serve (w : World) (request : Request) (parsedUrl : URL.t)
    (githubInfo : GitHubInfo) : option (list Effect * Completion Response) :=
  let cacheStrategy := getCacheStrategy (path githubInfo) in
  let acceptEncoding :=
    JS.or_else (Headers.get "accept-encoding" (request_headers request)) "" in
  let initialCacheKey :=
    getOptimalCacheKey (date_at_lookup w) (url request) acceptEncoding None in
  let upstreamUrl := fullUrl githubInfo ++ URL.search parsedUrl in
  let hints :=
    if ENABLE_EARLY_HINTS && String.eqb (method request) "GET"
    then [EarlyHint (url request) ("<" ++ upstreamUrl ++ ">; rel=preconnect")]
    else [] in
  let isRange := header_truthy "range" (request_headers request) in
  let lookup := String.eqb (method request) "GET" && negb isRange in
  let looked := if lookup then [CacheMatch initialCacheKey] else [] in
  match (if lookup then cache_match w initialCacheKey else None) with
  | Some hit =>
      Some ((hints ++ looked)%list, Return (hit_response w cacheStrategy hit))
  | None =>
      let init := upstream_init request cacheStrategy in
      match fetchWithRetry (network w upstreamUrl init) MAX_RETRIES with
      | None => None
      | Some (evs, completion) =>
          let before :=
            (hints ++ looked ++ map (retry_effect upstreamUrl init) evs)%list in
          match completion with
          | Throw error => Some (before, Throw error)
          | ReturnUndefined =>
              (* reading the headers of undefined *)
              Some (before, Throw "TypeError")
          | Return upstreamResp =>
              let (finalCacheKey, cacheVersion) :=
                final_key_and_version w request cacheStrategy
                  acceptEncoding initialCacheKey upstreamResp in
              if negb (valid_init_status (status upstreamResp)) then
                (* new Response refuses the status of the upstream one *)
                Some (before, Throw "RangeError")
              else
                let out :=
                  miss_response w cacheStrategy cacheVersion upstreamUrl
                    upstreamResp in
                let stored :=
                  if String.eqb (method request) "GET" &&
                     (status upstreamResp =? 200) && negb isRange
                  then [CachePut finalCacheKey out] else [] in
                Some ((before ++ stored)%list, Return out)
          end
      end
  end.

(** The handler: the path is parsed and validated first, then the method
    is looked at, then the request is served. *)
Definition fetch (w : World) (request : Request)
    : option (list Effect * Completion Response) :=
  let parsedUrl := URL.new (url request) in
  match parseGitHubPath (URL.pathname parsedUrl) with
  | None => Some ([], Return invalid_path_response)
  | Some githubInfo =>
      if String.eqb (method request) "OPTIONS" then
        Some ([], Return preflight_response)
      else if negb (String.eqb (method request) "GET") &&
              negb (String.eqb (method request) "HEAD") then
        Some ([], Return method_not_allowed_response)
      else serve w request parsedUrl githubInfo
  end.

(** [caches.default] after a [put]: the store with one more entry. *)
Definition cache_put (key : string) (response : Response)
    (store : string -> option Response) : string -> option Response :=
  fun k => if String.eqb k key then Some response else store k.

(* ================================================================== *)
(** ** Vocabulary of the properties of the handler *)
(* ================================================================== *)

(** The kinds of effect the properties ask about. *)
Definition is_cache_match (e : Effect) : bool :=
  match e with CacheMatch _ => true | _ => false end.

Definition is_cache_put (e : Effect) : bool :=
  match e with CachePut _ _ => true | _ => false end.

(** The run looked the key up in the cache. *)
Definition lookup_attempted (effs : list Effect) : bool :=
  existsb is_cache_match effs.

(** The run scheduled a write to the cache. *)
Definition write_scheduled (effs : list Effect) : bool :=
  existsb is_cache_put effs.

(** [request.headers.get("accept-encoding") || ""]. *)
Definition accept_encoding_of (request : Request) : string :=
  JS.or_else (Headers.get "accept-encoding" (request_headers request)) "".

(** The key of the cache lookup, [initialCacheKey]. *)
Definition lookup_key (w : World) (request : Request) : string :=
  getOptimalCacheKey (date_at_lookup w) (url request)
    (accept_encoding_of request) None.

(** What the retry loop gives for the upstream request of [request]. *)
Definition upstream_attempts (w : World) (request : Request)
    (info : GitHubInfo) : option (list RetryEvent * Completion Response) :=
  fetchWithRetry
    (network w (fullUrl info ++ URL.search (URL.new (url request)))
       (upstream_init request (getCacheStrategy (path info))))
    MAX_RETRIES.

(** The effects of a run. *)
Definition run_effects (r : option (list Effect * Completion Response))
    : list Effect :=
  match r with Some (effs, _) => effs | None => [] end.

(** The four ways a run of [serve] goes, with its effects. *)
Inductive served (w : World) (request : Request) (info : GitHubInfo)
  : list Effect -> Completion Response -> Prop :=
| served_hit hints hit :
    method request = "GET" ->
    header_truthy "range" (request_headers request) = false ->
    cache_match w (lookup_key w request) = Some hit ->
    lookup_attempted hints = false ->
    write_scheduled hints = false ->
    served w request info
      (hints ++ [CacheMatch (lookup_key w request)])%list
      (Return (hit_response w (getCacheStrategy (path info)) hit))
| served_failure before evs error :
    (method request = "GET" ->
     header_truthy "range" (request_headers request) = false ->
     cache_match w (lookup_key w request) = None) ->
    upstream_attempts w request info = Some (evs, Throw error) ->
    lookup_attempted before =
      String.eqb (method request) "GET" &&
      negb (header_truthy "range" (request_headers request)) ->
    write_scheduled before = false ->
    served w request info before (Throw error)
| served_refused before evs upstreamResp :
    (method request = "GET" ->
     header_truthy "range" (request_headers request) = false ->
     cache_match w (lookup_key w request) = None) ->
    upstream_attempts w request info = Some (evs, Return upstreamResp) ->
    valid_init_status (status upstreamResp) = false ->
    lookup_attempted before =
      String.eqb (method request) "GET" &&
      negb (header_truthy "range" (request_headers request)) ->
    write_scheduled before = false ->
    served w request info before (Throw "RangeError")
| served_miss before evs upstreamResp :
    (method request = "GET" ->
     header_truthy "range" (request_headers request) = false ->
     cache_match w (lookup_key w request) = None) ->
    upstream_attempts w request info = Some (evs, Return upstreamResp) ->
    valid_init_status (status upstreamResp) = true ->
    lookup_attempted before =
      String.eqb (method request) "GET" &&
      negb (header_truthy "range" (request_headers request)) ->
    write_scheduled before = false ->
    let final :=
      final_key_and_version w request (getCacheStrategy (path info))
        (accept_encoding_of request) (lookup_key w request) upstreamResp in
    let out :=
      miss_response w (getCacheStrategy (path info)) (snd final)
        (fullUrl info ++ URL.search (URL.new (url request))) upstreamResp in
    served w request info
      (before ++
       if String.eqb (method request) "GET" &&
          (status upstreamResp =? 200) &&
          negb (header_truthy "range" (request_headers request))
       then [CachePut (fst final) out] else [])%list
      (Return out).

(* ================================================================== *)
(** ** Vocabulary of the further properties *)
(* ================================================================== *)

(** A date of the years 1000 to 9999, as [new Date()] gives them today:
    the month counted from 0, the day from 1. *)
Definition calendar_date (d : UTCDate) : Prop :=
  (1000 <= getUTCFullYear d <= 9999)%N /\
  (getUTCMonth d <= 11)%N /\
  (1 <= getUTCDate d <= 31)%N.

(** The URL the handler fetches upstream. *)
Definition upstream_url (request : Request) (info : GitHubInfo) : string :=
  fullUrl info ++ URL.search (URL.new (url request)).

(** The early hint of a GET. *)
Definition early_hint (request : Request) (info : GitHubInfo) : Effect :=
  EarlyHint (url request)
    ("<" ++ upstream_url request info ++ ">; rel=preconnect").

(** The upstream fetches of a run, each with its target and options. *)
Definition upstream_requests (effs : list Effect)
    : list (string * FetchInit) :=
  flat_map
    (fun e => match e with
              | UpstreamFetch target init _ => [(target, init)]
              | _ => []
              end) effs.

(** The time a run spends waiting between upstream attempts. *)
Definition total_sleep (effs : list Effect) : nat :=
  list_sum
    (flat_map (fun e => match e with Sleep ms => [ms] | _ => [] end) effs).

(** The names, in lower case, of the headers the handler sets on the
    response it builds from the upstream one. *)
Definition assembled_header_names : list string :=
  [ "cache-control"; "vary"; "access-control-allow-origin";
    "access-control-expose-headers"; "x-mirror-version"; "x-cache-strategy";
    "x-github-target"; "x-cache-status"; "x-response-time";
    "x-content-type-options"; "x-frame-options"; "connection";
    "keep-alive" ].

(** The value of the Cache-Control header for a strategy. *)
Definition cache_control_of (strategy : CacheStrategy) : string :=
  "public, max-age=" ++ JS.of_N (browserTTL strategy) ++
  ", s-maxage=" ++ JS.of_N (edgeTTL strategy) ++
  ", stale-while-revalidate=" ++ JS.of_N SWR_SECONDS.

(** Text without HTTP whitespace, as a serialised URL is. *)
Definition no_http_whitespace (s : string) : Prop :=
  forall d, JS.has_char d s = true -> Headers.is_http_whitespace d = false.

(** The early hints a run dispatches, each with the URL it is sent to
    and its Link header. *)
Definition early_hints (effs : list Effect) : list (string * string) :=
  flat_map
    (fun e => match e with
              | EarlyHint target link => [(target, link)]
              | _ => []
              end) effs.

(** The value of a request header if it is present and not empty, as
    [Headers.set] stores it. *)
Definition picked_header (name : string) (request : Request)
    : option string :=
  match Headers.get name (request_headers request) with
  | Some v => if JS.truthy v then Some (Headers.normalize v) else None
  | None => None
  end.

(* ================================================================== *)
(** ** Sample inputs *)
(* ================================================================== *)

(** The first of November 2026, UTC. *)
Definition a_day : UTCDate :=
  {| getUTCFullYear := 2026; getUTCMonth := 10; getUTCDate := 1 |}.

(** The last day of 2026, UTC. *)
Definition another_day : UTCDate :=
  {| getUTCFullYear := 2026; getUTCMonth := 11; getUTCDate := 31 |}.

(** A response with a status and nothing else. *)
Definition plain_response (code : nat) : Response :=
  {| status := code; statusText := ""; headers := []; body := None |}.

(** A 200 response whose only header is the given ETag. *)
Definition response_with_etag (etag : string) : Response :=
  {| status := 200; statusText := "OK"; headers := [("etag", etag)];
     body := None |}.

(** Upstream answers 500, 500, then 200. *)
Definition network_500_500_200 (i : nat) : Outcome :=
  if i <? 2 then Resolved (plain_response 500)
  else Resolved (plain_response 200).

(** Upstream answers 304 to the first attempt and 200 to the others. *)
Definition network_304_then_200 (i : nat) : Outcome :=
  if i =? 0 then Resolved (plain_response 304)
  else Resolved (plain_response 200).

(** An empty cache and an upstream that cannot be reached. *)
Definition world_offline : World :=
  {| date_at_lookup := a_day; date_at_assembly := a_day; elapsed_ms := 3;
     cache_match := fun _ => None;
     network := fun _ _ _ => Rejected "unreachable" |}.

(** An empty cache and an upstream that answers 200. *)
Definition world_upstream_200 : World :=
  {| date_at_lookup := a_day; date_at_assembly := a_day; elapsed_ms := 7;
     cache_match := fun _ => None;
     network := fun _ _ _ => Resolved (plain_response 200) |}.

(** An empty cache and an upstream that answers 200 with the weak ETag
    0815. *)
Definition world_upstream_etag : World :=
  {| date_at_lookup := a_day; date_at_assembly := a_day; elapsed_ms := 7;
     cache_match := fun _ => None;
     network := fun _ _ _ =>
       Resolved
         (response_with_etag (weak_prefix ++ "0815" ++ String dquote "")) |}.

(** An empty cache and an upstream that answers with the status 999. *)
Definition world_upstream_999 : World :=
  {| date_at_lookup := a_day; date_at_assembly := a_day; elapsed_ms := 7;
     cache_match := fun _ => None;
     network := fun _ _ _ => Resolved (plain_response 999) |}.

(** The code unit of the letter e with an acute accent, U+00E9: in a
    header value the byte E9. *)
Definition e_acute : ascii := ascii_of_nat 233.

(** A 200 response whose only header is a Vary with the empty value. *)
Definition response_with_empty_vary : Response :=
  {| status := 200; statusText := "OK"; headers := [("vary", "")];
     body := None |}.

(** An ETag header whose tag starts with a space: a double quote, a space,
    abc, a double quote. *)
Definition spaced_etag : string :=
  String dquote " abc" ++ String dquote "".

(** An empty cache and an upstream that answers 200 with that ETag. *)
Definition world_upstream_spaced_etag : World :=
  {| date_at_lookup := a_day; date_at_assembly := a_day; elapsed_ms := 7;
     cache_match := fun _ => None;
     network := fun _ _ _ => Resolved (response_with_etag spaced_etag) |}.




(** A GET from a client that accepts gzip. *)
Definition get_file : Request :=
  {| method := "GET"; url := "https://proxy.example/user/repo/file.bin";
     request_headers := [("accept-encoding", "gzip")] |}.

(** An entry is in the cache under the lookup key of [get_file]. *)
Definition world_with_entry : World :=
  {| date_at_lookup := a_day; date_at_assembly := a_day; elapsed_ms := 1;
     cache_match := fun k =>
       if String.eqb k
            "https://proxy.example/user/repo/file.bin?__v=20261101&__enc=gzip"
       then Some (plain_response 200) else None;
     network := fun _ _ _ => Rejected "unreachable" |}.

(** A GET for a tagged archive, from a client that accepts gzip. *)
Definition get_tagged : Request :=
  {| method := "GET";
     url := "https://proxy.example/user/repo/archive/refs/tags/v1.0.tar.gz";
     request_headers := [("accept-encoding", "gzip")] |}.

(** Where [get_tagged] resolves to. *)
Definition tagged_info : GitHubInfo :=
  {| host := "github.com";
     path := "/user/repo/archive/refs/tags/v1.0.tar.gz";
     fullUrl := "https://github.com/user/repo/archive/refs/tags/v1.0.tar.gz" |}.

(** Where [get_file] resolves to. *)
Definition file_info : GitHubInfo :=
  {| host := "github.com"; path := "/user/repo/file.bin";
     fullUrl := "https://github.com/user/repo/file.bin" |}.

(* ================================================================== *)
(** * Properties *)
(* ================================================================== *)

(** ** Facts about strings *)

Module StringFacts.

Lemma append_nil_r (s : string) : s ++ "" = s.
Proof. induction s as [|c s IH]; simpl; [reflexivity | now rewrite IH]. Qed.

Lemma append_assoc (a b c : string) : (a ++ b) ++ c = a ++ (b ++ c).
Proof. induction a as [|x a IH]; simpl; [reflexivity | now rewrite IH]. Qed.

Lemma append_inv_head (a x y : string) : a ++ x = a ++ y -> x = y.
Proof.
  induction a as [|c a IH]; simpl; intros H; [exact H|].
  injection H as H. now apply IH.
Qed.

Lemma length_append (a b : string) :
  String.length (a ++ b) = String.length a + String.length b.
Proof. induction a as [|c a IH]; simpl; [reflexivity | now rewrite IH]. Qed.

Lemma append_inv_tail (a x y : string) : x ++ a = y ++ a -> x = y.
Proof.
  revert y. induction x as [|c x IH]; intros [|d y] H; simpl in H.
  - reflexivity.
  - apply (f_equal String.length) in H. simpl in H.
    rewrite length_append in H. lia.
  - apply (f_equal String.length) in H. simpl in H.
    rewrite length_append in H. lia.
  - injection H as -> H. f_equal. now apply IH.
Qed.

Lemma has_char_append (c : ascii) (a b : string) :
  JS.has_char c (a ++ b) = JS.has_char c a || JS.has_char c b.
Proof.
  induction a as [|x a IH]; simpl; [reflexivity|].
  rewrite IH. now rewrite orb_assoc.
Qed.

Lemma truthy_false (s : string) : JS.truthy s = false <-> s = "".
Proof. destruct s; simpl; split; congruence. Qed.

Lemma truthy_true (s : string) : JS.truthy s = true <-> s <> "".
Proof. destruct s; simpl; split; congruence. Qed.

(** *** [cut] *)

Lemma cut_found (sep : ascii) (a b : string) :
  JS.has_char sep a = false ->
  JS.cut sep (a ++ String sep b) = (a, Some b).
Proof.
  induction a as [|c a IH]; simpl; intros H.
  - now rewrite Ascii.eqb_refl.
  - apply orb_false_iff in H as [Hc Ha].
    rewrite Hc, (IH Ha). reflexivity.
Qed.

Lemma cut_absent (sep : ascii) (a : string) :
  JS.has_char sep a = false -> JS.cut sep a = (a, None).
Proof.
  induction a as [|c a IH]; simpl; intros H; [reflexivity|].
  apply orb_false_iff in H as [Hc Ha].
  rewrite Hc, (IH Ha). reflexivity.
Qed.

(** [cut] splits the string at a separator the first part is free of. *)
Lemma cut_spec (sep : ascii) (s : string) :
  match JS.cut sep s with
  | (a, Some b) => s = a ++ String sep b /\ JS.has_char sep a = false
  | (a, None) => s = a /\ JS.has_char sep a = false
  end.
Proof.
  induction s as [|c s IH]; simpl; [now split|].
  destruct (Ascii.eqb c sep) eqn:E.
  - apply Ascii.eqb_eq in E. subst c. now split.
  - destruct (JS.cut sep s) as [a [b|]]; destruct IH as [-> Ha];
      simpl; rewrite E, Ha; now split.
Qed.

(** *** [split] and [join] *)

Lemma split_absent (sep : ascii) (a : string) :
  JS.has_char sep a = false -> JS.split sep a = [a].
Proof.
  induction a as [|c a IH]; simpl; intros H; [reflexivity|].
  apply orb_false_iff in H as [Hc Ha].
  rewrite Hc, (IH Ha). reflexivity.
Qed.

Lemma split_found (sep : ascii) (a b : string) :
  JS.has_char sep a = false ->
  JS.split sep (a ++ String sep b) = a :: JS.split sep b.
Proof.
  induction a as [|c a IH]; simpl; intros H.
  - now rewrite Ascii.eqb_refl.
  - apply orb_false_iff in H as [Hc Ha].
    rewrite Hc, (IH Ha). reflexivity.
Qed.

Lemma split_join (sep : ascii) (l : list string) :
  l <> [] ->
  Forall (fun piece => JS.has_char sep piece = false) l ->
  JS.split sep (JS.join (String sep "") l) = l.
Proof.
  intros Hne Hall. induction Hall as [|x l Hx Hl IH]; [congruence|].
  destruct l as [|y l'].
  - simpl. now apply split_absent.
  - change (JS.join (String sep "") (x :: y :: l'))
      with (x ++ String sep (JS.join (String sep "") (y :: l'))).
    rewrite split_found by exact Hx. f_equal. apply IH. congruence.
Qed.

(** *** [includes] *)

Lemma prefix_append (a b : string) : String.prefix a (a ++ b) = true.
Proof.
  induction a as [|c a IH]; simpl; [now destruct b|].
  destruct (ascii_dec c c); [exact IH | congruence].
Qed.

Lemma prefix_inv (a s : string) :
  String.prefix a s = true -> exists b, s = a ++ b.
Proof.
  revert s. induction a as [|c a IH]; intros s H.
  - now exists s.
  - destruct s as [|d s]; simpl in H; [discriminate|].
    destruct (ascii_dec c d) as [->|]; [|discriminate].
    destruct (IH _ H) as [b ->]. now exists b.
Qed.

Lemma includes_unfold (needle hay : string) :
  JS.includes needle hay =
  String.prefix needle hay ||
  match hay with
  | "" => false
  | String _ rest => JS.includes needle rest
  end.
Proof. destruct hay; reflexivity. Qed.

(** [includes] is the substring relation. *)
Lemma includes_spec (needle hay : string) :
  JS.includes needle hay = true <->
  exists a b, hay = a ++ needle ++ b.
Proof.
  split.
  - induction hay as [|c hay IH]; rewrite includes_unfold; intros H.
    + rewrite orb_false_r in H. apply prefix_inv in H as [b ->].
      now exists "", b.
    + apply orb_true_iff in H as [H|H].
      * apply prefix_inv in H as [b Hb]. exists "", b. exact Hb.
      * destruct (IH H) as (a & b & ->). now exists (String c a), b.
  - intros (a & b & ->). induction a as [|c a IH].
    + rewrite includes_unfold. change ("" ++ needle ++ b) with (needle ++ b).
      now rewrite prefix_append.
    + rewrite includes_unfold.
      change (String c a ++ needle ++ b) with (String c (a ++ needle ++ b)).
      cbv iota. rewrite IH. apply orb_true_r.
Qed.

End StringFacts.

(** ** Facts about the regex matcher: it decides the usual semantics *)

Module RegExpFacts.
Import StringFacts RegExp.

Lemma append_empty (a b : string) : a ++ b = "" -> a = "" /\ b = "".
Proof. destruct a; simpl; [now split | discriminate]. Qed.

Lemma nullable_spec (r : regex) : nullable r = true <-> matches r "".
Proof.
  split.
  - induction r as [| | c | | r IHr s IHs | r IHr s IHs | r IHr]; simpl;
      intros H; try discriminate.
    + constructor.
    + apply andb_true_iff in H as [Hr Hs].
      change "" with ("" ++ ""). constructor; auto.
    + apply orb_true_iff in H as [H|H];
        [apply m_alt_l | apply m_alt_r]; auto.
    + constructor.
  - intros H. remember "" as s eqn:Es.
    induction H as [| c | c Hc | r s a b Ha IHa Hb IHb | r s a Ha IHa
                   | r s a Ha IHa | r | r a b Ha IHa Hb IHb];
      simpl; try discriminate; auto.
    + apply append_empty in Es as [-> ->]. now rewrite IHa, IHb.
    + now rewrite IHa.
    + rewrite IHa by assumption. apply orb_true_r.
Qed.

Lemma deriv_sound (c : ascii) (r : regex) : forall s,
  matches (deriv c r) s -> matches r (String c s).
Proof.
  induction r as [| | d | | r IHr t IHt | r IHr t IHt | r IHr];
    simpl; intros s H.
  - inversion H.
  - inversion H.
  - destruct (Ascii.eqb_spec c d) as [->|]; inversion H. constructor.
  - destruct (is_digit c) eqn:E; inversion H. now constructor.
  - assert (Hcat : forall x, matches (Cat (deriv c r) t) x ->
                             matches (Cat r t) (String c x)).
    { intros x Hx. inversion Hx as [| | |r' s' a b Ha Hb| | | |]; subst.
      change (String c (a ++ b)) with (String c a ++ b).
      constructor; auto. }
    destruct (nullable r) eqn:En; [|now apply Hcat].
    inversion H as [| | | |r' s' a Ha|r' s' a Ha| |]; subst.
    + now apply Hcat.
    + change (String c s) with ("" ++ String c s).
      constructor; [now apply nullable_spec | auto].
  - inversion H as [| | | |r' s' a Ha|r' s' a Ha| |]; subst;
      [apply m_alt_l | apply m_alt_r]; auto.
  - inversion H as [| | |r' s' a b Ha Hb| | | |]; subst.
    change (String c (a ++ b)) with (String c a ++ b).
    apply m_star_cons; auto.
Qed.

Lemma deriv_complete (c : ascii) (r : regex) (s : string) :
  matches r (String c s) -> matches (deriv c r) s.
Proof.
  intros H. remember (String c s) as cs eqn:Ecs. revert c s Ecs.
  induction H as [| d | d Hd | r t a b Ha IHa Hb IHb | r t a Ha IHa
                 | r t a Ha IHa | r | r a b Ha IHa Hb IHb];
    intros c s Ecs; simpl; try discriminate.
  - injection Ecs as -> <-. rewrite Ascii.eqb_refl. constructor.
  - injection Ecs as -> <-. rewrite Hd. constructor.
  - destruct a as [|x a].
    + simpl in Ecs. subst b.
      assert (En : nullable r = true) by now apply nullable_spec.
      rewrite En. apply m_alt_r. now apply IHb.
    + simpl in Ecs. injection Ecs as -> <-.
      assert (Hcat : matches (Cat (deriv c r) t) (a ++ b))
        by (constructor; auto).
      destruct (nullable r); [now apply m_alt_l | exact Hcat].
  - apply m_alt_l. now apply IHa.
  - apply m_alt_r. now apply IHa.
  - destruct a as [|x a].
    + simpl in Ecs. now apply IHb.
    + simpl in Ecs. injection Ecs as -> <-.
      constructor; auto.
Qed.

(** [matches_prefix] finds a prefix in the language of the regex. *)
Lemma matches_prefix_spec (s : string) : forall r,
  matches_prefix r s = true <->
  exists m rest, s = m ++ rest /\ matches r m.
Proof.
  induction s as [|c s IH]; intros r; simpl.
  - rewrite orb_false_r, nullable_spec. split.
    + intros H. now exists "", "".
    + intros (m & rest & E & H). symmetry in E.
      apply append_empty in E as [-> _]. exact H.
  - rewrite orb_true_iff, nullable_spec, IH. split.
    + intros [H | (m & rest & -> & H)].
      * now exists "", (String c s).
      * exists (String c m), rest. split; [reflexivity|].
        now apply deriv_sound.
    + intros (m & rest & E & H). destruct m as [|x m].
      * now left.
      * right. simpl in E. injection E as <- ->.
        exists m, rest. split; [reflexivity|]. now apply deriv_complete.
Qed.

(** [test] finds a substring in the language of the regex. *)
Lemma test_spec (r : regex) (s : string) :
  test r s = true <->
  exists before m after, s = before ++ m ++ after /\ matches r m.
Proof.
  induction s as [|c s IH]; cbn [test].
  - rewrite orb_false_r, matches_prefix_spec. split.
    + intros (m & rest & E & H). now exists "", m, rest.
    + intros (a & m & b & E & H). symmetry in E.
      apply append_empty in E as [-> E]. now exists m, b.
  - rewrite orb_true_iff, matches_prefix_spec, IH. split.
    + intros [(m & rest & E & H) | (a & m & b & -> & H)].
      * now exists "", m, rest.
      * now exists (String c a), m, b.
    + intros (a & m & b & E & H). destruct a as [|x a].
      * left. now exists m, b.
      * right. simpl in E. injection E as <- ->. now exists a, m, b.
Qed.

End RegExpFacts.

(** ** Facts about URLSearchParams: the serializer can be parsed back *)

(** ** Facts about UTF-8: the decoder is idempotent, the encoder injective *)

Module UTF8Facts.
Import UTF8.

Lemma decode_replacement (y : string) :
  decode (replacement ++ y) = replacement ++ decode y.
Proof. reflexivity. Qed.

Lemma decode_one (b0 : ascii) (y : string) :
  between 0 127 b0 = true -> decode (String b0 y) = String b0 (decode y).
Proof. intros H. cbn [decode]. now rewrite H. Qed.

Lemma decode_two (b0 b1 : ascii) (y : string) :
  between 0 127 b0 = false -> between 194 223 b0 = true ->
  between 128 191 b1 = true ->
  decode (String b0 (String b1 y)) = String b0 (String b1 (decode y)).
Proof. intros H0 H1 H2. cbn [decode]. now rewrite H0, H1, H2. Qed.

Lemma decode_three (b0 b1 b2 : ascii) (y : string) :
  between 0 127 b0 = false -> between 194 223 b0 = false ->
  between 224 239 b0 = true ->
  between (lower_boundary b0) (upper_boundary b0) b1 = true ->
  between 128 191 b2 = true ->
  decode (String b0 (String b1 (String b2 y))) =
  String b0 (String b1 (String b2 (decode y))).
Proof.
  intros H0 H1 H2 H3 H4. cbn [decode]. now rewrite H0, H1, H2, H3, H4.
Qed.

Lemma decode_four (b0 b1 b2 b3 : ascii) (y : string) :
  between 0 127 b0 = false -> between 194 223 b0 = false ->
  between 224 239 b0 = false -> between 240 244 b0 = true ->
  between (lower_boundary b0) (upper_boundary b0) b1 = true ->
  between 128 191 b2 = true -> between 128 191 b3 = true ->
  decode (String b0 (String b1 (String b2 (String b3 y)))) =
  String b0 (String b1 (String b2 (String b3 (decode y)))).
Proof.
  intros H0 H1 H2 H3 H4 H5 H6. cbn [decode].
  now rewrite H0, H1, H2, H3, H4, H5, H6.
Qed.

Ltac decode_cases H :=
  repeat (match type of H with
          | context [if ?c then _ else _] => destruct c eqn:?
          | context [match ?r with "" => _ | String _ _ => _ end] =>
              destruct r
          end; cbv iota in H).

Lemma decode_idem_upto (n : nat) (s : string) :
  String.length s <= n -> decode (decode s) = decode s.
Proof.
  revert s. induction n as [|n IH]; intros s Hn.
  - destruct s; [reflexivity | simpl in Hn; lia].
  - destruct s as [|b0 rest]; [reflexivity|].
    simpl in Hn.
    remember (decode (String b0 rest)) as d eqn:Hd.
    cbn [decode] in Hd.
    decode_cases Hd; subst d;
      first
        [ reflexivity
        | rewrite decode_replacement; f_equal; apply IH; simpl in *; lia
        | rewrite decode_one by assumption; f_equal; apply IH; simpl in *; lia
        | rewrite decode_two by assumption; do 2 f_equal; apply IH;
          simpl in *; lia
        | rewrite decode_three by assumption; do 3 f_equal; apply IH;
          simpl in *; lia
        | rewrite decode_four by assumption; do 4 f_equal; apply IH;
          simpl in *; lia ].
Qed.

Lemma decode_idem (s : string) : decode (decode s) = decode s.
Proof. now apply (@decode_idem_upto (String.length s) s). Qed.

Lemma encode_unit_kept (c : ascii) (y : string) :
  decode (encode_unit c ++ y) = encode_unit c ++ decode y.
Proof. destruct c as [[] [] [] [] [] [] [] []]; reflexivity. Qed.

Lemma encode_kept (s : string) : decode (encode s) = encode s.
Proof.
  induction s as [|c s IH]; [reflexivity|].
  simpl encode. now rewrite encode_unit_kept, IH.
Qed.

Lemma encode_unit_bits (b0 b1 b2 b3 b4 b5 b6 b7 : bool) :
  encode_unit (Ascii b0 b1 b2 b3 b4 b5 b6 b7) =
  if b7
  then String (Ascii b6 true false false false false true true)
         (String (Ascii b0 b1 b2 b3 b4 b5 false true) "")
  else String (Ascii b0 b1 b2 b3 b4 b5 b6 false) "".
Proof. destruct b0, b1, b2, b3, b4, b5, b6, b7; reflexivity. Qed.

Lemma encode_inj (s1 s2 : string) : encode s1 = encode s2 -> s1 = s2.
Proof.
  revert s2. induction s1 as [|c1 s1 IH]; intros [|c2 s2]; simpl.
  - reflexivity.
  - destruct c2 as [a0 a1 a2 a3 a4 a5 a6 a7]. rewrite encode_unit_bits.
    destruct a7; discriminate.
  - destruct c1 as [a0 a1 a2 a3 a4 a5 a6 a7]. rewrite encode_unit_bits.
    destruct a7; discriminate.
  - destruct c1 as [a0 a1 a2 a3 a4 a5 a6 a7],
             c2 as [d0 d1 d2 d3 d4 d5 d6 d7].
    rewrite !encode_unit_bits.
    destruct a7, d7; simpl; intros H; injection H; intros; subst;
      try discriminate; f_equal; now apply IH.
Qed.

(** What [encode] gives is well-formed, and so is what [decode] gives. *)
Lemma well_formed_encode (s : string) : well_formed (encode s).
Proof. apply encode_kept. Qed.

Lemma well_formed_decode (s : string) : well_formed (decode s).
Proof. apply decode_idem. Qed.

End UTF8Facts.

(** ** Facts about URLSearchParams *)

Module URLSearchParamsFacts.
Import StringFacts URLSearchParams.

Lemma replace_plus_append (a b : string) :
  replace_plus (a ++ b) = replace_plus a ++ replace_plus b.
Proof. induction a as [|c a IH]; simpl; [reflexivity | now rewrite IH]. Qed.

(** Decoding what one character was encoded to gives the character. *)
Lemma decode_encode_char (c : ascii) (rest : string) :
  percent_decode (replace_plus (encode_char c) ++ rest) =
  String c (percent_decode rest).
Proof.
  destruct c as [[] [] [] [] [] [] [] []]; reflexivity.
Qed.

Lemma percent_decode_encode (s : string) :
  percent_decode (replace_plus (encode s)) = s.
Proof.
  induction s as [|c s IH]; [reflexivity|].
  simpl encode. rewrite replace_plus_append, decode_encode_char.
  now rewrite IH.
Qed.

(** Decoding what was encoded gives the text back when it is well-formed
    UTF-8, and its UTF-8 decoding in any case. *)
Lemma decode_encode (s : string) : decode (encode s) = UTF8.decode s.
Proof. unfold decode. now rewrite percent_decode_encode. Qed.

Lemma decode_well_formed (s : string) : UTF8.well_formed (decode s).
Proof. apply UTF8Facts.well_formed_decode. Qed.

Lemma encode_char_no_delimiter (d c : ascii) :
  is_delimiter d -> JS.has_char d (encode_char c) = false.
Proof.
  intros [-> | [-> | ->]];
    destruct c as [[] [] [] [] [] [] [] []]; reflexivity.
Qed.

Lemma encode_no_delimiter (d : ascii) (s : string) :
  is_delimiter d -> JS.has_char d (encode s) = false.
Proof.
  intros Hd. induction s as [|c s IH]; [reflexivity|].
  simpl encode. rewrite has_char_append, IH.
  now rewrite (encode_char_no_delimiter c Hd).
Qed.

Lemma parse_serialize_pair (kv : string * string) :
  UTF8.well_formed (fst kv) -> UTF8.well_formed (snd kv) ->
  parse_pair (serialize_pair kv) = kv.
Proof.
  destruct kv as [k v]. unfold parse_pair, serialize_pair. simpl.
  intros Hk Hv.
  rewrite cut_found by (apply encode_no_delimiter; right; now left).
  rewrite !decode_encode. now rewrite Hk, Hv.
Qed.

Lemma parse_pair_well_formed (piece : string) :
  UTF8.well_formed (fst (parse_pair piece)) /\
  UTF8.well_formed (snd (parse_pair piece)).
Proof.
  unfold parse_pair. destruct (JS.cut "=" piece) as [name [value|]]; simpl;
    split; try apply decode_well_formed; reflexivity.
Qed.

(** The parser gives a well-formed list. *)
Lemma parse_well_formed (query : string) : well_formed (parse query).
Proof.
  unfold parse, well_formed. apply Forall_forall. intros kv Hin.
  apply in_map_iff in Hin as (piece & <- & _). apply parse_pair_well_formed.
Qed.

Lemma serialize_pair_truthy (kv : string * string) :
  JS.truthy (serialize_pair kv) = true.
Proof.
  unfold serialize_pair. destruct (encode (fst kv)); reflexivity.
Qed.

Lemma serialize_pair_no_amp (kv : string * string) :
  JS.has_char "&" (serialize_pair kv) = false.
Proof.
  unfold serialize_pair. simpl.
  rewrite has_char_append. simpl.
  rewrite !encode_no_delimiter by now left. reflexivity.
Qed.

Lemma serialize_no_hash (l : t) : JS.has_char "#" (serialize l) = false.
Proof.
  unfold serialize, JS.join.
  induction l as [|kv l IH]; [reflexivity|].
  assert (Hkv : JS.has_char "#" (serialize_pair kv) = false).
  { unfold serialize_pair. simpl. rewrite has_char_append. simpl.
    rewrite !encode_no_delimiter by (right; now right). reflexivity. }
  destruct l as [|kv' l']; [exact Hkv|].
  change (String.concat "&" (map serialize_pair (kv :: kv' :: l')))
    with (serialize_pair kv ++
          String "&" (String.concat "&" (map serialize_pair (kv' :: l')))).
  rewrite has_char_append, Hkv. simpl JS.has_char at 1.
  exact IH.
Qed.

(** Round trip: parsing the serialisation of a well-formed list gives
    the list. *)
Lemma parse_serialize (l : t) : well_formed l -> parse (serialize l) = l.
Proof.
  intros Hwf.
  unfold parse, serialize. destruct l as [|kv l]; [reflexivity|].
  rewrite split_join.
  - assert (Hf : forall m : t,
               filter JS.truthy (map serialize_pair m) = map serialize_pair m).
    { induction m as [|x m IH]; [reflexivity|].
      simpl. rewrite serialize_pair_truthy. now rewrite IH. }
    rewrite Hf, map_map. rewrite <- (map_id (kv :: l)) at 2.
    apply map_ext_in. intros x Hx.
    unfold well_formed in Hwf. rewrite Forall_forall in Hwf.
    destruct (Hwf x Hx). now apply parse_serialize_pair.
  - discriminate.
  - apply Forall_forall. intros x Hx. apply in_map_iff in Hx as (y & <- & _).
    apply serialize_pair_no_amp.
Qed.

Lemma serialize_inj (l1 l2 : t) :
  well_formed l1 -> well_formed l2 ->
  serialize l1 = serialize l2 -> l1 = l2.
Proof.
  intros W1 W2 H.
  rewrite <- (parse_serialize W1), <- (parse_serialize W2).
  now rewrite H.
Qed.

Lemma serialize_truthy (l : t) : l <> [] -> JS.truthy (serialize l) = true.
Proof.
  destruct l as [|kv l]; [congruence|]. intros _.
  unfold serialize, JS.join.
  pose proof (serialize_pair_truthy kv) as Hkv.
  destruct l as [|kv' l']; [exact Hkv|].
  change (String.concat "&" (map serialize_pair (kv :: kv' :: l')))
    with (serialize_pair kv ++
          String "&" (String.concat "&" (map serialize_pair (kv' :: l')))).
  destruct (serialize_pair kv); [discriminate | reflexivity].
Qed.

(** *** [set] and [getAll] *)

Lemma set_first_not_nil (name value : string) (l : t) :
  l <> [] -> set_first name value l <> [].
Proof.
  destruct l as [|kv l]; [congruence|]. intros _. simpl.
  destruct (has_name name kv); discriminate.
Qed.

Lemma set_pair_not_nil (name value : string) (l : t) :
  set_pair name value l <> [].
Proof.
  unfold set_pair. destruct (existsb (has_name name) l) eqn:E.
  - apply set_first_not_nil. intros ->. discriminate.
  - destruct l; discriminate.
Qed.

Lemma set_not_nil (name value : string) (l : t) : set name value l <> [].
Proof. apply set_pair_not_nil. Qed.

(** [set] keeps the list well-formed. *)
Lemma set_pair_well_formed (name value : string) (l : t) :
  UTF8.well_formed name -> UTF8.well_formed value ->
  well_formed l -> well_formed (set_pair name value l).
Proof.
  intros Hn Hv Hl. unfold well_formed in *. rewrite Forall_forall in *.
  unfold set_pair.
  destruct (existsb (has_name name) l).
  - clear Hn. induction l as [|kv l IH]; [intros x []|].
    simpl. destruct (has_name name kv).
    + intros x [<- | Hx].
      * simpl. split; [apply (Hl kv); now left | exact Hv].
      * apply filter_In in Hx as [Hx _]. apply Hl. now right.
    + intros x [<- | Hx]; [apply Hl; now left|].
      apply IH; [|exact Hx]. intros y Hy. apply Hl. now right.
  - intros x Hx. apply in_app_or in Hx as [Hx | [<- | []]]; [now apply Hl|].
    now split.
Qed.

Lemma set_well_formed (name value : string) (l : t) :
  well_formed l -> well_formed (set name value l).
Proof.
  apply set_pair_well_formed; apply UTF8Facts.well_formed_encode.
Qed.

Lemma filter_absent (name : string) (l : t) :
  existsb (has_name name) l = false -> filter (has_name name) l = [].
Proof.
  induction l as [|kv l IH]; simpl; [reflexivity|].
  intros H. apply orb_false_iff in H as [-> H]. now apply IH.
Qed.

Lemma filter_removed (name : string) (l : t) :
  filter (has_name name)
    (filter (fun p => negb (has_name name p)) l) = [].
Proof.
  induction l as [|x l IH]; [reflexivity|].
  simpl. destruct (has_name name x) eqn:Ex; simpl; [exact IH|].
  now rewrite Ex.
Qed.

Lemma filter_kept (name other : string) (l : t) :
  other <> name ->
  filter (has_name other)
    (filter (fun p => negb (has_name name p)) l) =
  filter (has_name other) l.
Proof.
  intros Hne. induction l as [|x l IH]; [reflexivity|].
  simpl. destruct (has_name name x) eqn:Ex; simpl.
  - apply String.eqb_eq in Ex.
    assert (Hx : has_name other x = false)
      by (apply String.eqb_neq; congruence).
    now rewrite Hx.
  - destruct (has_name other x); now rewrite IH.
Qed.

Lemma getAll_set_first_same (name value : string) (l : t) :
  existsb (has_name name) l = true ->
  getAll name (set_first name value l) = [value].
Proof.
  unfold getAll. induction l as [|kv l IH]; simpl; [discriminate|].
  destruct (has_name name kv) eqn:E; simpl.
  - intros _. unfold has_name at 1. simpl. fold (has_name name kv).
    rewrite E. simpl. now rewrite filter_removed.
  - intros H. rewrite E. now apply IH.
Qed.

(** After [set name value] the name has exactly the one value. *)
Lemma getAll_set_pair_same (name value : string) (l : t) :
  getAll name (set_pair name value l) = [value].
Proof.
  unfold set_pair. destruct (existsb (has_name name) l) eqn:E.
  - now apply getAll_set_first_same.
  - unfold getAll. rewrite filter_app, (filter_absent _ _ E). simpl.
    unfold has_name. simpl. now rewrite String.eqb_refl.
Qed.

Lemma getAll_set_first_other (name other value : string) (l : t) :
  other <> name ->
  getAll other (set_first name value l) = getAll other l.
Proof.
  intros Hne. unfold getAll. induction l as [|kv l IH]; [reflexivity|].
  simpl. destruct (has_name name kv) eqn:E.
  - apply String.eqb_eq in E.
    assert (Ho : has_name other kv = false)
      by (apply String.eqb_neq; congruence).
    simpl. unfold has_name at 1. simpl. fold (has_name other kv).
    rewrite Ho. now rewrite filter_kept.
  - simpl. destruct (has_name other kv); simpl; now rewrite IH.
Qed.

(** [set name] leaves the values of every other name as they were. *)
Lemma getAll_set_pair_other (name other value : string) (l : t) :
  other <> name -> getAll other (set_pair name value l) = getAll other l.
Proof.
  intros Hne. unfold set_pair. destruct (existsb (has_name name) l).
  - now apply getAll_set_first_other.
  - unfold getAll. rewrite filter_app. simpl.
    assert (H : has_name other (name, value) = false).
    { apply String.eqb_neq. simpl. congruence. }
    rewrite H. now rewrite app_nil_r.
Qed.

(** The same for [set], whose name and value go into the list in UTF-8. *)
Lemma getAll_set_same (name value : string) (l : t) :
  getAll (UTF8.encode name) (set name value l) = [UTF8.encode value].
Proof. apply getAll_set_pair_same. Qed.

Lemma getAll_set_other (name other value : string) (l : t) :
  other <> UTF8.encode name ->
  getAll other (set name value l) = getAll other l.
Proof. apply getAll_set_pair_other. Qed.

End URLSearchParamsFacts.

(** ** Facts about URL: the serializer can be parsed back *)

Module URLFacts.
Import StringFacts URLSearchParamsFacts.

Lemma split_origin_spec (s : string) :
  let (o, p) := URL.split_origin s in
  (o ++ p = s \/ o ++ p = s ++ "/") /\ URL.split_origin (o ++ p) = (o, p).
Proof.
  unfold URL.split_origin at 1.
  pose proof (cut_spec ":" s) as Hc.
  destruct (JS.cut ":" s) as [scheme [rest|]] eqn:Ecut.
  - destruct Hc as [Hs Hscheme].
    destruct (String.prefix "//" rest) eqn:Epre.
    + apply prefix_inv in Epre as [r2 ->].
      change (JS.drop 2 ("//" ++ r2)) with r2.
      pose proof (cut_spec "/" r2) as Hr.
      assert (Hre : forall tail,
                URL.split_origin
                  (scheme ++ String ":" ("//" ++ tail)) =
                match JS.cut "/" tail with
                | (a, Some p) => (scheme ++ "://" ++ a, "/" ++ p)
                | (a, None) => (scheme ++ "://" ++ a, "/")
                end).
      { intros tail. unfold URL.split_origin.
        rewrite cut_found by exact Hscheme.
        now rewrite (prefix_append "//" tail). }
      destruct (JS.cut "/" r2) as [auth [p|]] eqn:Er.
      * destruct Hr as [-> Hauth]. split.
        -- left. subst s. rewrite !append_assoc. reflexivity.
        -- replace ((scheme ++ "://" ++ auth) ++ "/" ++ p)
             with (scheme ++ String ":" ("//" ++ (auth ++ String "/" p)))
             by (rewrite !append_assoc; reflexivity).
           rewrite Hre, cut_found by exact Hauth. reflexivity.
      * destruct Hr as [-> Hauth]. split.
        -- right. subst s. rewrite !append_assoc. reflexivity.
        -- replace ((scheme ++ "://" ++ auth) ++ "/")
             with (scheme ++ String ":" ("//" ++ (auth ++ String "/" "")))
             by (rewrite !append_assoc; reflexivity).
           rewrite Hre, cut_found by exact Hauth. reflexivity.
    + split; [left; apply append_nil_r|].
      rewrite append_nil_r. unfold URL.split_origin.
      now rewrite Ecut, Epre.
  - split; [left; apply append_nil_r|].
    rewrite append_nil_r. unfold URL.split_origin. now rewrite Ecut.
Qed.

Lemma wf_new (s : string) : URL.wf (URL.new s).
Proof.
  unfold URL.new.
  pose proof (cut_spec "#" s) as Hh.
  destruct (JS.cut "#" s) as [bh frag].
  assert (Hbh : JS.has_char "#" bh = false)
    by (destruct frag; tauto). clear Hh.
  pose proof (cut_spec "?" bh) as Hq.
  destruct (JS.cut "?" bh) as [bq q].
  assert (Hbq : JS.has_char "?" bq = false /\ JS.has_char "#" bq = false /\
                forall q', q = Some q' -> JS.has_char "#" q' = false).
  { destruct q as [q'|]; destruct Hq as [-> Hq]; repeat split; auto.
    - rewrite has_char_append in Hbh. now apply orb_false_iff in Hbh.
    - intros q0 [= <-]. rewrite has_char_append in Hbh.
      apply orb_false_iff in Hbh as [_ H]. exact H.
    - discriminate. }
  destruct Hbq as (Hq1 & Hq2 & Hq3). clear Hq.
  pose proof (split_origin_spec bq) as Hs.
  destruct (URL.split_origin bq) as [o p]. destruct Hs as [Hop Hsplit].
  constructor; simpl; auto.
  - destruct Hop as [-> | ->]; [exact Hq1|].
    rewrite has_char_append, Hq1. reflexivity.
  - destruct Hop as [-> | ->]; [exact Hq2|].
    rewrite has_char_append, Hq2. reflexivity.
Qed.

Lemma wf_searchParams_set (name value : string) (u : URL.t) :
  URL.wf u -> URL.wf (URL.searchParams_set name value u).
Proof.
  intros [H1 H2 H3 H4 H5]. unfold URL.searchParams_set.
  rewrite serialize_truthy by apply set_not_nil.
  constructor; simpl; auto.
  - intros q [= <-]. apply serialize_no_hash.
  - rewrite parse_serialize; [reflexivity|].
    apply set_well_formed. rewrite H5. apply parse_well_formed.
Qed.

(** Round trip: parsing the serialisation of a URL object gives it back. *)
Lemma new_toString (u : URL.t) : URL.wf u -> URL.new (URL.toString u) = u.
Proof.
  intros [H1 H2 H3 H4 H5]. destruct u as [o p q f sp]. simpl in *.
  unfold URL.toString, URL.new.
  cbn [URL.origin URL.pathname URL.query URL.fragment].
  set (qs := match q with Some q' => "?" ++ q' | None => "" end).
  assert (Hqs : JS.has_char "#" qs = false).
  { subst qs. destruct q as [q'|]; [|reflexivity].
    simpl. now apply H4. }
  assert (Hcut1 :
    JS.cut "#" (o ++ p ++ qs ++
                match f with Some f' => "#" ++ f' | None => "" end) =
    (o ++ p ++ qs, f)).
  { destruct f as [f'|].
    - replace (o ++ p ++ qs ++ "#" ++ f')
        with ((o ++ p ++ qs) ++ String "#" f')
        by (rewrite !append_assoc; reflexivity).
      apply cut_found.
      rewrite <- append_assoc, has_char_append, H3. exact Hqs.
    - rewrite append_nil_r. apply cut_absent.
      rewrite <- append_assoc, has_char_append, H3. exact Hqs. }
  rewrite Hcut1.
  assert (Hcut2 : JS.cut "?" (o ++ p ++ qs) = (o ++ p, q)).
  { subst qs. destruct q as [q'|].
    - replace (o ++ p ++ "?" ++ q') with ((o ++ p) ++ String "?" q')
        by (rewrite !append_assoc; reflexivity).
      now apply cut_found.
    - rewrite append_nil_r. now apply cut_absent. }
  rewrite Hcut2, H1. now rewrite H5.
Qed.

Lemma toString_inj (u1 u2 : URL.t) :
  URL.wf u1 -> URL.wf u2 -> URL.toString u1 = URL.toString u2 -> u1 = u2.
Proof.
  intros W1 W2 H.
  rewrite <- (new_toString W1), <- (new_toString W2). now rewrite H.
Qed.

End URLFacts.

(* ================================================================== *)
(** ** getCacheStrategy *)
(* ================================================================== *)

Module StrategyFacts.
Import StringFacts RegExpFacts.

Lemma is_dynamic_path_spec (pathname : string) :
  is_dynamic_path pathname = true <->
  exists marker, In marker dynamic_markers /\ contains marker pathname.
Proof.
  unfold is_dynamic_path, contains, dynamic_markers.
  rewrite !orb_true_iff, !includes_spec. split.
  - intros [[[H|H]|H]|H]; eexists; (split; [|exact H]); simpl; tauto.
  - intros (marker & [<- | [<- | [<- | [<- | []]]]] & H); tauto.
Qed.

Lemma is_versioned_path_spec (pathname : string) :
  is_versioned_path pathname = true <->
  exists pattern, In pattern versioned_patterns /\
                  contains_match pattern pathname.
Proof.
  unfold is_versioned_path, contains_match, versioned_patterns.
  rewrite !orb_true_iff, !test_spec. split.
  - intros [[H|H]|H]; eexists; (split; [|exact H]); simpl; tauto.
  - intros (pattern & [<- | [<- | [<- | []]]] & H); tauto.
Qed.

End StrategyFacts.

(** C6.  getCacheStrategy is a total function of the path whose rules are
    tried in order, the first match winning: a path that contains one of
    the four branch markers as a substring gets the dynamic policy whatever
    else it matches; a path that contains none of them and has a substring
    matching one of the three version patterns gets the versioned policy;
    every other path gets the default policy.  The three paths of the
    specification get the versioned, dynamic and default policy with the
    stated TTLs and flags, and a path that matches both a dynamic and a
    versioned rule is dynamic. *)
Theorem C6_getCacheStrategy_first_match_wins :
  (forall pathname marker,
      In marker dynamic_markers ->
      contains marker pathname ->
      getCacheStrategy pathname = dynamic_strategy) /\
  (forall pathname pattern,
      (forall marker, In marker dynamic_markers ->
                      ~ contains marker pathname) ->
      In pattern versioned_patterns ->
      contains_match pattern pathname ->
      getCacheStrategy pathname = versioned_strategy) /\
  (forall pathname,
      (forall marker, In marker dynamic_markers ->
                      ~ contains marker pathname) ->
      (forall pattern, In pattern versioned_patterns ->
                       ~ contains_match pattern pathname) ->
      getCacheStrategy pathname = default_strategy) /\
  (forall pathname,
      getCacheStrategy pathname = dynamic_strategy \/
      getCacheStrategy pathname = versioned_strategy \/
      getCacheStrategy pathname = default_strategy) /\
  getCacheStrategy "/pkg/releases/download/v1.2.3/file.tar.gz" =
    {| edgeTTL := 2592000; browserTTL := 86400; useETag := false;
       description := "versioned" |} /\
  getCacheStrategy "/pkg/raw/main/file" =
    {| edgeTTL := 3600; browserTTL := 300; useETag := true;
       description := "dynamic" |} /\
  getCacheStrategy "/pkg/blob/x" =
    {| edgeTTL := 86400; browserTTL := 3600; useETag := true;
       description := "default" |} /\
  (is_versioned_path "/pkg/raw/main/v1.2.3/file" = true /\
   getCacheStrategy "/pkg/raw/main/v1.2.3/file" = dynamic_strategy).
Proof.
  assert (Hnot_dynamic : forall pathname,
            (forall marker, In marker dynamic_markers ->
                            ~ contains marker pathname) ->
            is_dynamic_path pathname = false).
  { intros pathname H. apply not_true_is_false. intros E.
    apply StrategyFacts.is_dynamic_path_spec in E as (marker & Hin & Hc).
    exact (H marker Hin Hc). }
  repeat apply conj.
  - intros pathname marker Hin Hc. unfold getCacheStrategy.
    assert (E : is_dynamic_path pathname = true).
    { apply StrategyFacts.is_dynamic_path_spec. now exists marker. }
    now rewrite E.
  - intros pathname pattern Hd Hin Hc. unfold getCacheStrategy.
    rewrite (Hnot_dynamic _ Hd).
    assert (E : is_versioned_path pathname = true).
    { apply StrategyFacts.is_versioned_path_spec. now exists pattern. }
    now rewrite E.
  - intros pathname Hd Hv. unfold getCacheStrategy.
    rewrite (Hnot_dynamic _ Hd).
    assert (E : is_versioned_path pathname = false).
    { apply not_true_is_false. intros E.
      apply StrategyFacts.is_versioned_path_spec in E as (p & Hin & Hc).
      exact (Hv p Hin Hc). }
    now rewrite E.
  - intros pathname. unfold getCacheStrategy.
    destruct (is_dynamic_path pathname); [now left|].
    destruct (is_versioned_path pathname); [right; now left | right; now right].
  - vm_compute. reflexivity.
  - vm_compute. reflexivity.
  - vm_compute. reflexivity.
  - vm_compute. reflexivity.
  - vm_compute. reflexivity.
Qed.

Lemma C6_getCacheStrategy_witness :
  getCacheStrategy ("/pkg/raw" ++ "/main/" ++ "file") = dynamic_strategy /\
  getCacheStrategy "/pkg/archive/refs/tags/v6.6.tar.gz" = versioned_strategy /\
  getCacheStrategy "/pkg/blob/x" = default_strategy.
Proof.
  destruct C6_getCacheStrategy_first_match_wins as (Hdyn & Hver & Hdef & _).
  assert (Hno : forall pathname,
            is_dynamic_path pathname = false ->
            forall marker, In marker dynamic_markers ->
                           ~ contains marker pathname).
  { intros pathname E marker Hin Hc.
    assert (T : is_dynamic_path pathname = true)
      by (apply StrategyFacts.is_dynamic_path_spec; now exists marker).
    congruence. }
  split; [|split].
  - apply (Hdyn _ "/main/"); [simpl; tauto | now exists "/pkg/raw", "file"].
  - apply (Hver _ Patterns.tag_segment).
    + apply Hno. vm_compute. reflexivity.
    + simpl. tauto.
    + apply RegExpFacts.test_spec. vm_compute. reflexivity.
  - apply Hdef.
    + apply Hno. vm_compute. reflexivity.
    + intros pattern Hin Hc.
      assert (T : is_versioned_path "/pkg/blob/x" = true)
        by (apply StrategyFacts.is_versioned_path_spec; now exists pattern).
      vm_compute in T. discriminate.
Defined.

(* ================================================================== *)
(** ** parseGitHubPath *)
(* ================================================================== *)

Module PathFacts.
Import StringFacts.

Lemma is_github_host_In (part : string) :
  is_github_host part = true <-> In part GITHUB_HOSTS.
Proof.
  unfold is_github_host. rewrite existsb_exists. split.
  - intros (h & Hin & Heq). apply String.eqb_eq in Heq. now subst.
  - intros Hin. exists part. split; [exact Hin | apply String.eqb_refl].
Qed.

(** [split] cuts at every slash and nowhere else: joining gives the
    string back. *)
Lemma join_split (sep : ascii) (s : string) :
  JS.join (String sep "") (JS.split sep s) = s.
Proof.
  unfold JS.join. induction s as [|c s IH]; [reflexivity|].
  simpl. destruct (Ascii.eqb c sep) eqn:E.
  - apply Ascii.eqb_eq in E. subst c.
    destruct (JS.split sep s) as [|x xs] eqn:Es.
    + destruct s; simpl in Es; [discriminate|].
      destruct (Ascii.eqb a sep); [discriminate|].
      destruct (JS.split sep s); discriminate.
    + simpl. simpl in IH. now rewrite IH.
  - destruct (JS.split sep s) as [|x xs] eqn:Es.
    + destruct s; simpl in Es; [discriminate|].
      destruct (Ascii.eqb a sep); [discriminate|].
      destruct (JS.split sep s); discriminate.
    + simpl in *. destruct xs; simpl in *; now rewrite <- IH.
Qed.

(** The handler answers a path without segments before anything else. *)
Lemma fetch_invalid_path (w : World) (request : Request) :
  parseGitHubPath (URL.pathname (URL.new (url request))) = None ->
  fetch w request = Some ([], Return invalid_path_response).
Proof. intros H. unfold fetch. now rewrite H. Qed.

End PathFacts.

(** C7.  When the first non-empty segment of the path is a recognised host,
    parseGitHubPath gives that segment as host and the other non-empty
    segments, joined by slashes after a leading slash, as path; when the
    path has a non-empty segment and the first is no recognised host, it
    gives github.com and the whole input path; when the path has no
    non-empty segment it gives null, and the handler then answers 400 with
    a plain-text body and no effect; in every success case fullUrl is
    https:// followed by host and path. *)
Theorem C7_parseGitHubPath_resolution :
  (forall pathname first others,
      path_parts pathname = first :: others ->
      In first GITHUB_HOSTS ->
      parseGitHubPath pathname =
      Some {| host := first;
              path := "/" ++ JS.join "/" others;
              fullUrl := "https://" ++ first ++ "/" ++ JS.join "/" others |}) /\
  (forall pathname first others,
      path_parts pathname = first :: others ->
      ~ In first GITHUB_HOSTS ->
      parseGitHubPath pathname =
      Some {| host := "github.com";
              path := pathname;
              fullUrl := "https://" ++ "github.com" ++ pathname |}) /\
  (forall pathname,
      path_parts pathname = [] -> parseGitHubPath pathname = None) /\
  (forall w request,
      path_parts (URL.pathname (URL.new (url request))) = [] ->
      fetch w request = Some ([], Return invalid_path_response)) /\
  (status invalid_path_response = 400 /\
   Headers.get "Content-Type" (headers invalid_path_response) =
     Some "text/plain" /\
   exists text, body invalid_path_response = Some text) /\
  (forall pathname info,
      parseGitHubPath pathname = Some info ->
      fullUrl info = "https://" ++ host info ++ path info).
Proof.
  repeat apply conj.
  - intros pathname first others Hp Hin. unfold parseGitHubPath.
    rewrite Hp. apply PathFacts.is_github_host_In in Hin. now rewrite Hin.
  - intros pathname first others Hp Hnin. unfold parseGitHubPath.
    rewrite Hp. destruct (is_github_host first) eqn:E; [|reflexivity].
    apply PathFacts.is_github_host_In in E. contradiction.
  - intros pathname Hp. unfold parseGitHubPath. now rewrite Hp.
  - intros w request Hp. apply PathFacts.fetch_invalid_path.
    unfold parseGitHubPath. now rewrite Hp.
  - reflexivity.
  - reflexivity.
  - now exists "Invalid path. Usage: /[github.com]/user/repo/path/to/file".
  - intros pathname info. unfold parseGitHubPath.
    destruct (path_parts pathname) as [|first others]; [discriminate|].
    intros [= <-]. reflexivity.
Qed.

Lemma C7_parseGitHubPath_witness :
  parseGitHubPath "/raw.githubusercontent.com//user/repo/README.md" =
    Some {| host := "raw.githubusercontent.com";
            path := "/user/repo/README.md";
            fullUrl := "https://raw.githubusercontent.com/user/repo/README.md" |} /\
  parseGitHubPath "/user/repo/archive/main.zip" =
    Some {| host := "github.com";
            path := "/user/repo/archive/main.zip";
            fullUrl := "https://github.com/user/repo/archive/main.zip" |} /\
  parseGitHubPath "//" = None /\
  fetch world_offline
    {| method := "GET"; url := "https://proxy.example/";
       request_headers := [] |} =
    Some ([], Return invalid_path_response).
Proof.
  destruct C7_parseGitHubPath_resolution as (Hhost & Hdef & Hnone & H400 & _).
  split; [|split; [|split]].
  - apply (Hhost "/raw.githubusercontent.com//user/repo/README.md"
             "raw.githubusercontent.com" ["user"; "repo"; "README.md"]).
    + reflexivity.
    + simpl. tauto.
  - apply (Hdef "/user/repo/archive/main.zip"
             "user" ["repo"; "archive"; "main.zip"]).
    + reflexivity.
    + simpl. intros [H | [H | [H | [H | []]]]]; discriminate.
  - apply Hnone. reflexivity.
  - apply H400. reflexivity.
Defined.

(* ================================================================== *)
(** ** extractETag *)
(* ================================================================== *)

Module ETagFacts.
Import StringFacts.

Lemma remove_char_absent (c : ascii) (s : string) :
  JS.has_char c s = false -> JS.remove_char c s = s.
Proof.
  induction s as [|d s IH]; simpl; intros H; [reflexivity|].
  apply orb_false_iff in H as [Hd Hs]. rewrite Hd. now rewrite IH.
Qed.

Lemma remove_char_append (c : ascii) (a b : string) :
  JS.remove_char c (a ++ b) = JS.remove_char c a ++ JS.remove_char c b.
Proof.
  induction a as [|d a IH]; simpl; [reflexivity|].
  destruct (Ascii.eqb d c); simpl; now rewrite IH.
Qed.

(** A tag between double quotes loses exactly the quotes. *)
Lemma remove_quotes_closing (t : string) :
  JS.has_char dquote t = false ->
  JS.remove_char dquote (t ++ String dquote "") = t.
Proof.
  intros H. rewrite remove_char_append, (remove_char_absent _ _ H).
  simpl. apply append_nil_r.
Qed.

Lemma substring0_length (n : nat) (s : string) :
  String.length (JS.substring0 n s) <= n.
Proof.
  unfold JS.substring0. revert s.
  induction n as [|n IH]; intros [|c s]; simpl; try lia.
  specialize (IH s). lia.
Qed.

Lemma substring0_short (n : nat) (s : string) :
  String.length s <= n -> JS.substring0 n s = s.
Proof.
  unfold JS.substring0. revert s.
  induction n as [|n IH]; intros [|c s]; simpl; intros H;
    try reflexivity; try lia.
  f_equal. apply IH. lia.
Qed.

(** The first [n] characters: what is cut off is a suffix. *)
Lemma substring0_prefix (n : nat) (s : string) :
  exists cut_off, s = JS.substring0 n s ++ cut_off.
Proof.
  unfold JS.substring0. revert s.
  induction n as [|n IH]; intros [|c s]; simpl.
  - now exists "".
  - now exists (String c s).
  - now exists "".
  - destruct (IH s) as [t Ht]. exists t. now rewrite <- Ht.
Qed.

Lemma substring0_full (n : nat) (s : string) :
  n <= String.length s -> String.length (JS.substring0 n s) = n.
Proof.
  unfold JS.substring0. revert s.
  induction n as [|n IH]; intros [|c s]; simpl; intros H;
    try reflexivity; try lia.
  f_equal. apply IH. lia.
Qed.

Lemma extractETag_of_header (r : Response) (etag : string) :
  Headers.get "etag" (headers r) = Some etag ->
  etag <> "" ->
  extractETag r = Some (JS.substring0 32 (strip_weak_and_quotes etag)).
Proof.
  intros H Hne. unfold extractETag. rewrite H.
  apply truthy_true in Hne. now rewrite Hne.
Qed.

End ETagFacts.

(** C8.  extractETag gives null when the response has no ETag header.  For
    a header that is a tag between double quotes, with or without the weak
    prefix in front, it gives the first 32 characters of the tag (the tag
    itself when it is no longer than that): the prefix and the quotes are
    gone.  Whatever the header, the result has at most 32 characters.  The
    weak tag abc123 gives abc123, and a quoted tag of 40 characters gives
    its first 32.  A character is a UTF-16 code unit, which is what
    substring and length count; a header value has one for each of its
    bytes, so a tag of 40 bytes beyond ASCII is cut to its first 32 as
    any other. *)
Theorem C8_extractETag_normalization :
  (forall r, Headers.get "etag" (headers r) = None -> extractETag r = None) /\
  (forall r tag,
      JS.has_char dquote tag = false ->
      Headers.get "etag" (headers r) =
        Some (weak_prefix ++ tag ++ String dquote "") ->
      extractETag r = Some (JS.substring0 32 tag)) /\
  (forall r tag,
      JS.has_char dquote tag = false ->
      Headers.get "etag" (headers r) =
        Some (String dquote (tag ++ String dquote "")) ->
      extractETag r = Some (JS.substring0 32 tag)) /\
  (forall tag, String.length tag <= 32 -> JS.substring0 32 tag = tag) /\
  (forall tag, 32 <= String.length tag ->
      String.length (JS.substring0 32 tag) = 32 /\
      exists cut_off, tag = JS.substring0 32 tag ++ cut_off) /\
  (forall r e, extractETag r = Some e -> String.length e <= 32) /\
  extractETag
    (response_with_etag (weak_prefix ++ "abc123" ++ String dquote "")) =
    Some "abc123" /\
  extractETag
    (response_with_etag
       (String dquote
          ("abc123def456abc123def456abc123def456abcd" ++ String dquote ""))) =
    Some "abc123def456abc123def456abc123de".
Proof.
  repeat apply conj.
  - intros r H. unfold extractETag. now rewrite H.
  - intros r tag Hq H.
    rewrite (ETagFacts.extractETag_of_header _ H) by discriminate.
    unfold strip_weak_and_quotes.
    rewrite StringFacts.prefix_append.
    change (JS.drop 3 (weak_prefix ++ tag ++ String dquote ""))
      with (tag ++ String dquote "").
    now rewrite ETagFacts.remove_quotes_closing.
  - intros r tag Hq H.
    rewrite (ETagFacts.extractETag_of_header _ H) by discriminate.
    unfold strip_weak_and_quotes.
    change (String.prefix weak_prefix
              (String dquote (tag ++ String dquote ""))) with false.
    cbv iota.
    change (JS.remove_char dquote (String dquote (tag ++ String dquote "")))
      with (JS.remove_char dquote (tag ++ String dquote "")).
    now rewrite ETagFacts.remove_quotes_closing.
  - intros tag. apply ETagFacts.substring0_short.
  - intros tag H. split.
    + now apply ETagFacts.substring0_full.
    + apply ETagFacts.substring0_prefix.
  - intros r e. unfold extractETag.
    destruct (Headers.get "etag" (headers r)) as [etag|]; [|discriminate].
    destruct (JS.truthy etag); [|discriminate].
    intros [= <-]. apply ETagFacts.substring0_length.
  - reflexivity.
  - reflexivity.
Qed.

Lemma C8_extractETag_witness :
  extractETag (response_with_etag "") = None /\
  extractETag
    (response_with_etag (weak_prefix ++ "abc123" ++ String dquote "")) =
    Some (JS.substring0 32 "abc123") /\
  extractETag
    (response_with_etag (String dquote ("0815" ++ String dquote ""))) =
    Some (JS.substring0 32 "0815") /\
  JS.substring0 32 "abc123" = "abc123" /\
  extractETag
    (response_with_etag
       (String dquote (JS.repeat_char e_acute 40 ++ String dquote ""))) =
    Some (JS.repeat_char e_acute 32).
Proof.
  destruct C8_extractETag_normalization
    as (_ & Hweak & Hstrong & Hshort & _).
  split; [reflexivity | split; [|split; [|split]]].
  - apply (Hweak _ "abc123"); reflexivity.
  - apply (Hstrong _ "0815"); reflexivity.
  - apply Hshort. simpl. lia.
  - rewrite (Hstrong _ (JS.repeat_char e_acute 40)); reflexivity.
Defined.

(* ================================================================== *)
(** ** fetchWithRetry *)
(* ================================================================== *)

Module RetryFacts.

Section Loop.
Variable network : nat -> Outcome.
Variable retries : nat.

(** One iteration of the loop. *)
Lemma retry_loop_step (fuel i : nat) :
  retry_loop network retries (S fuel) i =
  if i <=? retries then
    if retryable (network i) then
      if i <? retries then
        match retry_loop network retries fuel (i + 1) with
        | Some (evs, c) =>
            Some (Attempt i :: Delay (RETRY_DELAY_MS * (i + 1)) :: evs, c)
        | None => None
        end
      else Some ([Attempt i], completion_of (network i))
    else Some ([Attempt i], completion_of (network i))
  else Some ([], ReturnUndefined).
Proof.
  cbn [retry_loop]. destruct (i <=? retries); [|reflexivity].
  destruct (network i) as [response|error]; cbn [retryable completion_of].
  - destruct (orb _ _); reflexivity.
  - reflexivity.
Qed.

(** The loop run forward: if the attempts i, ..., i+k-1 are retryable
    and attempt i+k is not, or is the last one allowed, the loop ends
    at attempt i+k with its outcome. *)
Lemma retry_loop_run (k : nat) : forall fuel i,
  i + k <= retries ->
  k < fuel ->
  (forall j, j < k -> retryable (network (i + j)) = true) ->
  retryable (network (i + k)) = false \/ i + k = retries ->
  retry_loop network retries fuel i =
  Some (schedule i k, completion_of (network (i + k))).
Proof.
  induction k as [|k IH]; intros fuel i Hle Hfuel Hretry Hstop.
  - destruct fuel as [|fuel]; [lia|]. rewrite retry_loop_step.
    rewrite Nat.add_0_r in *.
    destruct (Nat.leb_spec i retries) as [_|]; [|lia].
    destruct Hstop as [-> | ->]; [reflexivity|].
    rewrite Nat.ltb_irrefl. now destruct (retryable _).
  - destruct fuel as [|fuel]; [lia|]. rewrite retry_loop_step.
    destruct (Nat.leb_spec i retries) as [_|]; [|lia].
    assert (Hlt : (i <? retries) = true) by (apply Nat.ltb_lt; lia).
    assert (H0 : retryable (network i) = true).
    { specialize (Hretry 0). rewrite Nat.add_0_r in Hretry.
      apply Hretry. lia. }
    assert (Hnext : retry_loop network retries fuel (i + 1) =
                    Some (schedule (i + 1) k,
                          completion_of (network (i + S k)))).
    { replace (i + S k) with (i + 1 + k) by lia.
      apply IH; try lia.
      - intros j Hj. replace (i + 1 + j) with (i + S j) by lia.
        apply Hretry. lia.
      - replace (i + 1 + k) with (i + S k) by lia. exact Hstop. }
    rewrite H0, Hlt, Hnext. reflexivity.
Qed.

(** There always is such an attempt, at most [n] after [i]. *)
Lemma stop_exists (n : nat) : forall i,
  i + n = retries ->
  exists k, i + k <= retries /\
            (forall j, j < k -> retryable (network (i + j)) = true) /\
            (retryable (network (i + k)) = false \/ i + k = retries).
Proof.
  induction n as [|n IH]; intros i Hi.
  - exists 0. repeat split; [lia | intros j Hj; lia | right; lia].
  - destruct (retryable (network i)) eqn:E.
    + destruct (IH (i + 1)) as (k & Hle & Hre & Hstop); [lia|].
      exists (S k). repeat split.
      * lia.
      * intros [|j] Hj; [now rewrite Nat.add_0_r|].
        replace (i + S j) with (i + 1 + j) by lia. apply Hre. lia.
      * replace (i + S k) with (i + 1 + k) by lia. exact Hstop.
    + exists 0. rewrite Nat.add_0_r.
      repeat split; [lia | intros j Hj; lia | now left].
Qed.

(** The loop always ends: it stops at the first attempt that is not
    retryable, or at attempt [retries]. *)
Lemma fetchWithRetry_stops :
  exists k, k <= retries /\
    (forall j, j < k -> retryable (network j) = true) /\
    (retryable (network k) = false \/ k = retries) /\
    fetchWithRetry network retries =
    Some (schedule 0 k, completion_of (network k)).
Proof.
  destruct (stop_exists retries 0 eq_refl) as (k & Hle & Hre & Hstop).
  exists k. repeat split; auto.
  unfold fetchWithRetry. change (network k) with (network (0 + k)).
  apply retry_loop_run; auto; lia.
Qed.

End Loop.

Lemma attempts_schedule (k i : nat) : attempts (schedule i k) = S k.
Proof.
  revert i. unfold attempts.
  induction k as [|k IH]; intros i; [reflexivity|].
  simpl. now rewrite IH.
Qed.

Lemma delays_schedule (k i : nat) :
  delays (schedule i k) =
  map (fun n => RETRY_DELAY_MS * n) (seq (i + 1) k).
Proof.
  revert i. unfold delays.
  induction k as [|k IH]; intros i; [reflexivity|].
  cbn [schedule flat_map seq map app]. f_equal.
  rewrite IH. now replace (i + 1 + 1) with (S (i + 1)) by lia.
Qed.

End RetryFacts.

(** C5.  fetchWithRetry always ends, after at most retries+1 attempts, and
    the delays it waits are RETRY_DELAY_MS * 1, RETRY_DELAY_MS * 2, ... in
    this order, one before each retry.  With the responses 500, 500, 200
    and two retries it returns the 200 after the delays 500 and 1000; when
    every attempt answers 5xx it returns the response of the last attempt;
    a 404 on the first attempt is returned at once; and when every attempt
    is rejected it throws the error of the last of its retries+1
    attempts. *)
Theorem C5_fetchWithRetry_bounded_linear_backoff :
  (forall network retries, exists evs c,
      fetchWithRetry network retries = Some (evs, c) /\
      attempts evs <= retries + 1 /\
      delays evs =
        map (fun n => RETRY_DELAY_MS * n) (seq 1 (attempts evs - 1))) /\
  fetchWithRetry network_500_500_200 2 =
    Some ([Attempt 0; Delay 500; Attempt 1; Delay 1000; Attempt 2],
          Return (plain_response 200)) /\
  (forall network retries (r : nat -> Response),
      (forall i, i <= retries ->
         network i = Resolved (r i) /\ 500 <= status (r i) <= 599) ->
      fetchWithRetry network retries =
        Some (schedule 0 retries, Return (r retries))) /\
  (forall network retries r,
      network 0 = Resolved r -> status r = 404 ->
      fetchWithRetry network retries = Some ([Attempt 0], Return r)) /\
  (forall network retries (e : nat -> string),
      (forall i, i <= retries -> network i = Rejected (e i)) ->
      fetchWithRetry network retries =
        Some (schedule 0 retries, Throw (e retries)) /\
      attempts (schedule 0 retries) = retries + 1).
Proof.
  repeat apply conj.
  - intros network retries.
    destruct (RetryFacts.fetchWithRetry_stops network retries)
      as (k & Hk & _ & _ & Hrun).
    exists (schedule 0 k), (completion_of (network k)).
    rewrite RetryFacts.attempts_schedule, RetryFacts.delays_schedule.
    repeat split; [exact Hrun | lia |].
    now replace (S k - 1) with k by lia.
  - reflexivity.
  - intros network retries r Hall. unfold fetchWithRetry.
    destruct (Hall retries (le_n _)) as [Hlast _].
    replace (Return (r retries)) with (completion_of (network (0 + retries)))
      by (simpl; now rewrite Hlast).
    apply RetryFacts.retry_loop_run; [lia | lia | | now right].
    intros j Hj. destruct (Hall j) as [Hj1 Hj2]; [lia|].
    simpl. rewrite Hj1. unfold retryable, ok.
    apply negb_true_iff, orb_false_iff. split.
    + apply andb_false_iff. right. apply Nat.leb_gt. lia.
    + apply andb_false_iff. right. apply Nat.ltb_ge. lia.
  - intros network retries r H0 H404. unfold fetchWithRetry.
    replace (Return r) with (completion_of (network (0 + 0)))
      by (simpl; now rewrite H0).
    apply RetryFacts.retry_loop_run with (k := 0) (i := 0);
      [lia | lia | intros j Hj; lia |].
    left. simpl. rewrite H0. unfold retryable, ok. now rewrite H404.
  - intros network retries e Hall.
    split; [|rewrite RetryFacts.attempts_schedule; lia].
    unfold fetchWithRetry.
    pose proof (Hall retries (le_n _)) as Hlast.
    replace (Throw (e retries)) with (completion_of (network (0 + retries)))
      by (simpl; now rewrite Hlast).
    apply RetryFacts.retry_loop_run; [lia | lia | | now right].
    intros j Hj. simpl. rewrite (Hall j) by lia. reflexivity.
Qed.

Lemma C5_fetchWithRetry_witness :
  fetchWithRetry (fun _ => Resolved (plain_response 503)) 2 =
    Some (schedule 0 2, Return (plain_response 503)) /\
  fetchWithRetry (fun _ => Resolved (plain_response 404)) 2 =
    Some ([Attempt 0], Return (plain_response 404)) /\
  fetchWithRetry (fun _ => Rejected "timeout") 2 =
    Some (schedule 0 2, Throw "timeout").
Proof.
  destruct C5_fetchWithRetry_bounded_linear_backoff
    as (_ & _ & H5xx & H404 & Herr).
  split; [|split].
  - apply (H5xx _ 2 (fun _ => plain_response 503)).
    intros i _. split; [reflexivity | simpl; lia].
  - apply H404; reflexivity.
  - apply (Herr _ 2 (fun _ => "timeout")). intros i _. reflexivity.
Defined.

(** C2, as stated, fails: a 304 on the first attempt is not returned; the
    loop waits and fetches again. *)
Lemma C2_counterexample_304_is_retried :
  network_304_then_200 0 = Resolved (plain_response 304) /\
  300 <= status (plain_response 304) <= 399 /\
  fetchWithRetry network_304_then_200 2 =
    Some ([Attempt 0; Delay 500; Attempt 1], Return (plain_response 200)) /\
  fetchWithRetry network_304_then_200 2 <>
    Some ([Attempt 0], Return (plain_response 304)).
Proof.
  repeat apply conj; try reflexivity; try (simpl; lia). discriminate.
Qed.

(** C2, amended.  At every iteration i of the loop and for every retry
    budget, a response whose status is in 200-299 is returned at once: the
    iteration's only event is its fetch, so a call whose attempts before i
    were all retried ends with attempt i and returns its response.  A
    response whose status is in 300-399 is returned at once only by the
    last iteration (i = retries); an earlier iteration waits
    RETRY_DELAY_MS * (i+1) and goes on with the next attempt, as for a
    5xx. *)
Theorem C2_ok_response_returned_immediately
    (network : nat -> Outcome) (retries i fuel : nat) (r : Response) :
  i <= retries ->
  network i = Resolved r ->
  (200 <= status r <= 299 ->
     retry_loop network retries (S fuel) i = Some ([Attempt i], Return r)) /\
  (300 <= status r <= 399 -> i = retries ->
     retry_loop network retries (S fuel) i = Some ([Attempt i], Return r)) /\
  (300 <= status r <= 399 -> i < retries ->
     retry_loop network retries (S fuel) i =
     match retry_loop network retries fuel (i + 1) with
     | Some (evs, c) =>
         Some (Attempt i :: Delay (RETRY_DELAY_MS * (i + 1)) :: evs, c)
     | None => None
     end) /\
  (200 <= status r <= 299 ->
   (forall j, j < i -> retryable (network j) = true) ->
     fetchWithRetry network retries = Some (schedule 0 i, Return r)).
Proof.
  intros Hi Hr.
  assert (Hok : 200 <= status r <= 299 -> retryable (network i) = false).
  { intros [H1 H2]. rewrite Hr. unfold retryable, ok.
    assert (E : (200 <=? status r) = true) by (apply Nat.leb_le; lia).
    assert (F : (status r <=? 299) = true) by (apply Nat.leb_le; lia).
    now rewrite E, F. }
  assert (Hlast : 200 <= status r <= 299 ->
            (forall j, j < i -> retryable (network j) = true) ->
            fetchWithRetry network retries = Some (schedule 0 i, Return r)).
  { intros H Hbefore. unfold fetchWithRetry.
    replace (Return r) with (completion_of (network (0 + i)))
      by (simpl; now rewrite Hr).
    apply RetryFacts.retry_loop_run; [lia | lia | exact Hbefore |].
    left. now apply Hok. }
  rewrite RetryFacts.retry_loop_step, Hr.
  destruct (Nat.leb_spec i retries) as [_|]; [|lia].
  cbn [retryable completion_of]. unfold ok.
  repeat apply conj; [| | |exact Hlast].
  - intros [H1 H2].
    assert (E : (200 <=? status r) = true) by (apply Nat.leb_le; lia).
    assert (F : (status r <=? 299) = true) by (apply Nat.leb_le; lia).
    now rewrite E, F.
  - intros _ ->. rewrite Nat.ltb_irrefl. now destruct (negb _).
  - intros [H1 H2] Hlt.
    assert (E : (status r <=? 299) = false) by (apply Nat.leb_gt; lia).
    assert (F : (400 <=? status r) = false) by (apply Nat.leb_gt; lia).
    assert (G : (i <? retries) = true) by (apply Nat.ltb_lt; lia).
    rewrite E, F, G, andb_false_r. reflexivity.
Qed.

Lemma C2_ok_response_witness :
  retry_loop network_500_500_200 2 1 2 =
    Some ([Attempt 2], Return (plain_response 200)) /\
  retry_loop network_304_then_200 2 3 0 =
    match retry_loop network_304_then_200 2 2 1 with
    | Some (evs, c) => Some (Attempt 0 :: Delay (RETRY_DELAY_MS * 1) :: evs, c)
    | None => None
    end.
Proof.
  split.
  - destruct (@C2_ok_response_returned_immediately network_500_500_200
                2 2 0 (plain_response 200) (le_n 2) eq_refl)
      as (H & _ & _ & _).
    apply H. simpl. lia.
  - destruct (@C2_ok_response_returned_immediately network_304_then_200
                2 0 2 (plain_response 304) (Nat.le_0_l 2) eq_refl)
      as (_ & _ & H & _).
    apply H; simpl; lia.
Defined.

(* ================================================================== *)
(** ** getOptimalCacheKey *)
(* ================================================================== *)

Module CacheKeyFacts.
Import StringFacts URLSearchParamsFacts URLFacts.

Lemma padStart_length (n : nat) (c : ascii) (s : string) :
  n <= String.length (JS.padStart n c s).
Proof.
  unfold JS.padStart. rewrite length_append.
  assert (H : forall k, String.length (JS.repeat_char c k) = k).
  { induction k as [|k IH]; simpl; [reflexivity | now rewrite IH]. }
  rewrite H. lia.
Qed.

(** The date stamp is never empty, so it is never falsy. *)
Lemma getCacheVersion_not_empty (now : UTCDate) : getCacheVersion now <> "".
Proof.
  unfold getCacheVersion. intros H.
  apply (f_equal String.length) in H. rewrite !length_append in H.
  pose proof (padStart_length 2 "0" (JS.of_N (getUTCDate now))).
  simpl in H. lia.
Qed.

Lemma effective_version_not_empty (now : UTCDate) (v : option string) :
  effective_version now v <> "".
Proof.
  unfold effective_version, JS.or_else.
  destruct v as [s|]; [|apply getCacheVersion_not_empty].
  destruct (JS.truthy s) eqn:E; [|apply getCacheVersion_not_empty].
  now apply truthy_true.
Qed.

Lemma effective_version_given (now : UTCDate) (v : string) :
  v <> "" -> effective_version now (Some v) = v.
Proof.
  intros H. unfold effective_version, JS.or_else.
  apply truthy_true in H. now rewrite H.
Qed.

(** The function in one piece: the version is set, then the tag if any. *)
Lemma getOptimalCacheUrl_eq (now : UTCDate) (u e : string)
    (v : option string) :
  getOptimalCacheUrl now u e v =
  let versioned :=
    URL.searchParams_set "__v" (effective_version now v) (URL.new u) in
  match encoding_tag e with
  | Some tag => URL.searchParams_set "__enc" tag versioned
  | None => versioned
  end.
Proof.
  unfold getOptimalCacheUrl, encoding_tag, effective_version.
  destruct (JS.truthy e); [|reflexivity].
  destruct (JS.includes "br" e); [reflexivity|].
  destruct (JS.includes "gzip" e); reflexivity.
Qed.

Lemma wf_getOptimalCacheUrl (now : UTCDate) (u e : string)
    (v : option string) :
  URL.wf (getOptimalCacheUrl now u e v).
Proof.
  rewrite getOptimalCacheUrl_eq. cbv zeta.
  destruct (encoding_tag e);
    repeat apply wf_searchParams_set; apply wf_new.
Qed.

(** The key string is the serialisation of [cacheUrl], and parsing it
    gives [cacheUrl] back: what holds of the one holds of the other. *)
Lemma key_parses_back (now : UTCDate) (u e : string) (v : option string) :
  URL.new (getOptimalCacheKey now u e v) = getOptimalCacheUrl now u e v.
Proof. apply new_toString, wf_getOptimalCacheUrl. Qed.

Lemma key_eq_iff (now1 now2 : UTCDate) (u1 u2 e1 e2 : string)
    (v1 v2 : option string) :
  getOptimalCacheKey now1 u1 e1 v1 = getOptimalCacheKey now2 u2 e2 v2 <->
  getOptimalCacheUrl now1 u1 e1 v1 = getOptimalCacheUrl now2 u2 e2 v2.
Proof.
  split.
  - apply toString_inj; apply wf_getOptimalCacheUrl.
  - unfold getOptimalCacheKey. now intros ->.
Qed.

(** The reserved names are ASCII: in UTF-8 they are themselves. *)
Lemma encoding_tag_ascii (e tag : string) :
  encoding_tag e = Some tag -> UTF8.encode tag = tag.
Proof.
  unfold encoding_tag. destruct (JS.truthy e); [|discriminate].
  destruct (JS.includes "br" e); [now intros [= <-]|].
  destruct (JS.includes "gzip" e); [now intros [= <-] | discriminate].
Qed.

(** The key carries the version, in UTF-8, as the one value of __v. *)
Lemma cacheUrl_version (now : UTCDate) (u e : string) (v : option string) :
  URLSearchParams.getAll "__v"
    (URL.searchParams (getOptimalCacheUrl now u e v)) =
  [UTF8.encode (effective_version now v)].
Proof.
  rewrite getOptimalCacheUrl_eq. cbv zeta.
  destruct (encoding_tag e); cbn [URL.searchParams_set URL.searchParams].
  - rewrite getAll_set_other by discriminate.
    apply (getAll_set_same "__v").
  - apply (getAll_set_same "__v").
Qed.

Lemma cacheUrl_encoding (now : UTCDate) (u e : string) (v : option string) :
  URLSearchParams.getAll "__enc"
    (URL.searchParams (getOptimalCacheUrl now u e v)) =
  match encoding_tag e with
  | Some tag => [tag]
  | None => URLSearchParams.getAll "__enc" (URL.searchParams (URL.new u))
  end.
Proof.
  rewrite getOptimalCacheUrl_eq. cbv zeta.
  destruct (encoding_tag e) as [tag|] eqn:Etag;
    cbn [URL.searchParams_set URL.searchParams].
  - rewrite <- (encoding_tag_ascii _ Etag) at 2.
    apply (getAll_set_same "__enc").
  - now rewrite getAll_set_other by discriminate.
Qed.

Lemma cacheUrl_other (now : UTCDate) (u e : string) (v : option string)
    (name : string) :
  name <> "__v" -> name <> "__enc" ->
  URLSearchParams.getAll name
    (URL.searchParams (getOptimalCacheUrl now u e v)) =
  URLSearchParams.getAll name (URL.searchParams (URL.new u)).
Proof.
  intros H1 H2. rewrite getOptimalCacheUrl_eq. cbv zeta.
  destruct (encoding_tag e); cbn [URL.searchParams_set URL.searchParams];
    now rewrite ?getAll_set_other by assumption.
Qed.

Lemma cacheUrl_components (now : UTCDate) (u e : string)
    (v : option string) :
  URL.origin (getOptimalCacheUrl now u e v) = URL.origin (URL.new u) /\
  URL.pathname (getOptimalCacheUrl now u e v) = URL.pathname (URL.new u) /\
  URL.fragment (getOptimalCacheUrl now u e v) = URL.fragment (URL.new u).
Proof.
  rewrite getOptimalCacheUrl_eq. cbv zeta.
  destruct (encoding_tag e); repeat split.
Qed.

(** Two keys differ as soon as their versions do. *)
Lemma key_version_differs (now1 now2 : UTCDate) (u1 u2 e1 e2 : string)
    (v1 v2 : option string) :
  effective_version now1 v1 <> effective_version now2 v2 ->
  getOptimalCacheKey now1 u1 e1 v1 <> getOptimalCacheKey now2 u2 e2 v2.
Proof.
  intros Hne H. apply key_eq_iff in H.
  apply (f_equal (fun c => URLSearchParams.getAll "__v" (URL.searchParams c)))
    in H.
  rewrite !cacheUrl_version in H. injection H as H.
  now apply UTF8Facts.encode_inj in H.
Qed.

(** Ill-formed bytes in a value are read as U+FFFD and written back as
    such, so the three URLs give one key; and a version beyond ASCII is
    written in UTF-8. *)
Lemma ill_formed_values_give_one_key :
  getOptimalCacheKey a_day "https://proxy.example/a?q=%FF" "" None =
    "https://proxy.example/a?q=%EF%BF%BD&__v=20261101" /\
  getOptimalCacheKey a_day "https://proxy.example/a?q=%E4" "" None =
    "https://proxy.example/a?q=%EF%BF%BD&__v=20261101" /\
  getOptimalCacheKey a_day "https://proxy.example/a?q=%C3" "" None =
    "https://proxy.example/a?q=%EF%BF%BD&__v=20261101" /\
  getOptimalCacheKey a_day "https://proxy.example/a?q=%C3%A9" "" None =
    "https://proxy.example/a?q=%C3%A9&__v=20261101" /\
  getOptimalCacheKey a_day "https://proxy.example/a" ""
    (Some (String e_acute "")) =
    "https://proxy.example/a?__v=%C3%A9".
Proof. repeat apply conj; vm_compute; reflexivity. Qed.

(** *** Lists that differ only in the values of one name *)

Lemma same_but_for_exists (name : string) (l1 l2 : URLSearchParams.t) :
  same_but_for name l1 l2 ->
  existsb (URLSearchParams.has_name name) l1 =
  existsb (URLSearchParams.has_name name) l2.
Proof.
  intros H.
  induction H as [|[n1 v1] [n2 v2] l1 l2 [Hn _] _ IH]; [reflexivity|].
  simpl in Hn. subst n2. simpl.
  change (URLSearchParams.has_name name (n1, v1)) with (String.eqb n1 name).
  change (URLSearchParams.has_name name (n1, v2)) with (String.eqb n1 name).
  now rewrite IH.
Qed.

Lemma same_but_for_others (name : string) (l1 l2 : URLSearchParams.t) :
  same_but_for name l1 l2 ->
  filter (fun p => negb (URLSearchParams.has_name name p)) l1 =
  filter (fun p => negb (URLSearchParams.has_name name p)) l2.
Proof.
  intros H.
  induction H as [|[n1 v1] [n2 v2] l1 l2 [Hn Hv] _ IH]; [reflexivity|].
  simpl in Hn, Hv. subst n2. simpl.
  change (URLSearchParams.has_name name (n1, v1)) with (String.eqb n1 name).
  change (URLSearchParams.has_name name (n1, v2)) with (String.eqb n1 name).
  destruct (String.eqb_spec n1 name) as [E|E]; simpl; [exact IH|].
  now rewrite (Hv E), IH.
Qed.

Lemma same_but_for_absent (name : string) (l1 l2 : URLSearchParams.t) :
  same_but_for name l1 l2 ->
  existsb (URLSearchParams.has_name name) l1 = false -> l1 = l2.
Proof.
  intros H.
  induction H as [|[n1 v1] [n2 v2] l1 l2 [Hn Hv] _ IH]; [reflexivity|].
  simpl in Hn, Hv. subst n2. simpl.
  change (URLSearchParams.has_name name (n1, v1)) with (String.eqb n1 name).
  intros Hex. apply orb_false_iff in Hex as [Hne Hex].
  apply String.eqb_neq in Hne. now rewrite (Hv Hne), (IH Hex).
Qed.

Lemma same_but_for_set_first (name x : string)
    (l1 l2 : URLSearchParams.t) :
  same_but_for name l1 l2 ->
  URLSearchParams.set_first name x l1 = URLSearchParams.set_first name x l2.
Proof.
  intros H.
  induction H as [|[n1 v1] [n2 v2] l1 l2 [Hn Hv] Hrest IH]; [reflexivity|].
  simpl in Hn, Hv. subst n2. simpl.
  change (URLSearchParams.has_name name (n1, v1)) with (String.eqb n1 name).
  change (URLSearchParams.has_name name (n1, v2)) with (String.eqb n1 name).
  destruct (String.eqb_spec n1 name) as [E|E].
  - f_equal. now apply same_but_for_others.
  - now rewrite (Hv E), IH.
Qed.

(** Setting the name wipes out what the two lists differ in. *)
Lemma same_but_for_set_pair (name x : string) (l1 l2 : URLSearchParams.t) :
  same_but_for name l1 l2 ->
  URLSearchParams.set_pair name x l1 = URLSearchParams.set_pair name x l2.
Proof.
  intros H. unfold URLSearchParams.set_pair.
  rewrite <- (same_but_for_exists H).
  destruct (existsb (URLSearchParams.has_name name) l1) eqn:Hex.
  - now apply same_but_for_set_first.
  - now rewrite (same_but_for_absent H Hex).
Qed.

(** Two URLs that differ only in their values of __v have one key. *)
Lemma key_ignores_version_parameter (now : UTCDate) (u1 u2 e : string)
    (v : option string) :
  differ_only_in "__v" u1 u2 ->
  getOptimalCacheKey now u1 e v = getOptimalCacheKey now u2 e v.
Proof.
  intros (Ho & Hp & Hf & Hl). unfold getOptimalCacheKey. f_equal.
  rewrite !getOptimalCacheUrl_eq. cbv zeta.
  assert (Hv : URL.searchParams_set "__v" (effective_version now v)
                 (URL.new u1) =
               URL.searchParams_set "__v" (effective_version now v)
                 (URL.new u2)).
  { unfold URL.searchParams_set, URLSearchParams.set.
    change (UTF8.encode "__v") with "__v".
    rewrite Ho, Hp, Hf.
    now rewrite (same_but_for_set_pair
                   (UTF8.encode (effective_version now v)) Hl). }
  now rewrite Hv.
Qed.

End CacheKeyFacts.

(** C4, as stated, fails: each of the three components can change and
    leave the key as it was.  Two URLs that differ in the value of their
    version parameter, two Accept-Encoding values that both name br, and
    the versions null and the date stamp of the day give the same key. *)
Lemma C4_counterexample_key_collisions :
  ("https://proxy.example/a/b?__v=1" <> "https://proxy.example/a/b?__v=2" /\
   getOptimalCacheKey a_day "https://proxy.example/a/b?__v=1" "gzip"
     (Some "abc") =
   getOptimalCacheKey a_day "https://proxy.example/a/b?__v=2" "gzip"
     (Some "abc")) /\
  ("br" <> "gzip, br" /\
   getOptimalCacheKey a_day "https://proxy.example/a/b" "br" (Some "abc") =
   getOptimalCacheKey a_day "https://proxy.example/a/b" "gzip, br"
     (Some "abc")) /\
  (None <> Some "20261101" /\
   getOptimalCacheKey a_day "https://proxy.example/a/b" "gzip" None =
   getOptimalCacheKey a_day "https://proxy.example/a/b" "gzip"
     (Some "20261101")).
Proof.
  repeat apply conj; try discriminate; vm_compute; reflexivity.
Qed.

(** C4, amended.  On a given day getOptimalCacheKey is a function of the
    triple.  It depends on the version only through the effective version
    (the version if it is not empty, else the date stamp): with url and
    encoding fixed, two keys are equal exactly when the effective versions
    are.  It depends on Accept-Encoding only through the tag (br, gzip or
    none): with version fixed and a URL that has no __enc parameter, two
    keys are equal exactly when the tags are.  Two URLs that give the
    same key have the same origin, path and fragment and the same values
    for every query parameter other than __v and __enc.  And two URLs
    that differ only in the value of __v give the same key.  The values
    of a parameter are the ones the URL parser reads: percent-decoded and
    UTF-8 decoded, so that two spellings of one value, or two
    ill-formed byte sequences that both decode to U+FFFD, are one
    value. *)
Theorem C4_key_determined_by_normalised_triple :
  (forall now u1 u2 e1 e2 v1 v2,
      u1 = u2 -> e1 = e2 -> v1 = v2 ->
      getOptimalCacheKey now u1 e1 v1 = getOptimalCacheKey now u2 e2 v2) /\
  (forall now u e v1 v2,
      getOptimalCacheKey now u e v1 = getOptimalCacheKey now u e v2 <->
      effective_version now v1 = effective_version now v2) /\
  (forall now u e1 e2 v,
      URLSearchParams.getAll "__enc" (URL.searchParams (URL.new u)) = [] ->
      (getOptimalCacheKey now u e1 v = getOptimalCacheKey now u e2 v <->
       encoding_tag e1 = encoding_tag e2)) /\
  (forall now u1 u2 e v,
      getOptimalCacheKey now u1 e v = getOptimalCacheKey now u2 e v ->
      URL.origin (URL.new u1) = URL.origin (URL.new u2) /\
      URL.pathname (URL.new u1) = URL.pathname (URL.new u2) /\
      URL.fragment (URL.new u1) = URL.fragment (URL.new u2) /\
      forall name, name <> "__v" -> name <> "__enc" ->
        URLSearchParams.getAll name (URL.searchParams (URL.new u1)) =
        URLSearchParams.getAll name (URL.searchParams (URL.new u2))) /\
  (forall now u1 u2 e v,
      differ_only_in "__v" u1 u2 ->
      getOptimalCacheKey now u1 e v = getOptimalCacheKey now u2 e v).
Proof.
  repeat apply conj; [| | | |apply CacheKeyFacts.key_ignores_version_parameter].
  - intros now u1 u2 e1 e2 v1 v2 -> -> ->. reflexivity.
  - intros now u e v1 v2. split.
    + intros H.
      destruct (string_dec (effective_version now v1)
                  (effective_version now v2)) as [Heq|Hne]; [exact Heq|].
      exfalso. revert H. now apply CacheKeyFacts.key_version_differs.
    + intros H. unfold getOptimalCacheKey.
      rewrite !CacheKeyFacts.getOptimalCacheUrl_eq. now rewrite H.
  - intros now u e1 e2 v Hnone. split.
    + intros H. apply CacheKeyFacts.key_eq_iff in H.
      apply (f_equal
               (fun c => URLSearchParams.getAll "__enc" (URL.searchParams c)))
        in H.
      rewrite !CacheKeyFacts.cacheUrl_encoding, Hnone in H.
      destruct (encoding_tag e1), (encoding_tag e2); congruence.
    + intros H. unfold getOptimalCacheKey.
      rewrite !CacheKeyFacts.getOptimalCacheUrl_eq. now rewrite H.
  - intros now u1 u2 e v H. apply CacheKeyFacts.key_eq_iff in H.
    destruct (CacheKeyFacts.cacheUrl_components now u1 e v) as (O1 & P1 & F1).
    destruct (CacheKeyFacts.cacheUrl_components now u2 e v) as (O2 & P2 & F2).
    repeat split.
    + now rewrite <- O1, <- O2, H.
    + now rewrite <- P1, <- P2, H.
    + now rewrite <- F1, <- F2, H.
    + intros name H1 H2.
      rewrite <- (CacheKeyFacts.cacheUrl_other now u1 e v H1 H2).
      rewrite <- (CacheKeyFacts.cacheUrl_other now u2 e v H1 H2).
      now rewrite H.
Qed.

Lemma C4_key_witness :
  getOptimalCacheKey a_day "https://proxy.example/a/b" "gzip" None =
  getOptimalCacheKey a_day "https://proxy.example/a/b" "gzip"
    (Some "20261101") /\
  getOptimalCacheKey a_day "https://proxy.example/a/b" "br" None =
  getOptimalCacheKey a_day "https://proxy.example/a/b" "gzip, br" None /\
  URL.pathname (URL.new "https://proxy.example/a/b") =
  URL.pathname (URL.new "https://proxy.example/a/b?__v=1") /\
  getOptimalCacheKey a_day "https://proxy.example/a/b?x=1&__v=one" "gzip"
    None =
  getOptimalCacheKey a_day "https://proxy.example/a/b?x=1&__v=two" "gzip"
    None.
Proof.
  destruct C4_key_determined_by_normalised_triple
    as (_ & Hv & He & Hu & Hd).
  split; [|split; [|split]].
  - apply Hv. reflexivity.
  - apply He; reflexivity.
  - apply (Hu a_day _ _ "" None). reflexivity.
  - apply Hd. repeat split.
    change (same_but_for "__v" [("x", "1"); ("__v", "one")]
              [("x", "1"); ("__v", "two")]).
    repeat constructor; simpl; congruence.
Defined.

(** C10.  The key always carries the version (in UTF-8, as the list of a
    URL's parameters holds every value) as the one value of __v, whatever
    the request URL had under that name.  When Accept-Encoding contains
    neither br nor gzip, the values of __enc in the key are the ones of
    the request URL, unchanged; so two request URLs whose __enc values
    differ then give different keys.  The values of a parameter are the
    ones the URL parser reads, percent-decoded and UTF-8 decoded: two
    ill-formed byte sequences that both decode to U+FFFD are one value,
    and give one key. *)
Theorem C10_version_overwritten_client_encoding_kept :
  (forall now u e v,
      URLSearchParams.getAll "__v"
        (URL.searchParams (URL.new (getOptimalCacheKey now u e v))) =
      [UTF8.encode (effective_version now v)]) /\
  (forall now u e v,
      JS.includes "br" e = false ->
      JS.includes "gzip" e = false ->
      URLSearchParams.getAll "__enc"
        (URL.searchParams (URL.new (getOptimalCacheKey now u e v))) =
      URLSearchParams.getAll "__enc" (URL.searchParams (URL.new u))) /\
  (forall now u1 u2 e v,
      JS.includes "br" e = false ->
      JS.includes "gzip" e = false ->
      URLSearchParams.getAll "__enc" (URL.searchParams (URL.new u1)) <>
      URLSearchParams.getAll "__enc" (URL.searchParams (URL.new u2)) ->
      getOptimalCacheKey now u1 e v <> getOptimalCacheKey now u2 e v).
Proof.
  assert (Hkeep : forall now u e v,
            JS.includes "br" e = false ->
            JS.includes "gzip" e = false ->
            URLSearchParams.getAll "__enc"
              (URL.searchParams (getOptimalCacheUrl now u e v)) =
            URLSearchParams.getAll "__enc" (URL.searchParams (URL.new u))).
  { intros now u e v Hbr Hgz. rewrite CacheKeyFacts.cacheUrl_encoding.
    unfold encoding_tag. rewrite Hbr, Hgz. now destruct (JS.truthy e). }
  repeat apply conj.
  - intros now u e v. rewrite CacheKeyFacts.key_parses_back.
    apply CacheKeyFacts.cacheUrl_version.
  - intros now u e v Hbr Hgz. rewrite CacheKeyFacts.key_parses_back.
    now apply Hkeep.
  - intros now u1 u2 e v Hbr Hgz Hne H. apply Hne.
    apply CacheKeyFacts.key_eq_iff in H.
    rewrite <- (Hkeep now u1 e v Hbr Hgz), <- (Hkeep now u2 e v Hbr Hgz).
    now rewrite H.
Qed.

Lemma C10_client_encoding_witness :
  URLSearchParams.getAll "__enc"
    (URL.searchParams
       (URL.new
          (getOptimalCacheKey a_day "https://proxy.example/a/b?__enc=zz&__v=1"
             "identity" None))) = ["zz"] /\
  getOptimalCacheKey a_day "https://proxy.example/a/b?__enc=zz" "" None <>
  getOptimalCacheKey a_day "https://proxy.example/a/b?__enc=yy" "" None.
Proof.
  destruct C10_version_overwritten_client_encoding_kept as (_ & Hkeep & Hne).
  split.
  - rewrite Hkeep; reflexivity.
  - apply Hne; try reflexivity. vm_compute. discriminate.
Defined.

(* ================================================================== *)
(** ** The request handler *)
(* ================================================================== *)

Module HandlerFacts.
Import StringFacts.

Lemma existsb_retry_effects (f : Effect -> bool) (target : string)
    (init : FetchInit) (evs : list RetryEvent) :
  (forall e, f (retry_effect target init e) = false) ->
  existsb f (map (retry_effect target init) evs) = false.
Proof.
  intros H. induction evs as [|e evs IH]; [reflexivity|].
  simpl. now rewrite H, IH.
Qed.

Lemma no_match_in_retries (target : string) (init : FetchInit)
    (evs : list RetryEvent) :
  existsb is_cache_match (map (retry_effect target init) evs) = false.
Proof. apply existsb_retry_effects. now intros []. Qed.

Lemma no_put_in_retries (target : string) (init : FetchInit)
    (evs : list RetryEvent) :
  existsb is_cache_put (map (retry_effect target init) evs) = false.
Proof. apply existsb_retry_effects. now intros []. Qed.

Lemma fetch_serves (w : World) (request : Request) (info : GitHubInfo) :
  parseGitHubPath (URL.pathname (URL.new (url request))) = Some info ->
  method request = "GET" \/ method request = "HEAD" ->
  fetch w request = serve w request (URL.new (url request)) info.
Proof.
  intros Hp Hm. unfold fetch. rewrite Hp.
  destruct Hm as [-> | ->]; reflexivity.
Qed.

(** The retry loop never falls off its end. *)
Lemma fetchWithRetry_completes (net : nat -> Outcome) (retries : nat) :
  exists evs c,
    fetchWithRetry net retries = Some (evs, c) /\ c <> ReturnUndefined.
Proof.
  destruct (RetryFacts.fetchWithRetry_stops net retries)
    as (k & _ & _ & _ & H).
  exists (schedule 0 k), (completion_of (net k)). split; [exact H|].
  destruct (net k); discriminate.
Qed.

Lemma serve_served (w : World) (request : Request) (info : GitHubInfo) :
  exists effs c,
    serve w request (URL.new (url request)) info = Some (effs, c) /\
    served w request info effs c.
Proof.
  unfold serve.
  fold (accept_encoding_of request). fold (lookup_key w request).
  fold (upstream_attempts w request info).
  set (hints := if ENABLE_EARLY_HINTS && String.eqb (method request) "GET"
                then _ else _).
  assert (Hh1 : lookup_attempted hints = false)
    by (subst hints; destruct (_ && _); reflexivity).
  assert (Hh2 : write_scheduled hints = false)
    by (subst hints; destruct (_ && _); reflexivity).
  set (lookup := String.eqb (method request) "GET" &&
                 negb (header_truthy "range" (request_headers request))).
  destruct (if lookup then cache_match w (lookup_key w request) else None)
    as [hit|] eqn:Ehit.
  - destruct lookup eqn:El; [|discriminate].
    apply andb_true_iff in El as [Hget Hr].
    apply String.eqb_eq in Hget. apply negb_true_iff in Hr.
    eexists _, _. split; [reflexivity|].
    now apply served_hit.
  - assert (Hmiss : method request = "GET" ->
              header_truthy "range" (request_headers request) = false ->
              cache_match w (lookup_key w request) = None).
    { intros Hget Hr. subst lookup. rewrite Hget, Hr in Ehit. exact Ehit. }
    destruct (fetchWithRetry_completes
                (network w (fullUrl info ++ URL.search (URL.new (url request)))
                   (upstream_init request (getCacheStrategy (path info))))
                MAX_RETRIES) as (evs & c & Hrun & Hc).
    fold (upstream_attempts w request info) in Hrun. rewrite Hrun.
    set (before := (hints ++ _ ++ map _ evs)%list).
    assert (Hb1 : lookup_attempted before = lookup).
    { subst before. unfold lookup_attempted in *.
      rewrite !existsb_app, Hh1, no_match_in_retries.
      destruct lookup; reflexivity. }
    assert (Hb2 : write_scheduled before = false).
    { subst before. unfold write_scheduled in *.
      rewrite !existsb_app, Hh2, no_put_in_retries.
      destruct lookup; reflexivity. }
    destruct c as [upstreamResp|error|]; [| |congruence].
    + destruct (final_key_and_version w request (getCacheStrategy (path info))
                  (accept_encoding_of request) (lookup_key w request)
                  upstreamResp) as [finalCacheKey cacheVersion] eqn:Ef.
      destruct (valid_init_status (status upstreamResp)) eqn:Ev.
      * eexists _, _. split; [reflexivity|].
        pose proof (@served_miss w request info before evs upstreamResp
                      Hmiss Hrun Ev Hb1 Hb2) as Hs.
        cbv zeta in Hs. rewrite Ef in Hs. exact Hs.
      * eexists _, _. split; [reflexivity|].
        now apply served_refused with (evs := evs) (upstreamResp := upstreamResp).
    + eexists _, _. split; [reflexivity|].
      now apply served_failure with (evs := evs).
Qed.

End HandlerFacts.

Module HandlerCases.
Import StringFacts HandlerFacts.

(** A run on a path that resolves: refused for its method with no effect,
    or served. *)
Lemma fetch_cases (w : World) (request : Request) (info : GitHubInfo)
    (effs : list Effect) (c : Completion Response) :
  parseGitHubPath (URL.pathname (URL.new (url request))) = Some info ->
  fetch w request = Some (effs, c) ->
  (effs = [] /\ method request <> "GET") \/ served w request info effs c.
Proof.
  intros Hp Hrun. unfold fetch in Hrun. rewrite Hp in Hrun.
  destruct (String.eqb (method request) "OPTIONS") eqn:Eo.
  - apply String.eqb_eq in Eo. injection Hrun as <- <-.
    left. split; [reflexivity|]. rewrite Eo. discriminate.
  - destruct (String.eqb (method request) "GET") eqn:Eg.
    + right. destruct (serve_served w request info) as (effs' & c' & Hs & H).
      simpl in Hrun. rewrite Hs in Hrun. now injection Hrun as <- <-.
    + destruct (String.eqb (method request) "HEAD") eqn:Eh;
        simpl in Hrun.
      * right. destruct (serve_served w request info) as (effs' & c' & Hs & H).
        rewrite Hs in Hrun. now injection Hrun as <- <-.
      * injection Hrun as <- <-. left. split; [reflexivity|].
        now apply String.eqb_neq.
Qed.

(** The handler always ends. *)
Lemma fetch_total (w : World) (request : Request) :
  exists effs c, fetch w request = Some (effs, c).
Proof.
  unfold fetch.
  destruct (parseGitHubPath (URL.pathname (URL.new (url request))))
    as [info|]; [|now eexists _, _].
  destruct (String.eqb (method request) "OPTIONS"); [now eexists _, _|].
  destruct (negb _ && negb _); [now eexists _, _|].
  destruct (serve_served w request info) as (effs & c & Hs & _).
  now exists effs, c.
Qed.

Lemma put_scheduled (key : string) (out : Response) (effs : list Effect) :
  In (CachePut key out) effs -> write_scheduled effs = true.
Proof.
  intros H. apply existsb_exists. now exists (CachePut key out).
Qed.

(** A scheduled write: the request was a GET without a range, its lookup
    missed, upstream answered 200, and the key is [finalCacheKey]. *)
Lemma put_inv (w : World) (request : Request) (info : GitHubInfo)
    (effs : list Effect) (c : Completion Response)
    (key : string) (out : Response) :
  parseGitHubPath (URL.pathname (URL.new (url request))) = Some info ->
  fetch w request = Some (effs, c) ->
  In (CachePut key out) effs ->
  method request = "GET" /\
  header_truthy "range" (request_headers request) = false /\
  cache_match w (lookup_key w request) = None /\
  exists evs upstreamResp,
    upstream_attempts w request info = Some (evs, Return upstreamResp) /\
    status upstreamResp = 200 /\
    key = fst (final_key_and_version w request
                 (getCacheStrategy (path info)) (accept_encoding_of request)
                 (lookup_key w request) upstreamResp).
Proof.
  intros Hp Hrun Hin.
  destruct (fetch_cases _ _ Hp Hrun) as [[-> _] | Hs]; [destruct Hin|].
  destruct Hs as [hints hit _ _ _ _ Hh
                 | before evs error _ _ _ Hb
                 | before evs upstreamResp _ _ _ _ Hb
                 | before evs upstreamResp Hmiss Hup _ _ Hb final out'].
  - apply in_app_or in Hin as [Hin | [Hin | []]]; [|discriminate].
    apply put_scheduled in Hin. congruence.
  - apply put_scheduled in Hin. congruence.
  - apply put_scheduled in Hin. congruence.
  - apply in_app_or in Hin as [Hin | Hin].
    { apply put_scheduled in Hin. congruence. }
    destruct (String.eqb (method request) "GET") eqn:Eg; [|destruct Hin].
    destruct (status upstreamResp =? 200) eqn:Es; [|destruct Hin].
    destruct (header_truthy "range" (request_headers request)) eqn:Er;
      [destruct Hin|].
    destruct Hin as [[= <- _] | []].
    apply String.eqb_eq in Eg. apply Nat.eqb_eq in Es.
    repeat split; auto. now exists evs, upstreamResp.
Qed.

End HandlerCases.

(** C1, as stated, fails: for a path without segments the path check
    answers first, whatever the method.  An OPTIONS request and a DELETE
    request to the bare slash both get the 400. *)
Lemma C1_counterexample_bare_slash_is_400 :
  fetch world_offline
    {| method := "OPTIONS"; url := "https://proxy.example/";
       request_headers := [] |} =
    Some ([], Return invalid_path_response) /\
  fetch world_offline
    {| method := "DELETE"; url := "https://proxy.example/";
       request_headers := [] |} =
    Some ([], Return invalid_path_response) /\
  status invalid_path_response = 400.
Proof. repeat apply conj; reflexivity. Qed.

(** C1, amended.  The path is resolved before the method is looked at.
    For a request whose path has a non-empty segment: an OPTIONS request
    gets the 204 preflight response, with the CORS headers and no body,
    and nothing else happens (no cache lookup, no upstream call); a
    request whose method is none of GET, HEAD, OPTIONS gets the 405, and
    nothing else happens.  For a request whose path has no non-empty
    segment the answer is the 400 for every method. *)
Theorem C1_method_validation_after_path_resolution :
  (forall w request,
      path_parts (URL.pathname (URL.new (url request))) <> [] ->
      method request = "OPTIONS" ->
      fetch w request = Some ([], Return preflight_response)) /\
  (forall w request,
      path_parts (URL.pathname (URL.new (url request))) <> [] ->
      method request <> "GET" ->
      method request <> "HEAD" ->
      method request <> "OPTIONS" ->
      fetch w request = Some ([], Return method_not_allowed_response)) /\
  (forall w request,
      path_parts (URL.pathname (URL.new (url request))) = [] ->
      fetch w request = Some ([], Return invalid_path_response)) /\
  (status preflight_response = 204 /\
   body preflight_response = None /\
   Headers.get "Access-Control-Allow-Origin" (headers preflight_response) =
     Some "*" /\
   Headers.get "Access-Control-Allow-Methods" (headers preflight_response) =
     Some "GET,HEAD,OPTIONS" /\
   Headers.get "Access-Control-Allow-Headers" (headers preflight_response) =
     Some "*" /\
   Headers.get "Access-Control-Max-Age" (headers preflight_response) =
     Some "86400") /\
  status method_not_allowed_response = 405 /\
  status invalid_path_response = 400.
Proof.
  assert (Hres : forall pathname,
            path_parts pathname <> [] ->
            exists info, parseGitHubPath pathname = Some info).
  { intros pathname H. unfold parseGitHubPath.
    destruct (path_parts pathname); [congruence | now eexists]. }
  repeat apply conj; try reflexivity.
  - intros w request Hp Hm. destruct (Hres _ Hp) as [info Hi].
    unfold fetch. now rewrite Hi, Hm.
  - intros w request Hp Hg Hh Ho. destruct (Hres _ Hp) as [info Hi].
    unfold fetch. rewrite Hi.
    apply String.eqb_neq in Hg, Hh, Ho. now rewrite Hg, Hh, Ho.
  - intros w request Hp. apply PathFacts.fetch_invalid_path.
    unfold parseGitHubPath. now rewrite Hp.
Qed.

Lemma C1_method_validation_witness :
  fetch world_offline
    {| method := "OPTIONS"; url := "https://proxy.example/user/repo";
       request_headers := [] |} =
    Some ([], Return preflight_response) /\
  fetch world_offline
    {| method := "POST"; url := "https://proxy.example/user/repo";
       request_headers := [] |} =
    Some ([], Return method_not_allowed_response) /\
  fetch world_offline
    {| method := "OPTIONS"; url := "https://proxy.example//";
       request_headers := [] |} =
    Some ([], Return invalid_path_response).
Proof.
  destruct C1_method_validation_after_path_resolution
    as (Hopt & H405 & H400 & _).
  split; [|split].
  - apply Hopt; [discriminate | reflexivity].
  - apply H405; discriminate.
  - apply H400. reflexivity.
Defined.




(** C3, as stated, fails for the empty version string: it differs from the
    date stamp, yet it is falsy, so the key is the date-derived one. *)
Lemma C3_counterexample_empty_version :
  "" <> getCacheVersion a_day /\
  getOptimalCacheKey a_day "https://proxy.example/user/repo/file" "gzip"
    (Some "") =
  getOptimalCacheKey a_day "https://proxy.example/user/repo/file" "gzip"
    None.
Proof. split; [discriminate | reflexivity]. Qed.

(** C3, amended.  For every URL and Accept-Encoding value, a version that
    is not empty and differs from the date stamp of the day gives a key
    that differs from the one built without a version on that day.  A key
    the handler writes under is the lookup key or, for a policy with
    useETag, the key built from a non-empty normalised ETag.  And when the
    handler writes under the key built from an ETag that differs from the
    date stamp of the day, that key is not the lookup key, and the cache
    with the new entry still has nothing under the lookup key: the lookup
    of an identical request on the same day does not find the entry. *)
Theorem C3_etag_key_is_not_the_lookup_key :
  (forall now u e v,
      v <> "" -> v <> getCacheVersion now ->
      getOptimalCacheKey now u e (Some v) <>
      getOptimalCacheKey now u e None) /\
  (forall w request info effs c key out,
      parseGitHubPath (URL.pathname (URL.new (url request))) = Some info ->
      fetch w request = Some (effs, c) ->
      In (CachePut key out) effs ->
      key = lookup_key w request \/
      (useETag (getCacheStrategy (path info)) = true /\
       exists etag, etag <> "" /\
         key = getOptimalCacheKey (date_at_assembly w) (url request)
                 (accept_encoding_of request) (Some etag))) /\
  (forall w request info effs c key out etag,
      parseGitHubPath (URL.pathname (URL.new (url request))) = Some info ->
      fetch w request = Some (effs, c) ->
      In (CachePut key out) effs ->
      key = getOptimalCacheKey (date_at_assembly w) (url request)
              (accept_encoding_of request) (Some etag) ->
      etag <> "" ->
      etag <> getCacheVersion (date_at_lookup w) ->
      key <> lookup_key w request /\
      cache_put key out (cache_match w) (lookup_key w request) = None).
Proof.
  assert (Hdiff : forall now1 now2 u e v,
            v <> "" -> v <> getCacheVersion now2 ->
            getOptimalCacheKey now1 u e (Some v) <>
            getOptimalCacheKey now2 u e None).
  { intros now1 now2 u e v Hne Hd.
    apply CacheKeyFacts.key_version_differs.
    now rewrite CacheKeyFacts.effective_version_given. }
  repeat apply conj.
  - intros now u e v. apply Hdiff.
  - intros w request info effs c key out Hp Hrun Hin.
    destruct (@HandlerCases.put_inv w request info effs c key out
                Hp Hrun Hin)
      as (_ & _ & _ & evs & r & _ & _ & ->).
    unfold final_key_and_version.
    destruct (useETag (getCacheStrategy (path info))); [|now left].
    destruct (extractETag r) as [etag|]; [|now left].
    destruct (JS.truthy etag) eqn:E; [|now left].
    right. split; [reflexivity|]. exists etag.
    split; [now apply StringFacts.truthy_true | reflexivity].
  - intros w request info effs c key out etag Hp Hrun Hin -> Hne Hd.
    assert (Hk : getOptimalCacheKey (date_at_assembly w) (url request)
                   (accept_encoding_of request) (Some etag) <>
                 lookup_key w request) by now apply Hdiff.
    split; [exact Hk|].
    destruct (@HandlerCases.put_inv w request info effs c _ out
                Hp Hrun Hin) as (_ & _ & Hc & _).
    unfold cache_put.
    destruct (String.eqb_spec (lookup_key w request)
                (getOptimalCacheKey (date_at_assembly w) (url request)
                   (accept_encoding_of request) (Some etag)));
      [congruence | exact Hc].
Qed.

Lemma C3_etag_key_witness :
  getOptimalCacheKey a_day "https://proxy.example/user/repo/file.bin" "gzip"
    (Some "0815") <>
  getOptimalCacheKey a_day "https://proxy.example/user/repo/file.bin" "gzip"
    None /\
  forall out,
    In (CachePut
          "https://proxy.example/user/repo/file.bin?__v=0815&__enc=gzip" out)
       (run_effects (fetch world_upstream_etag get_file)) ->
    cache_put "https://proxy.example/user/repo/file.bin?__v=0815&__enc=gzip"
      out (cache_match world_upstream_etag)
      (lookup_key world_upstream_etag get_file) = None.
Proof.
  destruct C3_etag_key_is_not_the_lookup_key as (Hkey & _ & Hput).
  split.
  - apply Hkey; discriminate.
  - intros out Hin.
    destruct (fetch world_upstream_etag get_file) as [[effs c]|] eqn:E;
      [|destruct Hin].
    apply (Hput world_upstream_etag get_file
             {| host := "github.com"; path := "/user/repo/file.bin";
                fullUrl := "https://github.com/user/repo/file.bin" |}
             effs c _ out "0815" eq_refl E Hin eq_refl);
      discriminate.
Defined.

(* ================================================================== *)
(** * Further properties *)
(* ================================================================== *)

(** ** getCacheVersion: the stamp of a day *)

Module DateFacts.
Import StringFacts.

(** [String(n)] tells numbers apart. *)
Lemma of_N_inj (a b : N) : JS.of_N a = JS.of_N b -> a = b.
Proof.
  unfold JS.of_N. intros H.
  apply (f_equal NilEmpty.uint_of_string) in H.
  rewrite !NilEmpty.usu in H. injection H as H.
  rewrite <- (DecimalN.Unsigned.of_to a), <- (DecimalN.Unsigned.of_to b).
  now rewrite H.
Qed.

(** A check run on every number of a range holds of every number in it. *)
Lemma checked_in_range (P : N -> bool) (lo len : nat) (first beyond : N) :
  N.of_nat lo = first ->
  N.of_nat (lo + len) = beyond ->
  forallb P (map N.of_nat (seq lo len)) = true ->
  forall n : N, (first <= n)%N -> (n < beyond)%N -> P n = true.
Proof.
  intros <- <- H n Hlo Hhi. rewrite forallb_forall in H. apply H.
  apply in_map_iff. exists (N.to_nat n). split; [lia|].
  apply in_seq. lia.
Qed.

Lemma year_has_four_digits (y : N) :
  (1000 <= y <= 9999)%N -> String.length (JS.of_N y) = 4.
Proof.
  intros [Hlo Hhi]. apply Nat.eqb_eq.
  apply (@checked_in_range
           (fun y => String.length (JS.of_N y) =? 4)
           1000 9000 1000%N 10000%N);
    [vm_compute; reflexivity | vm_compute; reflexivity
    | vm_compute; reflexivity | lia | lia].
Qed.

Lemma padded_has_two_digits (n : N) :
  (n < 100)%N -> String.length (JS.padStart 2 "0" (JS.of_N n)) = 2.
Proof.
  intros H. apply Nat.eqb_eq.
  apply (@checked_in_range
           (fun n => String.length (JS.padStart 2 "0" (JS.of_N n)) =? 2)
           0 100 0%N 100%N);
    [reflexivity | reflexivity | vm_compute; reflexivity | lia | lia].
Qed.

(** Reading a padded number back. *)
Lemma padded_inj (a b : N) :
  (a < 100)%N -> (b < 100)%N ->
  JS.padStart 2 "0" (JS.of_N a) = JS.padStart 2 "0" (JS.of_N b) -> a = b.
Proof.
  intros Ha Hb H.
  pose (read := fun s => match NilEmpty.uint_of_string s with
                         | Some d => N.of_uint d
                         | None => 0%N
                         end).
  assert (Hread : forall n, (n < 100)%N ->
            read (JS.padStart 2 "0" (JS.of_N n)) = n).
  { intros n Hn. apply N.eqb_eq.
    apply (@checked_in_range
             (fun n => N.eqb (read (JS.padStart 2 "0" (JS.of_N n))) n)
             0 100 0%N 100%N);
      [reflexivity | reflexivity | vm_compute; reflexivity | lia | lia]. }
  rewrite <- (Hread a Ha), <- (Hread b Hb). now rewrite H.
Qed.

Lemma append_same_length (a a' b b' : string) :
  String.length a = String.length a' ->
  a ++ b = a' ++ b' -> a = a' /\ b = b'.
Proof.
  revert a'. induction a as [|c a IH]; intros [|c' a'] Hlen H;
    simpl in *; try discriminate.
  - now split.
  - injection H as -> H. injection Hlen as Hlen.
    destruct (IH a' Hlen H) as [-> ->]. now split.
Qed.

Lemma getCacheVersion_length (d : UTCDate) :
  calendar_date d -> String.length (getCacheVersion d) = 8.
Proof.
  intros (Hy & Hm & Hd). unfold getCacheVersion.
  rewrite !length_append, (year_has_four_digits Hy).
  rewrite !padded_has_two_digits by lia. reflexivity.
Qed.

Lemma getCacheVersion_inj (d1 d2 : UTCDate) :
  calendar_date d1 -> calendar_date d2 ->
  getCacheVersion d1 = getCacheVersion d2 -> d1 = d2.
Proof.
  intros (Hy1 & Hm1 & Hd1) (Hy2 & Hm2 & Hd2) H.
  unfold getCacheVersion in H.
  apply append_same_length in H as [Hy H];
    [|now rewrite !year_has_four_digits].
  apply append_same_length in H as [Hm Hd];
    [|rewrite !padded_has_two_digits by lia; reflexivity].
  apply of_N_inj in Hy. apply padded_inj in Hm; [|lia|lia].
  apply padded_inj in Hd; [|lia|lia].
  destruct d1, d2. simpl in *. f_equal; lia.
Qed.

End DateFacts.

(** X1.  For a date of the years 1000 to 9999 the stamp has eight
    characters, and two such dates with the same stamp are the same day:
    the stamp names the UTC day. *)
Theorem X1_getCacheVersion_names_the_day (d1 d2 : UTCDate) :
  calendar_date d1 -> calendar_date d2 ->
  String.length (getCacheVersion d1) = 8 /\
  (getCacheVersion d1 = getCacheVersion d2 <-> d1 = d2).
Proof.
  intros H1 H2. split; [now apply DateFacts.getCacheVersion_length|].
  split; [now apply DateFacts.getCacheVersion_inj | now intros ->].
Qed.

Lemma calendar_date_a_day : calendar_date a_day.
Proof. unfold calendar_date, a_day. simpl. lia. Qed.

Lemma calendar_date_another_day : calendar_date another_day.
Proof. unfold calendar_date, another_day. simpl. lia. Qed.

Lemma X1_getCacheVersion_witness :
  String.length (getCacheVersion a_day) = 8 /\
  (getCacheVersion a_day = getCacheVersion another_day <->
   a_day = another_day).
Proof.
  exact (X1_getCacheVersion_names_the_day
           calendar_date_a_day calendar_date_another_day).
Defined.

(** X2.  The key built without a version changes with the day: for the
    same URL and Accept-Encoding, two different days give two different
    keys, so an entry stored under the stamp of one day is not looked up
    on any other day. *)
Theorem X2_date_key_changes_daily (d1 d2 : UTCDate) (u e : string) :
  calendar_date d1 -> calendar_date d2 -> d1 <> d2 ->
  getOptimalCacheKey d1 u e None <> getOptimalCacheKey d2 u e None.
Proof.
  intros H1 H2 Hne. apply CacheKeyFacts.key_version_differs.
  unfold effective_version, JS.or_else. intros H. apply Hne.
  now apply DateFacts.getCacheVersion_inj.
Qed.

Lemma X2_date_key_witness :
  getOptimalCacheKey a_day "https://proxy.example/a/b" "gzip" None <>
  getOptimalCacheKey another_day "https://proxy.example/a/b" "gzip" None.
Proof.
  apply (@X2_date_key_changes_daily a_day another_day _ _
           calendar_date_a_day calendar_date_another_day).
  discriminate.
Defined.

(** ** shouldCompress *)

(** X3.  shouldCompress is false without a content type and for the empty
    one; it is true exactly when the content type has one of the six
    listed types as a substring; so whatever is written before or after a
    compressible content type (a charset parameter, say) leaves it
    compressible. *)
Theorem X3_shouldCompress_by_substring :
  shouldCompress None = false /\
  shouldCompress (Some "") = false /\
  (forall ct,
      shouldCompress (Some ct) = true <->
      exists type, In type compressibleTypes /\ contains type ct) /\
  (forall ct before after,
      shouldCompress (Some ct) = true ->
      shouldCompress (Some (before ++ ct ++ after)) = true).
Proof.
  assert (Hiff : forall ct,
            shouldCompress (Some ct) = true <->
            exists type, In type compressibleTypes /\ contains type ct).
  { intros ct. unfold shouldCompress. split.
    - destruct (JS.truthy ct); cbn [negb]; [|discriminate].
      intros H. apply existsb_exists in H as (type & Hin & H).
      exists type. split; [exact Hin|]. now apply StringFacts.includes_spec.
    - intros (type & Hin & Hc).
      assert (Ht : JS.truthy ct = true).
      { apply StringFacts.truthy_true. intros ->.
        destruct Hc as (a & b & Hc). symmetry in Hc.
        destruct a; simpl in Hc; [|discriminate].
        destruct type; simpl in Hc; [|discriminate].
        simpl in Hin. decompose [or] Hin; discriminate || contradiction. }
      rewrite Ht. cbn [negb]. apply existsb_exists. exists type.
      split; [exact Hin|]. now apply StringFacts.includes_spec. }
  repeat apply conj; try reflexivity; [exact Hiff|].
  intros ct before after H. apply Hiff in H as (type & Hin & a & b & ->).
  apply Hiff. exists type. split; [exact Hin|].
  exists (before ++ a), (b ++ after).
  now rewrite !StringFacts.append_assoc.
Qed.

Lemma X3_shouldCompress_witness :
  shouldCompress (Some ("" ++ "application/json" ++ "; charset=utf-8")) =
    true.
Proof.
  destruct X3_shouldCompress_by_substring as (_ & _ & _ & H).
  apply H. reflexivity.
Defined.

(** ** parseGitHubPath *)

Module SegmentFacts.
Import StringFacts.

(** No piece of a split contains the separator. *)
Lemma split_pieces (sep : ascii) (s : string) :
  Forall (fun piece => JS.has_char sep piece = false) (JS.split sep s).
Proof.
  induction s as [|c s IH]; simpl; [now repeat constructor|].
  destruct (Ascii.eqb c sep) eqn:E.
  - constructor; [reflexivity | exact IH].
  - destruct (JS.split sep s) as [|x xs].
    + constructor; [|constructor]. simpl. now rewrite E.
    + inversion IH as [|? ? Hx Hxs]; subst.
      constructor; [|exact Hxs]. simpl. now rewrite E, Hx.
Qed.

(** The segments of a path are not empty and contain no slash. *)
Lemma path_parts_segments (pathname : string) :
  Forall (fun seg => JS.truthy seg = true /\ JS.has_char "/" seg = false)
    (path_parts pathname).
Proof.
  unfold path_parts. apply Forall_forall. intros seg Hin.
  apply filter_In in Hin as [Hin Ht]. split; [exact Ht|].
  pose proof (split_pieces "/" pathname) as H.
  rewrite Forall_forall in H. now apply H.
Qed.

Lemma filter_truthy_all (l : list string) :
  Forall (fun seg => JS.truthy seg = true) l -> filter JS.truthy l = l.
Proof.
  induction 1 as [|x l Hx Hl IH]; [reflexivity|].
  simpl. now rewrite Hx, IH.
Qed.

(** The segments of a path written from segments are these segments. *)
Lemma path_parts_join (l : list string) :
  Forall (fun seg => JS.truthy seg = true /\ JS.has_char "/" seg = false) l ->
  path_parts ("/" ++ JS.join "/" l) = l.
Proof.
  intros H. unfold path_parts.
  change ("/" ++ JS.join "/" l) with ("" ++ String "/" (JS.join "/" l)).
  rewrite split_found by reflexivity.
  cbn [filter JS.truthy].
  destruct l as [|x l]; [reflexivity|].
  rewrite split_join.
  - apply filter_truthy_all. eapply Forall_impl; [|exact H]. now intros ? [].
  - discriminate.
  - eapply Forall_impl; [|exact H]. now intros ? [].
Qed.

(** The pathname of a parsed URL is empty or starts with a slash. *)
Lemma pathname_shape (s : string) :
  URL.pathname (URL.new s) = "" \/
  exists rest, URL.pathname (URL.new s) = "/" ++ rest.
Proof.
  unfold URL.new.
  destruct (JS.cut "#" s) as [bh frag].
  destruct (JS.cut "?" bh) as [bq q].
  unfold URL.split_origin.
  destruct (JS.cut ":" bq) as [scheme [rest|]]; [|now left].
  destruct (String.prefix "//" rest); [|now left].
  destruct (JS.cut "/" (JS.drop 2 rest)) as [auth [p|]]; simpl.
  - right. now exists p.
  - right. now exists "".
Qed.

End SegmentFacts.

(** X4.  Whatever the path, the host parseGitHubPath resolves to is one of
    the four hosts of GITHUB_HOSTS; and when the path starts with a slash,
    so does the resolved path, so that the upstream URL is https://, an
    allow-listed host, a slash and the rest. *)
Theorem X4_parseGitHubPath_host_is_allow_listed
    (pathname : string) (info : GitHubInfo) :
  parseGitHubPath pathname = Some info ->
  In (host info) GITHUB_HOSTS /\
  ((exists rest, pathname = "/" ++ rest) ->
   exists rest, path info = "/" ++ rest /\
                fullUrl info = "https://" ++ host info ++ "/" ++ rest).
Proof.
  unfold parseGitHubPath.
  destruct (path_parts pathname) as [|first others]; [discriminate|].
  destruct (is_github_host first) eqn:E; intros [= <-]; simpl.
  - apply PathFacts.is_github_host_In in E. split; [exact E|].
    intros _. now exists (JS.join "/" others).
  - split; [simpl; tauto|].
    intros [rest ->]. now exists rest.
Qed.

Lemma X4_parseGitHubPath_witness :
  In "gist.github.com" GITHUB_HOSTS /\
  ((exists rest, "/gist.github.com/user/abc" = "/" ++ rest) ->
   exists rest,
     "/user/abc" = "/" ++ rest /\
     "https://gist.github.com/user/abc" =
       "https://" ++ "gist.github.com" ++ "/" ++ rest).
Proof.
  exact (@X4_parseGitHubPath_host_is_allow_listed
           "/gist.github.com/user/abc"
           {| host := "gist.github.com"; path := "/user/abc";
              fullUrl := "https://gist.github.com/user/abc" |} eq_refl).
Defined.

(** X5.  When the first segment is a recognised host, the resolved path is
    the path of the remaining segments in normal form: its segments are
    exactly the segments after the host, whatever empty segments (doubled
    or trailing slashes) the input had.  Otherwise the path is the input
    and its segments are the input's. *)
Theorem X5_parseGitHubPath_keeps_the_segments
    (pathname : string) (info : GitHubInfo) (first : string)
    (others : list string) :
  parseGitHubPath pathname = Some info ->
  path_parts pathname = first :: others ->
  (In first GITHUB_HOSTS -> path_parts (path info) = others) /\
  (~ In first GITHUB_HOSTS -> path_parts (path info) = first :: others).
Proof.
  intros Hp Hparts. unfold parseGitHubPath in Hp. rewrite Hparts in Hp.
  pose proof (SegmentFacts.path_parts_segments pathname) as Hseg.
  rewrite Hparts in Hseg. inversion Hseg as [|? ? _ Hothers]; subst.
  destruct (is_github_host first) eqn:E; injection Hp as <-; simpl.
  - split; [|intros Hn; apply PathFacts.is_github_host_In in E; tauto].
    intros _. now apply SegmentFacts.path_parts_join.
  - split; [|intros _; exact Hparts].
    intros Hin. apply PathFacts.is_github_host_In in Hin. congruence.
Qed.

Lemma X5_parseGitHubPath_witness :
  path_parts "/user/repo/file" = ["user"; "repo"; "file"].
Proof.
  apply (@X5_parseGitHubPath_keeps_the_segments
           "//github.com//user/repo//file/"
           {| host := "github.com"; path := "/user/repo/file";
              fullUrl := "https://github.com/user/repo/file" |}
           "github.com" ["user"; "repo"; "file"] eq_refl eq_refl).
  simpl. tauto.
Defined.

(** ** extractETag *)

Module ETagMoreFacts.

Lemma remove_char_clean (c : ascii) (s : string) :
  JS.has_char c (JS.remove_char c s) = false.
Proof.
  induction s as [|d s IH]; [reflexivity|].
  simpl. destruct (Ascii.eqb d c) eqn:E; [exact IH|].
  simpl. now rewrite E, IH.
Qed.

Lemma substring0_clean (c : ascii) (n : nat) (s : string) :
  JS.has_char c s = false -> JS.has_char c (JS.substring0 n s) = false.
Proof.
  unfold JS.substring0. revert s.
  induction n as [|n IH]; intros [|d s]; simpl; intros H;
    try reflexivity.
  apply orb_false_iff in H as [Hd Hs]. now rewrite Hd, IH.
Qed.

End ETagMoreFacts.

(** X6.  Whatever the ETag header, the normalised tag contains no double
    quote; and the result is null exactly when the header is absent or
    empty. *)
Theorem X6_extractETag_result_has_no_quote (r : Response) :
  (forall e, extractETag r = Some e -> JS.has_char dquote e = false) /\
  (extractETag r = None <->
   Headers.get "etag" (headers r) = None \/
   Headers.get "etag" (headers r) = Some "").
Proof.
  unfold extractETag.
  destruct (Headers.get "etag" (headers r)) as [etag|]; split.
  - destruct (JS.truthy etag); [|discriminate]. intros e [= <-].
    apply ETagMoreFacts.substring0_clean.
    apply ETagMoreFacts.remove_char_clean.
  - destruct etag as [|c etag]; simpl; split; try tauto; try discriminate.
    intros [H|H]; discriminate.
  - discriminate.
  - tauto.
Qed.

(** ** getCacheStrategy *)

(** X7.  Whatever the path, the policy lets the browser cache no longer
    than the edge and the edge no longer than EDGE_CACHE_SECONDS, and it
    asks for ETag validation exactly when it is not the versioned policy,
    which is the only one to keep entries for the full
    EDGE_CACHE_SECONDS. *)
Theorem X7_getCacheStrategy_ttl_bounds (pathname : string) :
  (browserTTL (getCacheStrategy pathname)
     <= edgeTTL (getCacheStrategy pathname))%N /\
  (edgeTTL (getCacheStrategy pathname) <= EDGE_CACHE_SECONDS)%N /\
  (useETag (getCacheStrategy pathname) = false <->
   description (getCacheStrategy pathname) = "versioned") /\
  (edgeTTL (getCacheStrategy pathname) = EDGE_CACHE_SECONDS <->
   description (getCacheStrategy pathname) = "versioned").
Proof.
  unfold getCacheStrategy.
  destruct (is_dynamic_path pathname); [|destruct (is_versioned_path pathname)];
    simpl; unfold EDGE_CACHE_SECONDS;
    repeat apply conj; try lia;
    intros H; first [reflexivity | discriminate H].
Qed.

(** ** Headers: what [set] does to [get] *)

Module HeadersFacts.

(** A name that was [set] has the value, normalized. *)
Lemma get_set_same (name name' value : string) (h : Headers.t) :
  JS.toLowerCase name' = JS.toLowerCase name ->
  Headers.get name' (Headers.set name value h) =
  Some (Headers.normalize value).
Proof.
  intros E. unfold Headers.set. generalize (Headers.normalize value) as x.
  intros x. induction h as [|[k v] h IH]; simpl.
  - now rewrite E, String.eqb_refl.
  - destruct (String.eqb k (JS.toLowerCase name)) eqn:Ek; simpl.
    + now rewrite E, Ek.
    + rewrite E, Ek. exact IH.
Qed.

Lemma get_set_other (name name' value : string) (h : Headers.t) :
  JS.toLowerCase name' <> JS.toLowerCase name ->
  Headers.get name' (Headers.set name value h) = Headers.get name' h.
Proof.
  intros Hne. unfold Headers.set. generalize (Headers.normalize value) as x.
  intros x. induction h as [|[k v] h IH]; simpl.
  - destruct (String.eqb_spec (JS.toLowerCase name) (JS.toLowerCase name'));
      [congruence | reflexivity].
  - destruct (String.eqb_spec k (JS.toLowerCase name)) as [->|Hk]; simpl.
    + destruct (String.eqb_spec (JS.toLowerCase name) (JS.toLowerCase name'));
        [congruence | reflexivity].
    + now rewrite IH.
Qed.

(** [get] looks at the name in lower case only. *)
Lemma get_by_lowercase (name name' : string) (h : Headers.t) :
  JS.toLowerCase name' = JS.toLowerCase name ->
  Headers.get name' h = Headers.get name h.
Proof.
  intros E. induction h as [|[k v] h IH]; simpl; [reflexivity|].
  now rewrite E, IH.
Qed.

(** *** Values that [normalize] leaves as they are *)

(** Text that ends in a character other than HTTP whitespace. *)
Lemma strip_trailing_app (a b : string) :
  Headers.strip_trailing b <> "" ->
  Headers.strip_trailing (a ++ b) = a ++ Headers.strip_trailing b.
Proof.
  intros Hb. induction a as [|c a IH]; [reflexivity|].
  simpl. rewrite IH.
  destruct (a ++ Headers.strip_trailing b) eqn:E; [|reflexivity].
  destruct a; simpl in E; [contradiction | discriminate].
Qed.

Lemma strip_trailing_kept (a b : string) :
  b <> "" -> Headers.strip_trailing b = b ->
  Headers.strip_trailing (a ++ b) = a ++ b.
Proof.
  intros Hne Hb. rewrite strip_trailing_app; now rewrite Hb.
Qed.

(** Text without HTTP whitespace. *)
Lemma strip_leading_kept (a : string) (c : ascii) (b : string) :
  (forall d, JS.has_char d a = true -> Headers.is_http_whitespace d = false) ->
  Headers.is_http_whitespace c = false ->
  Headers.strip_leading (a ++ String c b) = a ++ String c b.
Proof.
  intros Ha Hc. destruct a as [|d a]; simpl.
  - now rewrite Hc.
  - rewrite (Ha d); [reflexivity|]. simpl. now rewrite Ascii.eqb_refl.
Qed.

Lemma strip_trailing_prefix (a b : string) :
  b <> "" /\ Headers.strip_trailing b = b ->
  a ++ b <> "" /\ Headers.strip_trailing (a ++ b) = a ++ b.
Proof.
  intros [Hne Hb]. split; [|now apply strip_trailing_kept].
  destruct a; [exact Hne | discriminate].
Qed.

Lemma strip_leading_length (s : string) :
  String.length (Headers.strip_leading s) <= String.length s /\
  (String.length (Headers.strip_leading s) = String.length s ->
   Headers.strip_leading s = s).
Proof.
  induction s as [|c s [IH1 IH2]]; simpl; [now split|].
  destruct (Headers.is_http_whitespace c); simpl; split; try lia; auto.
Qed.

Lemma strip_trailing_length (s : string) :
  String.length (Headers.strip_trailing s) <= String.length s.
Proof.
  induction s as [|c s IH]; simpl; [lia|].
  destruct (Headers.strip_trailing s); simpl in *.
  - destruct (Headers.is_http_whitespace c); simpl; lia.
  - lia.
Qed.

(** A normalized value has no whitespace at either end. *)
Lemma normalize_fixed (v : string) :
  Headers.normalize v = v ->
  Headers.strip_leading v = v /\ Headers.strip_trailing v = v.
Proof.
  unfold Headers.normalize. intros H.
  destruct (strip_leading_length v) as [H1 H2].
  pose proof (strip_trailing_length (Headers.strip_leading v)) as H3.
  assert (Hl : Headers.strip_leading v = v).
  { apply H2. apply (f_equal String.length) in H. lia. }
  split; [exact Hl|]. now rewrite Hl in H.
Qed.

(** The digits of a number are no whitespace. *)
Lemma of_N_no_whitespace (n : N) (d : ascii) :
  JS.has_char d (JS.of_N n) = true -> Headers.is_http_whitespace d = false.
Proof.
  unfold JS.of_N. generalize (N.to_uint n) as u.
  induction u as [|u IH|u IH|u IH|u IH|u IH|u IH|u IH|u IH|u IH|u IH];
    cbn [NilEmpty.string_of_uint JS.has_char]; [discriminate|..];
    (intros H; apply orb_true_iff in H as [H|H];
     [apply Ascii.eqb_eq in H; subst d; reflexivity | now apply IH]).
Qed.

(** The values the handler builds from numbers are normalized as they
    are. *)
Lemma normalize_cache_control (strategy : CacheStrategy) :
  Headers.normalize (cache_control_of strategy) = cache_control_of strategy.
Proof.
  unfold Headers.normalize, cache_control_of.
  change (Headers.strip_leading ("public, max-age=" ++ ?x))
    with ("public, max-age=" ++ x).
  repeat apply strip_trailing_prefix.
  split; [discriminate | reflexivity].
Qed.

Lemma normalize_response_time (n : N) :
  Headers.normalize (JS.of_N n ++ "ms") = JS.of_N n ++ "ms".
Proof.
  unfold Headers.normalize.
  rewrite strip_leading_kept;
    [|apply of_N_no_whitespace | reflexivity].
  apply strip_trailing_kept; [discriminate | reflexivity].
Qed.

(** The three labels of getCacheStrategy too. *)
Lemma normalize_description (pathname : string) :
  Headers.normalize (description (getCacheStrategy pathname)) =
  description (getCacheStrategy pathname).
Proof.
  unfold getCacheStrategy.
  destruct (is_dynamic_path pathname); [reflexivity|].
  destruct (is_versioned_path pathname); reflexivity.
Qed.

(** Accept-Encoding, a comma, a space and a value. *)
Lemma normalize_vary (v : string) :
  Headers.normalize ("Accept-Encoding, " ++ v) =
  match Headers.strip_trailing v with
  | "" => "Accept-Encoding,"
  | kept => "Accept-Encoding, " ++ kept
  end.
Proof.
  unfold Headers.normalize.
  change (Headers.strip_leading ("Accept-Encoding, " ++ v))
    with ("Accept-Encoding, " ++ v).
  destruct (Headers.strip_trailing v) as [|c kept] eqn:E.
  - change ("Accept-Encoding, " ++ v)
      with ("Accept-Encoding" ++ String "," (String " " v)).
    assert (Hb : Headers.strip_trailing (String "," (String " " v)) = ",")
      by (simpl; now rewrite E).
    rewrite strip_trailing_app; rewrite Hb; [reflexivity | discriminate].
  - rewrite strip_trailing_app; rewrite E; [reflexivity | discriminate].
Qed.

End HeadersFacts.

(** A header the handler has set is read back, whatever was set after. *)
Ltac read_header :=
  repeat first
    [ rewrite HeadersFacts.get_set_same by reflexivity
    | rewrite HeadersFacts.get_set_other by (vm_compute; discriminate) ].

(** ** The response built from the upstream one *)

(** X8.  Whatever headers the upstream response carries, the response the
    handler builds from it, which it does when new Response accepts the
    status, has the handler's values for Cache-Control, the
    CORS headers, the five X- diagnostic headers, the two security headers
    and the two connection headers (an upstream header of the same name is
    overwritten), and it has the status, status text and body of the
    upstream response.  The three values that come from outside (the
    version, the label of the strategy, the upstream URL) are there as
    Headers.set stores a value, without leading and trailing HTTP
    whitespace: a version that starts with a space, as the tag of an ETag
    header with a space after its opening quote does, is in
    X-Mirror-Version without the space. *)
Theorem X8_miss_response_headers_are_the_handlers
    (w : World) (strategy : CacheStrategy) (cacheVersion upstreamUrl : string)
    (upstreamResp : Response) :
  valid_init_status (status upstreamResp) = true ->
  let out :=
    miss_response w strategy cacheVersion upstreamUrl upstreamResp in
  Headers.get "Cache-Control" (headers out) =
    Some (cache_control_of strategy) /\
  Headers.get "Access-Control-Allow-Origin" (headers out) = Some "*" /\
  Headers.get "Access-Control-Expose-Headers" (headers out) = Some "*" /\
  Headers.get "X-Mirror-Version" (headers out) =
    Some (Headers.normalize cacheVersion) /\
  Headers.get "X-Cache-Strategy" (headers out) =
    Some (Headers.normalize (description strategy)) /\
  Headers.get "X-GitHub-Target" (headers out) =
    Some (Headers.normalize upstreamUrl) /\
  Headers.get "X-Cache-Status" (headers out) = Some "MISS" /\
  Headers.get "X-Response-Time" (headers out) =
    Some (JS.of_N (elapsed_ms w) ++ "ms") /\
  Headers.get "X-Content-Type-Options" (headers out) = Some "nosniff" /\
  Headers.get "X-Frame-Options" (headers out) = Some "SAMEORIGIN" /\
  Headers.get "Connection" (headers out) = Some "keep-alive" /\
  Headers.get "Keep-Alive" (headers out) = Some "timeout=60, max=1000" /\
  status out = status upstreamResp /\
  statusText out = statusText upstreamResp /\
  body out = body upstreamResp.
Proof.
  intros _. unfold miss_response. fold (cache_control_of strategy).
  cbv zeta. cbn [headers status statusText body].
  repeat apply conj; try reflexivity; read_header; try reflexivity.
  - now rewrite HeadersFacts.normalize_cache_control.
  - now rewrite HeadersFacts.normalize_response_time.
Qed.

Lemma X8_miss_response_witness :
  Headers.get "X-Mirror-Version"
    (headers
       (miss_response world_upstream_spaced_etag default_strategy " abc"
          "https://github.com/user/repo/file.bin"
          (response_with_etag spaced_etag))) =
  Some "abc".
Proof.
  refine (proj1 (proj2 (proj2 (proj2
    (@X8_miss_response_headers_are_the_handlers
       world_upstream_spaced_etag default_strategy " abc"
       "https://github.com/user/repo/file.bin"
       (response_with_etag spaced_etag) _))))).
  reflexivity.
Defined.

(** X9.  The headers of the upstream response survive: every header whose
    name is not one of those the handler sets reaches the client with the
    value upstream gave it, in the response that is built when new
    Response accepts the status.  The Vary of the response is Accept-Encoding
    when upstream sent no Vary; when it sent one, it is Accept-Encoding,
    a comma, a space and the upstream value, normalized: so
    Accept-Encoding and a comma for an upstream Vary with the empty
    value, and Accept-Encoding, a comma, a space and the value for any
    other value a Headers object can hold. *)
Theorem X9_miss_response_keeps_upstream_headers
    (w : World) (strategy : CacheStrategy) (cacheVersion upstreamUrl : string)
    (upstreamResp : Response) :
  valid_init_status (status upstreamResp) = true ->
  let out :=
    miss_response w strategy cacheVersion upstreamUrl upstreamResp in
  (forall name,
      ~ In (JS.toLowerCase name) assembled_header_names ->
      Headers.get name (headers out) =
      Headers.get name (headers upstreamResp)) /\
  Headers.get "Vary" (headers out) =
    Some (match Headers.get "Vary" (headers upstreamResp) with
          | Some v => Headers.normalize ("Accept-Encoding, " ++ v)
          | None => "Accept-Encoding"
          end) /\
  (Headers.get "Vary" (headers upstreamResp) = Some "" ->
   Headers.get "Vary" (headers out) = Some "Accept-Encoding,") /\
  (forall v,
      Headers.get "Vary" (headers upstreamResp) = Some v ->
      v <> "" -> Headers.normalize v = v ->
      Headers.get "Vary" (headers out) = Some ("Accept-Encoding, " ++ v)).
Proof.
  assert (Hvary :
    Headers.get "Vary"
      (headers (miss_response w strategy cacheVersion upstreamUrl
                  upstreamResp)) =
    Some (match Headers.get "Vary" (headers upstreamResp) with
          | Some v => Headers.normalize ("Accept-Encoding, " ++ v)
          | None => "Accept-Encoding"
          end)).
  { unfold miss_response. cbv zeta. cbn [headers]. read_header. f_equal.
    destruct (Headers.get "Vary" (headers upstreamResp)); reflexivity. }
  intros _. cbv zeta. repeat apply conj.
  - unfold miss_response. cbv zeta. cbn [headers]. intros name Hn.
    repeat (rewrite HeadersFacts.get_set_other;
            [|intros E; apply Hn; rewrite E; cbv; auto 20]).
    reflexivity.
  - exact Hvary.
  - intros E. rewrite Hvary, E. reflexivity.
  - intros v E Hne Hv. rewrite Hvary, E. f_equal.
    rewrite HeadersFacts.normalize_vary.
    destruct (HeadersFacts.normalize_fixed Hv) as [_ Ht]. rewrite Ht.
    destruct v; [contradiction | reflexivity].
Qed.

Lemma X9_miss_response_witness :
  Headers.get "ETag"
    (headers
       (miss_response world_offline default_strategy "0815"
          "https://github.com/user/repo/file"
          (response_with_etag "0815"))) =
  Headers.get "ETag" (headers (response_with_etag "0815")) /\
  Headers.get "Vary"
    (headers
       (miss_response world_offline default_strategy "0815"
          "https://github.com/user/repo/file" response_with_empty_vary)) =
  Some "Accept-Encoding,".
Proof.
  split.
  - destruct (@X9_miss_response_keeps_upstream_headers world_offline
                default_strategy "0815" "https://github.com/user/repo/file"
                (response_with_etag "0815") eq_refl) as [H _].
    apply H. cbv. intuition discriminate.
  - destruct (@X9_miss_response_keeps_upstream_headers world_offline
                default_strategy "0815" "https://github.com/user/repo/file"
                response_with_empty_vary eq_refl) as (_ & _ & H & _).
    apply H. reflexivity.
Defined.

(** ** The response returned on a cache hit *)

(** X10.  The response returned on a cache hit has the status and the body
    of the cached one, says HIT and names the strategy of the request,
    whatever the cached headers said, and has every other header of the
    cached response but X-Response-Time as it was stored.  The name of
    the strategy is there as Headers.set stores a value; for the
    strategy of any path, as the handler passes it, that is the label
    itself. *)
Theorem X10_hit_response_is_the_cached_one
    (w : World) (strategy : CacheStrategy) (hit : Response) :
  let out := hit_response w strategy hit in
  status out = status hit /\
  body out = body hit /\
  Headers.get "X-Cache-Status" (headers out) = Some "HIT" /\
  Headers.get "X-Cache-Strategy" (headers out) =
    Some (Headers.normalize (description strategy)) /\
  (forall pathname,
      strategy = getCacheStrategy pathname ->
      Headers.get "X-Cache-Strategy" (headers out) =
      Some (description strategy)) /\
  (forall name,
      ~ In (JS.toLowerCase name)
          ["x-cache-status"; "x-cache-strategy"; "x-response-time"] ->
      Headers.get name (headers out) = Headers.get name (headers hit)).
Proof.
  unfold hit_response. cbv zeta. cbn [headers status body].
  repeat apply conj; try reflexivity.
  - read_header. reflexivity.
  - read_header. reflexivity.
  - intros pathname ->. read_header.
    now rewrite HeadersFacts.normalize_description.
  - intros name Hn.
    repeat (rewrite HeadersFacts.get_set_other;
            [|intros E; apply Hn; rewrite E; cbv; auto 20]).
    reflexivity.
Qed.

Lemma X10_hit_response_witness :
  Headers.get "ETag"
    (headers (hit_response world_offline default_strategy
                (response_with_etag "0815"))) =
  Headers.get "ETag" (headers (response_with_etag "0815")).
Proof.
  destruct (X10_hit_response_is_the_cached_one world_offline
              default_strategy (response_with_etag "0815"))
    as (_ & _ & _ & _ & _ & H).
  apply H. cbv. intuition discriminate.
Defined.

(** ** The headers forwarded upstream *)

Module PassHeadersFacts.
Import HeadersFacts.

(** One round of the loop that fills [passHeaders]. *)
Lemma fill_step (request : Request) (name : string) :
  forall (names : list string) (acc : Headers.t),
    Forall (fun h => JS.toLowerCase h = h) names ->
    Headers.get name
      (fold_left
         (fun acc h =>
            match Headers.get h (request_headers request) with
            | Some v => if JS.truthy v then Headers.set h v acc else acc
            | None => acc
            end) names acc) =
    if existsb (String.eqb (JS.toLowerCase name)) names then
      match picked_header name request with
      | Some v => Some v
      | None => Headers.get name acc
      end
    else Headers.get name acc.
Proof.
  induction names as [|h names IH]; intros acc Hlow; [reflexivity|].
  inversion Hlow as [|? ? Hh Hrest]; subst.
  cbn [fold_left existsb]. rewrite (IH _ Hrest). clear IH.
  destruct (String.eqb_spec (JS.toLowerCase name) h) as [Heq|Hne].
  - assert (Hget : Headers.get h (request_headers request) =
                   Headers.get name (request_headers request)).
    { apply get_by_lowercase. now rewrite Hh. }
    cbn [orb]. unfold picked_header. rewrite Hget.
    destruct (Headers.get name (request_headers request)) as [v|].
    + destruct (JS.truthy v).
      * rewrite get_set_same by now rewrite Hh.
        now destruct (existsb _ names).
      * now destruct (existsb _ names).
    + now destruct (existsb _ names).
  - cbn [orb].
    assert (Hsame : forall v,
              Headers.get name (Headers.set h v acc) = Headers.get name acc).
    { intros v. apply get_set_other. now rewrite Hh. }
    destruct (Headers.get h (request_headers request)) as [v|];
      [destruct (JS.truthy v)|]; now rewrite ?Hsame.
Qed.

End PassHeadersFacts.

(** X11.  The headers sent upstream are the request's values of the seven
    headers of the list, each only if it is present and not empty, as
    Headers.set stores a value, and nothing else: a header of any other
    name (a cookie, an authorization) is never forwarded. *)
Theorem X11_passHeaders_forwards_the_allow_list_only
    (request : Request) (name : string) :
  (In (JS.toLowerCase name) forwarded_headers ->
   Headers.get name (passHeaders request) = picked_header name request) /\
  (~ In (JS.toLowerCase name) forwarded_headers ->
   Headers.get name (passHeaders request) = None).
Proof.
  unfold passHeaders.
  rewrite PassHeadersFacts.fill_step
    by (unfold forwarded_headers; repeat constructor).
  split; intros H.
  - assert (E : existsb (String.eqb (JS.toLowerCase name)) forwarded_headers
                = true).
    { apply existsb_exists. exists (JS.toLowerCase name).
      split; [exact H | apply String.eqb_refl]. }
    rewrite E. now destruct (picked_header name request).
  - assert (E : existsb (String.eqb (JS.toLowerCase name)) forwarded_headers
                = false).
    { apply not_true_is_false. intros E.
      apply existsb_exists in E as (h & Hin & Heq).
      apply String.eqb_eq in Heq. now subst. }
    now rewrite E.
Qed.

(** A GET that carries a cookie, a user agent and an empty Accept. *)
Lemma X11_passHeaders_witness :
  Headers.get "Cookie"
    (passHeaders
       {| method := "GET"; url := "https://proxy.example/user/repo/file";
          request_headers :=
            [("cookie", "session=1"); ("user-agent", "curl/8");
             ("accept", "")] |}) = None /\
  Headers.get "User-Agent"
    (passHeaders
       {| method := "GET"; url := "https://proxy.example/user/repo/file";
          request_headers :=
            [("cookie", "session=1"); ("user-agent", "curl/8");
             ("accept", "")] |}) = Some "curl/8".
Proof.
  split.
  - apply X11_passHeaders_forwards_the_allow_list_only.
    cbv. intuition discriminate.
  - rewrite (proj1 (X11_passHeaders_forwards_the_allow_list_only _ _));
      [reflexivity | cbv; auto 20].
Defined.

(** ** fetchWithRetry: where the loop stops *)

(** X12.  A call of fetchWithRetry ends at the first attempt whose outcome
    is not retryable (an ok or 4xx response) or at attempt number
    [retries], whichever comes first, with the outcome of that attempt and
    a delay before every attempt but the first.  So it throws only when
    the last allowed attempt itself is rejected: a rejection followed by a
    response gives the response. *)
Theorem X12_fetchWithRetry_stops_at_the_first_final_attempt
    (network : nat -> Outcome) (retries : nat) :
  (forall evs c,
      fetchWithRetry network retries = Some (evs, c) <->
      exists k,
        k <= retries /\
        (forall j, j < k -> retryable (network j) = true) /\
        (retryable (network k) = false \/ k = retries) /\
        evs = schedule 0 k /\
        c = completion_of (network k)) /\
  (forall evs error,
      fetchWithRetry network retries = Some (evs, Throw error) ->
      network retries = Rejected error /\ attempts evs = retries + 1).
Proof.
  assert (Hfwd : forall k,
            k <= retries ->
            (forall j, j < k -> retryable (network j) = true) ->
            retryable (network k) = false \/ k = retries ->
            fetchWithRetry network retries =
            Some (schedule 0 k, completion_of (network k))).
  { intros k Hk Hre Hstop. unfold fetchWithRetry.
    change (network k) with (network (0 + k)).
    apply RetryFacts.retry_loop_run; auto; lia. }
  assert (Hiff : forall evs c,
            fetchWithRetry network retries = Some (evs, c) <->
            exists k,
              k <= retries /\
              (forall j, j < k -> retryable (network j) = true) /\
              (retryable (network k) = false \/ k = retries) /\
              evs = schedule 0 k /\
              c = completion_of (network k)).
  { intros evs c. split.
    - intros H.
      destruct (RetryFacts.fetchWithRetry_stops network retries)
        as (k & Hk & Hre & Hstop & Hrun).
      rewrite Hrun in H. injection H as <- <-. now exists k.
    - intros (k & Hk & Hre & Hstop & -> & ->). now apply Hfwd. }
  split; [exact Hiff|].
  intros evs error H. apply Hiff in H as (k & Hk & Hre & Hstop & -> & Hc).
  assert (Hrej : network k = Rejected error).
  { destruct (network k); simpl in Hc; congruence. }
  destruct Hstop as [Hstop | ->].
  - rewrite Hrej in Hstop. discriminate.
  - split; [exact Hrej|]. rewrite RetryFacts.attempts_schedule. lia.
Qed.

(** Upstream is unreachable on the first attempt and answers 200 then. *)
Lemma X12_fetchWithRetry_witness :
  fetchWithRetry
    (fun i => if i =? 0 then Rejected "timeout"
              else Resolved (plain_response 200)) 2 =
  Some ([Attempt 0; Delay 500; Attempt 1], Return (plain_response 200)).
Proof.
  apply (proj1 (X12_fetchWithRetry_stops_at_the_first_final_attempt _ 2)).
  exists 1. split; [lia|].
  split; [intros j Hj; assert (j = 0) as -> by lia; reflexivity|].
  split; [now left|]. split; reflexivity.
Defined.

Module DelayFacts.

Lemma sum_of_delays (c k : nat) : forall a,
  2 * list_sum (map (fun n => c * n) (seq a k)) + c * k =
  c * k * (2 * a + k).
Proof.
  induction k as [|k IH]; intros a; [simpl; lia|].
  specialize (IH (S a)). unfold list_sum in *. cbn [seq map fold_right].
  remember (fold_right Nat.add 0 (map (fun n => c * n) (seq (S a) k)))
    as rest.
  clear Heqrest.
  replace (c * S k * (2 * a + S k))
    with (c * k * (2 * S a + k) + (2 * (c * a) + c)) by ring.
  replace (c * S k) with (c * k + c) by ring.
  lia.
Qed.

End DelayFacts.

(** X13.  The time a call spends waiting between attempts is
    RETRY_DELAY_MS * n * (n+1) / 2 for its n retries, so at most
    RETRY_DELAY_MS * retries * (retries+1) / 2: a second and a half for
    the two retries of MAX_RETRIES. *)
Theorem X13_fetchWithRetry_total_delay
    (network : nat -> Outcome) (retries : nat)
    (evs : list RetryEvent) (c : Completion Response) :
  fetchWithRetry network retries = Some (evs, c) ->
  2 * list_sum (delays evs) =
    RETRY_DELAY_MS * (attempts evs - 1) * attempts evs /\
  2 * list_sum (delays evs) <= RETRY_DELAY_MS * retries * (retries + 1) /\
  (retries = MAX_RETRIES -> list_sum (delays evs) <= 1500).
Proof.
  intros H.
  destruct (RetryFacts.fetchWithRetry_stops network retries)
    as (k & Hk & _ & _ & Hrun).
  rewrite Hrun in H. injection H as <- <-.
  rewrite RetryFacts.attempts_schedule, RetryFacts.delays_schedule.
  pose proof (DelayFacts.sum_of_delays RETRY_DELAY_MS k 1) as Hsum.
  change (0 + 1) with 1.
  assert (Hbound : RETRY_DELAY_MS * k * (k + 1) <=
                   RETRY_DELAY_MS * retries * (retries + 1)).
  { rewrite <- !Nat.mul_assoc. apply Nat.mul_le_mono_l. nia. }
  replace (S k - 1) with k by lia.
  repeat split; try nia.
  intros ->. unfold MAX_RETRIES, RETRY_DELAY_MS in *. nia.
Qed.

Lemma X13_fetchWithRetry_witness :
  list_sum
    (delays [Attempt 0; Delay 500; Attempt 1; Delay 1000; Attempt 2]) <=
  1500.
Proof.
  apply (@X13_fetchWithRetry_total_delay network_500_500_200 2 _
           (Return (plain_response 200)) eq_refl).
  reflexivity.
Defined.

(** ** getOptimalCacheKey: the key as a URL *)

Module KeyMoreFacts.
Import StringFacts URLSearchParamsFacts URLSearchParams.

Lemma filter_none (name : string) (l : t) :
  filter (has_name name) l = [] ->
  filter (fun p => negb (has_name name p)) l = l.
Proof.
  induction l as [|kv l IH]; [reflexivity|].
  simpl. destruct (has_name name kv); [discriminate|].
  intros H. simpl. now rewrite IH.
Qed.

(** Setting a name to the one value it has changes nothing. *)
Lemma set_pair_fixed (name value : string) (l : t) :
  getAll name l = [value] -> set_pair name value l = l.
Proof.
  unfold getAll, set_pair. induction l as [|kv l IH]; [discriminate|].
  simpl. destruct (has_name name kv) eqn:E; simpl.
  - intros [= Hv Hrest]. apply map_eq_nil in Hrest.
    rewrite (filter_none _ _ Hrest). destruct kv as [k v0].
    simpl in *. now subst.
  - intros H. specialize (IH H).
    destruct (existsb (has_name name) l) eqn:Ex.
    + now rewrite IH.
    + rewrite (filter_absent _ _ Ex) in H. discriminate.
Qed.

(** The same one level up, for a URL whose query is the serialisation of
    its list, as it is after a [set]. *)
Lemma searchParams_set_fixed (name value name0 value0 : string)
    (u0 : URL.t) :
  getAll (UTF8.encode name)
    (URL.searchParams (URL.searchParams_set name0 value0 u0)) =
    [UTF8.encode value] ->
  URL.searchParams_set name value (URL.searchParams_set name0 value0 u0) =
  URL.searchParams_set name0 value0 u0.
Proof.
  intros H. apply set_pair_fixed in H.
  fold (set name value
          (URL.searchParams (URL.searchParams_set name0 value0 u0))) in H.
  unfold URL.searchParams_set at 1. rewrite H. reflexivity.
Qed.

Lemma encoding_tag_br (e : string) :
  contains "br" e -> encoding_tag e = Some "br".
Proof.
  intros H. unfold encoding_tag.
  assert (Ht : JS.truthy e = true).
  { apply truthy_true. intros ->. destruct H as (a & b & H).
    destruct a; discriminate. }
  apply includes_spec in H. now rewrite Ht, H.
Qed.

Lemma encoding_tag_gzip (e : string) :
  ~ contains "br" e -> contains "gzip" e -> encoding_tag e = Some "gzip".
Proof.
  intros Hbr H. unfold encoding_tag.
  assert (Ht : JS.truthy e = true).
  { apply truthy_true. intros ->. destruct H as (a & b & H).
    destruct a; discriminate. }
  assert (Hn : JS.includes "br" e = false).
  { apply not_true_is_false. intros E. apply Hbr.
    now apply includes_spec. }
  apply includes_spec in H. now rewrite Ht, Hn, H.
Qed.

End KeyMoreFacts.

(** X14.  A key is a fixed point of the key builder: building the key of
    a key, with the same Accept-Encoding and version on the same day,
    gives that key again. *)
Theorem X14_getOptimalCacheKey_idempotent
    (now : UTCDate) (u e : string) (v : option string) :
  getOptimalCacheKey now (getOptimalCacheKey now u e v) e v =
  getOptimalCacheKey now u e v.
Proof.
  unfold getOptimalCacheKey at 1.
  rewrite CacheKeyFacts.getOptimalCacheUrl_eq, CacheKeyFacts.key_parses_back.
  cbv zeta.
  pose proof (CacheKeyFacts.cacheUrl_version now u e v) as Hv.
  pose proof (CacheKeyFacts.cacheUrl_encoding now u e v) as He.
  rewrite CacheKeyFacts.getOptimalCacheUrl_eq in Hv, He.
  unfold getOptimalCacheKey.
  rewrite CacheKeyFacts.getOptimalCacheUrl_eq. cbv zeta in *.
  destruct (encoding_tag e) as [tag|] eqn:Etag.
  - rewrite (@KeyMoreFacts.searchParams_set_fixed
               "__v" (effective_version now v) "__enc" tag _ Hv).
    rewrite <- (CacheKeyFacts.encoding_tag_ascii _ Etag) in He at 2.
    now rewrite (@KeyMoreFacts.searchParams_set_fixed
                   "__enc" tag "__enc" tag _ He).
  - now rewrite (@KeyMoreFacts.searchParams_set_fixed
                   "__v" (effective_version now v)
                   "__v" (effective_version now v) _ Hv).
Qed.

(** X15.  When Accept-Encoding names br the key carries br as the one
    value of __enc, also when it names gzip as well and whatever __enc the
    request URL had; when it names gzip and not br, the one value is
    gzip. *)
Theorem X15_encoding_tag_prefers_br
    (now : UTCDate) (u e : string) (v : option string) :
  (contains "br" e ->
   URLSearchParams.getAll "__enc"
     (URL.searchParams (URL.new (getOptimalCacheKey now u e v))) = ["br"]) /\
  (~ contains "br" e -> contains "gzip" e ->
   URLSearchParams.getAll "__enc"
     (URL.searchParams (URL.new (getOptimalCacheKey now u e v))) =
   ["gzip"]).
Proof.
  rewrite CacheKeyFacts.key_parses_back, CacheKeyFacts.cacheUrl_encoding.
  split.
  - intros H. now rewrite (KeyMoreFacts.encoding_tag_br H).
  - intros Hbr H. now rewrite (KeyMoreFacts.encoding_tag_gzip Hbr H).
Qed.

Lemma X15_encoding_tag_witness :
  URLSearchParams.getAll "__enc"
    (URL.searchParams
       (URL.new
          (getOptimalCacheKey a_day "https://proxy.example/a?__enc=zz"
             ("gzip, deflate, " ++ "br" ++ "") None))) = ["br"].
Proof.
  apply X15_encoding_tag_prefers_br. now exists "gzip, deflate, ", "".
Defined.

(** X16.  The key is the request URL with the reserved parameters set and
    nothing else touched: parsed as a URL it has the origin, the path and
    the fragment of the request URL, and for every parameter name other
    than __v and __enc the values of the request URL, in their order.
    The values are the ones the URL parser reads, percent-decoded and
    UTF-8 decoded: the text of the query can change, as when an
    ill-formed byte of the request is written back as U+FFFD, the values
    cannot. *)
Theorem X16_key_keeps_the_request_url
    (now : UTCDate) (u e : string) (v : option string) :
  URL.origin (URL.new (getOptimalCacheKey now u e v)) =
    URL.origin (URL.new u) /\
  URL.pathname (URL.new (getOptimalCacheKey now u e v)) =
    URL.pathname (URL.new u) /\
  URL.fragment (URL.new (getOptimalCacheKey now u e v)) =
    URL.fragment (URL.new u) /\
  (forall name, name <> "__v" -> name <> "__enc" ->
     URLSearchParams.getAll name
       (URL.searchParams (URL.new (getOptimalCacheKey now u e v))) =
     URLSearchParams.getAll name (URL.searchParams (URL.new u))).
Proof.
  rewrite CacheKeyFacts.key_parses_back.
  destruct (CacheKeyFacts.cacheUrl_components now u e v) as (Ho & Hp & Hf).
  repeat split; auto.
  intros name H1 H2. now apply CacheKeyFacts.cacheUrl_other.
Qed.

Lemma X16_key_witness :
  URLSearchParams.getAll "ref"
    (URL.searchParams
       (URL.new
          (getOptimalCacheKey a_day
             "https://proxy.example/a?ref=x&__v=1&ref=y" "br" None))) =
  ["x"; "y"].
Proof.
  destruct (X16_key_keeps_the_request_url a_day
              "https://proxy.example/a?ref=x&__v=1&ref=y" "br" None)
    as (_ & _ & _ & H).
  rewrite H; [reflexivity | discriminate | discriminate].
Defined.

(** ** The request handler: its runs *)

Module HandlerRuns.
Import StringFacts HandlerFacts.

(** [serve] in the vocabulary of the properties. *)
Lemma serve_eq (w : World) (request : Request) (info : GitHubInfo) :
  serve w request (URL.new (url request)) info =
  let strategy := getCacheStrategy (path info) in
  let hints :=
    if String.eqb (method request) "GET" then [early_hint request info]
    else [] in
  let lookup :=
    String.eqb (method request) "GET" &&
    negb (header_truthy "range" (request_headers request)) in
  let looked := if lookup then [CacheMatch (lookup_key w request)] else [] in
  match (if lookup then cache_match w (lookup_key w request) else None) with
  | Some hit =>
      Some ((hints ++ looked)%list, Return (hit_response w strategy hit))
  | None =>
      match upstream_attempts w request info with
      | None => None
      | Some (evs, completion) =>
          let before :=
            (hints ++ looked ++
             map (retry_effect (upstream_url request info)
                    (upstream_init request strategy)) evs)%list in
          match completion with
          | Throw error => Some (before, Throw error)
          | ReturnUndefined => Some (before, Throw "TypeError")
          | Return upstreamResp =>
              if valid_init_status (status upstreamResp) then
                let final :=
                  final_key_and_version w request strategy
                    (accept_encoding_of request) (lookup_key w request)
                    upstreamResp in
                let out :=
                  miss_response w strategy (snd final)
                    (upstream_url request info) upstreamResp in
                Some ((before ++
                       if String.eqb (method request) "GET" &&
                          (status upstreamResp =? 200) &&
                          negb (header_truthy "range"
                                  (request_headers request))
                       then [CachePut (fst final) out] else [])%list,
                      Return out)
              else Some (before, Throw "RangeError")
          end
      end
  end.
Proof.
  unfold serve, upstream_attempts, upstream_url, early_hint, lookup_key,
    accept_encoding_of, upstream_url.
  cbv zeta. change (ENABLE_EARLY_HINTS && ?b) with b.
  destruct (if _ && _ then cache_match w _ else None); [reflexivity|].
  destruct (fetchWithRetry _ MAX_RETRIES) as [[evs [r|e|]]|];
    try reflexivity.
  destruct (final_key_and_version _ _ _ _ _ r).
  destruct (valid_init_status (status r)); reflexivity.
Qed.

(** The run of a GET or HEAD on a path that resolves. *)
Lemma fetch_eq (w : World) (request : Request) (info : GitHubInfo) :
  parseGitHubPath (URL.pathname (URL.new (url request))) = Some info ->
  method request = "GET" \/ method request = "HEAD" ->
  fetch w request = serve w request (URL.new (url request)) info.
Proof. apply fetch_serves. Qed.

(** The attempts of the handler's retry loop: at most three, with the
    outcome of the last as the result. *)
Lemma upstream_attempts_shape (w : World) (request : Request)
    (info : GitHubInfo) :
  exists k,
    k <= MAX_RETRIES /\
    upstream_attempts w request info =
    Some (schedule 0 k,
          completion_of
            (network w (upstream_url request info)
               (upstream_init request (getCacheStrategy (path info))) k)).
Proof.
  destruct (RetryFacts.fetchWithRetry_stops
              (network w (upstream_url request info)
                 (upstream_init request (getCacheStrategy (path info))))
              MAX_RETRIES) as (k & Hk & _ & _ & H).
  now exists k.
Qed.

Lemma upstream_requests_app (a b : list Effect) :
  upstream_requests (a ++ b) = (upstream_requests a ++ upstream_requests b)%list.
Proof. apply flat_map_app. Qed.

Lemma total_sleep_app (a b : list Effect) :
  total_sleep (a ++ b) = total_sleep a + total_sleep b.
Proof.
  unfold total_sleep. now rewrite flat_map_app, list_sum_app.
Qed.

Lemma upstream_requests_retries (target : string) (init : FetchInit)
    (evs : list RetryEvent) :
  upstream_requests (map (retry_effect target init) evs) =
  repeat (target, init) (attempts evs).
Proof.
  unfold attempts. induction evs as [|[i|ms] evs IH]; simpl; auto.
  now rewrite <- IH.
Qed.

Lemma total_sleep_retries (target : string) (init : FetchInit)
    (evs : list RetryEvent) :
  total_sleep (map (retry_effect target init) evs) = list_sum (delays evs).
Proof.
  unfold total_sleep, delays.
  induction evs as [|[i|ms] evs IH]; simpl in *; auto.
Qed.

End HandlerRuns.

Module HandlerRunCases.
Import StringFacts HandlerFacts HandlerRuns.

(** A run on a path that resolves: refused for its method with no effect,
    or the run of [serve]. *)
Lemma fetch_run_cases (w : World) (request : Request) (info : GitHubInfo)
    (effs : list Effect) (c : Completion Response) :
  parseGitHubPath (URL.pathname (URL.new (url request))) = Some info ->
  fetch w request = Some (effs, c) ->
  (effs = [] /\ method request <> "GET" /\ method request <> "HEAD" /\
   (c = Return preflight_response \/
    c = Return method_not_allowed_response)) \/
  ((method request = "GET" \/ method request = "HEAD") /\
   serve w request (URL.new (url request)) info = Some (effs, c)).
Proof.
  intros Hp Hrun. unfold fetch in Hrun. rewrite Hp in Hrun.
  destruct (String.eqb_spec (method request) "OPTIONS") as [Eo|Eo].
  - injection Hrun as <- <-. left. rewrite Eo.
    repeat split; try discriminate. now left.
  - destruct (String.eqb_spec (method request) "GET") as [Eg|Eg].
    + right. split; [now left | exact Hrun].
    + destruct (String.eqb_spec (method request) "HEAD") as [Eh|Eh];
        simpl in Hrun.
      * right. split; [now right | exact Hrun].
      * injection Hrun as <- <-. left. repeat split; auto.
Qed.

(** The effects before the write, on a miss. *)
Lemma before_has_no_put (hints looked retried : list Effect) :
  (forall e, In e hints -> is_cache_put e = false) ->
  (forall e, In e looked -> is_cache_put e = false) ->
  (forall e, In e retried -> is_cache_put e = false) ->
  forall key out, ~ In (CachePut key out) (hints ++ looked ++ retried).
Proof.
  intros H1 H2 H3 key out Hin.
  apply in_app_or in Hin as [Hin | Hin]; [apply H1 in Hin; discriminate|].
  apply in_app_or in Hin as [Hin | Hin]; [apply H2 in Hin; discriminate|].
  apply H3 in Hin. discriminate.
Qed.

(** A scheduled write stores the response that is returned. *)
Lemma put_is_the_returned_response (w : World) (request : Request)
    (info : GitHubInfo) (effs : list Effect) (c : Completion Response)
    (key : string) (out : Response) :
  parseGitHubPath (URL.pathname (URL.new (url request))) = Some info ->
  fetch w request = Some (effs, c) ->
  In (CachePut key out) effs ->
  c = Return out /\
  exists evs upstreamResp,
    upstream_attempts w request info = Some (evs, Return upstreamResp) /\
    status upstreamResp = 200 /\
    (key, out) =
      (fst (final_key_and_version w request (getCacheStrategy (path info))
              (accept_encoding_of request) (lookup_key w request)
              upstreamResp),
       miss_response w (getCacheStrategy (path info))
         (snd (final_key_and_version w request
                 (getCacheStrategy (path info))
                 (accept_encoding_of request) (lookup_key w request)
                 upstreamResp))
         (upstream_url request info) upstreamResp).
Proof.
  intros Hp Hrun Hin.
  destruct (fetch_run_cases _ _ Hp Hrun) as [(-> & _) | (Hm & Hs)];
    [destruct Hin|].
  rewrite serve_eq in Hs. cbv zeta in Hs.
  assert (Hhints : forall e,
            In e (if String.eqb (method request) "GET"
                  then [early_hint request info] else []) ->
            is_cache_put e = false).
  { intros e He. destruct (String.eqb (method request) "GET");
      [destruct He as [<- | []]; reflexivity | destruct He]. }
  assert (Hlooked : forall e,
            In e (if String.eqb (method request) "GET" &&
                     negb (header_truthy "range" (request_headers request))
                  then [CacheMatch (lookup_key w request)] else []) ->
            is_cache_put e = false).
  { intros e He. destruct (_ && _);
      [destruct He as [<- | []]; reflexivity | destruct He]. }
  assert (Hretried : forall evs e,
            In e (map (retry_effect (upstream_url request info)
                         (upstream_init request
                            (getCacheStrategy (path info)))) evs) ->
            is_cache_put e = false).
  { intros evs e He. apply in_map_iff in He as ([i|ms] & <- & _);
      reflexivity. }
  destruct (if _ && _ then cache_match w _ else None) as [hit|].
  - injection Hs as <- <-. exfalso.
    apply in_app_or in Hin as [Hin | Hin];
      [apply Hhints in Hin | apply Hlooked in Hin]; discriminate.
  - destruct (upstream_attempts w request info) as [[evs [r|e|]]|] eqn:Eup;
      try discriminate;
      [destruct (valid_init_status (status r))| |];
      injection Hs as <- <-.
    + apply in_app_or in Hin as [Hin | Hin].
      { exfalso. revert Hin. apply before_has_no_put; auto.
        apply Hretried. }
      destruct (String.eqb (method request) "GET"); [|destruct Hin].
      destruct (status r =? 200) eqn:Es; [|destruct Hin].
      destruct (header_truthy "range" (request_headers request));
        [destruct Hin|].
      destruct Hin as [[= <- <-] | []].
      split; [reflexivity|]. exists evs, r. apply Nat.eqb_eq in Es.
      now repeat split.
    + exfalso. revert Hin. apply before_has_no_put; auto. apply Hretried.
    + exfalso. revert Hin. apply before_has_no_put; auto. apply Hretried.
    + exfalso. revert Hin. apply before_has_no_put; auto. apply Hretried.
Qed.

(** The run that ends at the cache. *)
Lemma fetch_hit (w : World) (request : Request) (info : GitHubInfo)
    (hit : Response) :
  parseGitHubPath (URL.pathname (URL.new (url request))) = Some info ->
  method request = "GET" ->
  header_truthy "range" (request_headers request) = false ->
  cache_match w (lookup_key w request) = Some hit ->
  fetch w request =
  Some ([early_hint request info; CacheMatch (lookup_key w request)],
        Return (hit_response w (getCacheStrategy (path info)) hit)).
Proof.
  intros Hp Hm Hr Hhit.
  rewrite (fetch_eq w request Hp) by now left.
  rewrite serve_eq. cbv zeta.
  rewrite Hm, Hr. cbn [String.eqb Ascii.eqb Bool.eqb andb negb].
  now rewrite Hhit.
Qed.

End HandlerRunCases.

(** X17.  When the cache has an entry under the lookup key of a GET
    without a range on a path that resolves, the handler answers from the
    cache: its only effects are the early hint and the lookup, it makes no
    upstream request and schedules no write, and it returns the hit
    response built from the entry. *)
Theorem X17_cache_hit_makes_no_upstream_request
    (w : World) (request : Request) (info : GitHubInfo) (hit : Response) :
  parseGitHubPath (URL.pathname (URL.new (url request))) = Some info ->
  method request = "GET" ->
  header_truthy "range" (request_headers request) = false ->
  cache_match w (lookup_key w request) = Some hit ->
  fetch w request =
  Some ([early_hint request info; CacheMatch (lookup_key w request)],
        Return (hit_response w (getCacheStrategy (path info)) hit)).
Proof. apply HandlerRunCases.fetch_hit. Qed.

Lemma X17_cache_hit_witness :
  fetch world_with_entry get_file =
  Some ([early_hint get_file
           {| host := "github.com"; path := "/user/repo/file.bin";
              fullUrl := "https://github.com/user/repo/file.bin" |};
         CacheMatch (lookup_key world_with_entry get_file)],
        Return (hit_response world_with_entry
                  (getCacheStrategy "/user/repo/file.bin")
                  (plain_response 200))).
Proof.
  apply (@X17_cache_hit_makes_no_upstream_request world_with_entry get_file
           {| host := "github.com"; path := "/user/repo/file.bin";
              fullUrl := "https://github.com/user/repo/file.bin" |}
           (plain_response 200)); reflexivity.
Defined.

(** X18.  Store, then hit.  Under a policy without ETag validation the
    key a response is written under is the lookup key of the request; and
    whenever the write key is the lookup key, the same request on the same
    day, served from the cache with the new entry, is answered with the
    stored response marked HIT, without any upstream request. *)
Theorem X18_stored_response_is_served_on_the_next_request
    (w w' : World) (request : Request) (info : GitHubInfo)
    (effs : list Effect) (c : Completion Response)
    (key : string) (out : Response) :
  parseGitHubPath (URL.pathname (URL.new (url request))) = Some info ->
  fetch w request = Some (effs, c) ->
  In (CachePut key out) effs ->
  (useETag (getCacheStrategy (path info)) = false ->
   key = lookup_key w request) /\
  (key = lookup_key w request ->
   date_at_lookup w' = date_at_lookup w ->
   (forall k, cache_match w' k = cache_put key out (cache_match w) k) ->
   c = Return out /\
   fetch w' request =
   Some ([early_hint request info; CacheMatch key],
         Return (hit_response w' (getCacheStrategy (path info)) out))).
Proof.
  intros Hp Hrun Hin.
  destruct (@HandlerCases.put_inv w request info effs c key out
              Hp Hrun Hin)
    as (Hm & Hr & _ & evs & r & _ & _ & Hkey).
  destruct (@HandlerRunCases.put_is_the_returned_response
              w request info effs c key out Hp Hrun Hin)
    as (Hc & _).
  split.
  - intros He. rewrite Hkey. unfold final_key_and_version. now rewrite He.
  - intros Hk Hdate Hcache. split; [exact Hc|].
    assert (Hlk : lookup_key w' request = key).
    { rewrite Hk. unfold lookup_key. now rewrite Hdate. }
    rewrite <- Hlk.
    apply HandlerRunCases.fetch_hit; auto.
    rewrite Hcache, Hlk. unfold cache_put. now rewrite String.eqb_refl.
Qed.

Lemma X18_stored_response_witness :
  "https://proxy.example/user/repo/archive/refs/tags/v1.0.tar.gz?__v=20261101&__enc=gzip" =
  lookup_key world_upstream_200 get_tagged.
Proof.
  refine (proj1
    (@X18_stored_response_is_served_on_the_next_request
       world_upstream_200 world_upstream_200 get_tagged tagged_info
       (run_effects (fetch world_upstream_200 get_tagged))
       (Return
          (miss_response world_upstream_200 versioned_strategy "20261101"
             (fullUrl tagged_info) (plain_response 200)))
       "https://proxy.example/user/repo/archive/refs/tags/v1.0.tar.gz?__v=20261101&__enc=gzip"
       (miss_response world_upstream_200 versioned_strategy "20261101"
          (fullUrl tagged_info) (plain_response 200))
       eq_refl _ _) _).
  - vm_compute. reflexivity.
  - vm_compute. repeat (try (left; reflexivity); right).
  - reflexivity.
Defined.

Module UpstreamFacts.
Import StringFacts HandlerFacts HandlerRuns HandlerRunCases.

Lemma hints_quiet (request : Request) (info : GitHubInfo) :
  let hints :=
    if String.eqb (method request) "GET" then [early_hint request info]
    else [] in
  upstream_requests hints = [] /\ total_sleep hints = 0.
Proof. cbv zeta. now destruct (String.eqb (method request) "GET"). Qed.

Lemma looked_quiet (b : bool) (key : string) :
  let looked := if b then [CacheMatch key] else [] in
  upstream_requests looked = [] /\ total_sleep looked = 0.
Proof. cbv zeta. now destruct b. Qed.

Lemma stored_quiet (b : bool) (key : string) (out : Response) :
  let stored := if b then [CachePut key out] else [] in
  upstream_requests stored = [] /\ total_sleep stored = 0.
Proof. cbv zeta. now destruct b. Qed.

(** A response whose status [new Response] refuses is neither ok nor a
    4xx: the retry loop goes on after it while it may. *)
Lemma refused_status_is_retried (r : Response) :
  valid_init_status (status r) = false -> retryable (Resolved r) = true.
Proof.
  unfold valid_init_status, retryable, ok. intros H.
  destruct (Nat.leb_spec 200 (status r)), (Nat.leb_spec (status r) 599),
    (Nat.leb_spec (status r) 299), (Nat.leb_spec 400 (status r)),
    (Nat.ltb_spec (status r) 500);
    simpl in *; try reflexivity; try discriminate; lia.
Qed.

Lemma delays_bound (k : nat) :
  k <= MAX_RETRIES -> list_sum (delays (schedule 0 k)) <= 1500.
Proof.
  unfold MAX_RETRIES. intros H.
  destruct k as [|[|[|k]]]; [simpl; lia | simpl; lia | simpl; lia | lia].
Qed.

(** The upstream side of a run: at most three fetches, all of the same
    URL with the same options, and at most 1500 ms of waiting. *)
Lemma upstream_side (w : World) (request : Request) (info : GitHubInfo)
    (effs : list Effect) (c : Completion Response) :
  parseGitHubPath (URL.pathname (URL.new (url request))) = Some info ->
  fetch w request = Some (effs, c) ->
  exists n,
    n <= MAX_RETRIES + 1 /\
    upstream_requests effs =
      repeat (upstream_url request info,
              upstream_init request (getCacheStrategy (path info))) n /\
    total_sleep effs <= 1500.
Proof.
  intros Hp Hrun.
  destruct (fetch_run_cases _ _ Hp Hrun) as [(-> & _) | (Hm & Hs)].
  { exists 0. unfold total_sleep. repeat split; simpl; lia. }
  rewrite serve_eq in Hs. cbv zeta in Hs.
  destruct (hints_quiet request info) as [Hh1 Hh2]. cbv zeta in Hh1, Hh2.
  destruct (looked_quiet
              (String.eqb (method request) "GET" &&
               negb (header_truthy "range" (request_headers request)))
              (lookup_key w request)) as [Hl1 Hl2]. cbv zeta in Hl1, Hl2.
  destruct (if _ && _ then cache_match w _ else None) as [hit|].
  - injection Hs as <- <-. exists 0.
    rewrite upstream_requests_app, total_sleep_app, Hh1, Hh2, Hl1, Hl2.
    repeat split; simpl; lia.
  - destruct (upstream_attempts_shape w request info) as (k & Hk & Hup).
    rewrite Hup in Hs. exists (S k).
    assert (Hbefore :
      upstream_requests
        ((if String.eqb (method request) "GET"
          then [early_hint request info] else []) ++
         (if String.eqb (method request) "GET" &&
             negb (header_truthy "range" (request_headers request))
          then [CacheMatch (lookup_key w request)] else []) ++
         map (retry_effect (upstream_url request info)
                (upstream_init request (getCacheStrategy (path info))))
           (schedule 0 k)) =
      repeat (upstream_url request info,
              upstream_init request (getCacheStrategy (path info))) (S k) /\
      total_sleep
        ((if String.eqb (method request) "GET"
          then [early_hint request info] else []) ++
         (if String.eqb (method request) "GET" &&
             negb (header_truthy "range" (request_headers request))
          then [CacheMatch (lookup_key w request)] else []) ++
         map (retry_effect (upstream_url request info)
                (upstream_init request (getCacheStrategy (path info))))
           (schedule 0 k)) <= 1500).
    { rewrite !upstream_requests_app, !total_sleep_app.
      rewrite Hh1, Hh2, Hl1, Hl2, upstream_requests_retries,
        total_sleep_retries, RetryFacts.attempts_schedule.
      split; [reflexivity|]. simpl. now apply delays_bound. }
    destruct Hbefore as [Hb1 Hb2].
    split; [lia|].
    destruct (completion_of _) as [r|e|];
      [destruct (valid_init_status (status r))| |];
      injection Hs as <- <-; auto.
    destruct (stored_quiet
                (String.eqb (method request) "GET" && (status r =? 200) &&
                 negb (header_truthy "range" (request_headers request)))
                (fst (final_key_and_version w request
                        (getCacheStrategy (path info))
                        (accept_encoding_of request)
                        (lookup_key w request) r))
                (miss_response w (getCacheStrategy (path info))
                   (snd (final_key_and_version w request
                           (getCacheStrategy (path info))
                           (accept_encoding_of request)
                           (lookup_key w request) r))
                   (upstream_url request info) r)) as [Hs1 Hs2].
    cbv zeta in Hs1, Hs2.
    rewrite upstream_requests_app, total_sleep_app, Hs1, Hs2, Hb1.
    rewrite app_nil_r. split; [reflexivity | lia].
Qed.

(** The URL a path resolves to starts with https, an allow-listed host
    and a slash. *)
Lemma fullUrl_shape (pathname : string) (info : GitHubInfo) :
  parseGitHubPath pathname = Some info ->
  (exists rest, pathname = "/" ++ rest) ->
  exists h rest,
    In h GITHUB_HOSTS /\ fullUrl info = "https://" ++ h ++ "/" ++ rest.
Proof.
  unfold parseGitHubPath.
  destruct (path_parts pathname) as [|first others]; [discriminate|].
  destruct (is_github_host first) eqn:E; intros [= <-] [rest Hrest]; simpl.
  - apply PathFacts.is_github_host_In in E.
    now exists first, (JS.join "/" others).
  - exists "github.com", rest. split; [simpl; tauto | now rewrite Hrest].
Qed.

End UpstreamFacts.

(** X19.  One request costs upstream at most three fetches
    (MAX_RETRIES + 1), all of the resolved upstream URL with the options
    built from the request, and the handler waits at most 1500 ms between
    them. *)
Theorem X19_upstream_attempts_are_bounded
    (w : World) (request : Request) (info : GitHubInfo)
    (effs : list Effect) (c : Completion Response) :
  parseGitHubPath (URL.pathname (URL.new (url request))) = Some info ->
  fetch w request = Some (effs, c) ->
  List.length (upstream_requests effs) <= MAX_RETRIES + 1 /\
  Forall
    (fun sent =>
       sent = (upstream_url request info,
               upstream_init request (getCacheStrategy (path info))))
    (upstream_requests effs) /\
  total_sleep effs <= 1500.
Proof.
  intros Hp Hrun.
  destruct (UpstreamFacts.upstream_side _ _ Hp Hrun) as (n & Hn & -> & Hs).
  rewrite repeat_length. repeat split; auto.
  apply Forall_forall. intros sent Hin. now apply repeat_spec in Hin.
Qed.

Lemma X19_upstream_attempts_witness :
  List.length
    (upstream_requests (run_effects (fetch world_offline get_file))) <= 3 /\
  total_sleep (run_effects (fetch world_offline get_file)) <= 1500.
Proof.
  destruct (fetch world_offline get_file) as [[effs c]|] eqn:E;
    [|unfold total_sleep; simpl; lia].
  destruct (@X19_upstream_attempts_are_bounded world_offline get_file
              file_info effs c eq_refl E) as (H1 & _ & H2).
  now split.
Defined.

(** X20.  Whatever the request, every upstream fetch of the handler goes
    to https, one of the four hosts of GITHUB_HOSTS, a slash and a rest:
    no path makes the handler fetch from another host. *)
Theorem X20_upstream_host_is_allow_listed
    (w : World) (request : Request)
    (effs : list Effect) (c : Completion Response)
    (target : string) (init : FetchInit) :
  fetch w request = Some (effs, c) ->
  In (target, init) (upstream_requests effs) ->
  exists h rest,
    In h GITHUB_HOSTS /\ target = "https://" ++ h ++ "/" ++ rest.
Proof.
  intros Hrun Hin.
  destruct (parseGitHubPath (URL.pathname (URL.new (url request))))
    as [info|] eqn:Hp.
  - destruct (UpstreamFacts.upstream_side _ _ Hp Hrun) as (n & _ & Hreq & _).
    rewrite Hreq in Hin. apply repeat_spec in Hin. injection Hin as -> _.
    assert (Hslash : exists rest,
              URL.pathname (URL.new (url request)) = "/" ++ rest).
    { destruct (SegmentFacts.pathname_shape (url request)) as [E|H];
        [|exact H].
      rewrite E in Hp. discriminate. }
    destruct (UpstreamFacts.fullUrl_shape Hp Hslash) as (h & rest & Hh & E).
    exists h, (rest ++ URL.search (URL.new (url request))).
    split; [exact Hh|]. unfold upstream_url. rewrite E.
    now rewrite !StringFacts.append_assoc.
  - rewrite (PathFacts.fetch_invalid_path w request Hp) in Hrun.
    injection Hrun as <- _. destruct Hin.
Qed.

Lemma X20_upstream_host_witness :
  exists h rest,
    In h GITHUB_HOSTS /\
    "https://github.com/user/repo/file.bin" = "https://" ++ h ++ "/" ++ rest.
Proof.
  apply (@X20_upstream_host_is_allow_listed world_offline get_file
           (run_effects (fetch world_offline get_file))
           (Throw "unreachable")
           "https://github.com/user/repo/file.bin"
           (upstream_init get_file (getCacheStrategy "/user/repo/file.bin"))).
  - vm_compute. reflexivity.
  - vm_compute. repeat (try (left; reflexivity); right).
Defined.

(** X21.  The handler fails in two ways only, each after three upstream
    fetches of which the first two were retried: on a transport failure
    that outlasts the retries, when the third attempt is rejected, and
    the error thrown is the error of that attempt; and on an upstream
    response that new Response refuses, when the third attempt gives a
    status outside 200 to 599, and the error is the RangeError of the
    constructor.  So an upstream response with a status from 200 to 599
    never makes the handler throw. *)
Theorem X21_handler_throws_only_after_three_failed_attempts
    (w : World) (request : Request) (info : GitHubInfo)
    (effs : list Effect) (error : string) :
  parseGitHubPath (URL.pathname (URL.new (url request))) = Some info ->
  fetch w request = Some (effs, Throw error) ->
  let attempt :=
    network w (upstream_url request info)
      (upstream_init request (getCacheStrategy (path info))) in
  retryable (attempt 0) = true /\
  retryable (attempt 1) = true /\
  List.length (upstream_requests effs) = 3 /\
  (attempt 2 = Rejected error \/
   exists upstreamResp,
     attempt 2 = Resolved upstreamResp /\
     valid_init_status (status upstreamResp) = false /\
     error = "RangeError").
Proof.
  intros Hp Hrun attempt.
  destruct (HandlerRunCases.fetch_run_cases _ _ Hp Hrun)
    as [(_ & _ & _ & [H|H]) | (Hm & Hs)]; try discriminate.
  rewrite HandlerRuns.serve_eq in Hs. cbv zeta in Hs.
  destruct (UpstreamFacts.hints_quiet request info) as [Hh _].
  destruct (UpstreamFacts.looked_quiet
              (String.eqb (method request) "GET" &&
               negb (header_truthy "range" (request_headers request)))
              (lookup_key w request)) as [Hl _].
  cbv zeta in Hh, Hl.
  destruct (if _ && _ then cache_match w _ else None) as [hit|];
    [discriminate|].
  destruct (RetryFacts.fetchWithRetry_stops attempt MAX_RETRIES)
    as (k & Hk & Hre & Hstop & Hup).
  change (upstream_attempts w request info)
    with (fetchWithRetry attempt MAX_RETRIES) in Hs.
  rewrite Hup in Hs.
  assert (Hthree :
    retryable (attempt k) = true ->
    forall before,
      before =
        ((if String.eqb (method request) "GET"
          then [early_hint request info] else []) ++
         (if String.eqb (method request) "GET" &&
             negb (header_truthy "range" (request_headers request))
          then [CacheMatch (lookup_key w request)] else []) ++
         map (retry_effect (upstream_url request info)
                (upstream_init request (getCacheStrategy (path info))))
           (schedule 0 k))%list ->
      k = 2 /\ List.length (upstream_requests before) = 3).
  { intros Hretry before ->.
    destruct Hstop as [Hstop | Hlast]; [congruence|].
    unfold MAX_RETRIES in Hlast. subst k. split; [reflexivity|].
    rewrite !HandlerRuns.upstream_requests_app, Hh, Hl.
    rewrite HandlerRuns.upstream_requests_retries. cbn [app].
    rewrite repeat_length. apply RetryFacts.attempts_schedule. }
  destruct (attempt k) as [r|e] eqn:Ek; cbn [completion_of] in Hs.
  - destruct (valid_init_status (status r)) eqn:Ev; [discriminate|].
    injection Hs as Heffs He.
    destruct (Hthree (UpstreamFacts.refused_status_is_retried r Ev) _ eq_refl)
      as [-> Hlen].
    rewrite Heffs in Hlen.
    repeat apply conj; try (apply Hre; unfold MAX_RETRIES; lia);
      [exact Hlen|].
    right. exists r. now repeat split.
  - injection Hs as Heffs He. subst e.
    destruct (Hthree eq_refl _ eq_refl) as [-> Hlen].
    rewrite Heffs in Hlen.
    repeat apply conj; try (apply Hre; unfold MAX_RETRIES; lia);
      [exact Hlen|].
    now left.
Qed.

Lemma X21_handler_throws_witness :
  List.length
    (upstream_requests (run_effects (fetch world_upstream_999 get_file))) = 3.
Proof.
  refine (proj1 (proj2 (proj2
    (@X21_handler_throws_only_after_three_failed_attempts
       world_upstream_999 get_file file_info
       (run_effects (fetch world_upstream_999 get_file)) "RangeError"
       eq_refl _)))).
  vm_compute. reflexivity.
Defined.

(** ** Text without whitespace stays as it is in a header *)

Module TargetFacts.
Import StringFacts.

Lemma clean_append (a b : string) :
  no_http_whitespace (a ++ b) <->
  no_http_whitespace a /\ no_http_whitespace b.
Proof.
  unfold no_http_whitespace. split.
  - intros H. split; intros d Hd; apply H; rewrite has_char_append, Hd;
      [reflexivity | apply orb_true_r].
  - intros [Ha Hb] d Hd. rewrite has_char_append in Hd.
    apply orb_true_iff in Hd as [Hd|Hd]; auto.
Qed.

Lemma clean_tail (c : ascii) (s : string) :
  no_http_whitespace (String c s) -> no_http_whitespace s.
Proof.
  intros H. change (String c s) with (String c "" ++ s) in H.
  now apply clean_append in H.
Qed.

Lemma clean_cons (c : ascii) (s : string) :
  Headers.is_http_whitespace c = false -> no_http_whitespace s ->
  no_http_whitespace (String c s).
Proof.
  intros Hc Hs d Hd. simpl in Hd. apply orb_true_iff in Hd as [Hd|Hd].
  - apply Ascii.eqb_eq in Hd. now subst.
  - now apply Hs.
Qed.

Lemma clean_cut (sep : ascii) (s : string) :
  no_http_whitespace s ->
  no_http_whitespace (fst (JS.cut sep s)) /\
  forall b, snd (JS.cut sep s) = Some b -> no_http_whitespace b.
Proof.
  intros H. pose proof (cut_spec sep s) as Hc.
  destruct (JS.cut sep s) as [a [b|]]; simpl; destruct Hc as [-> _].
  - apply clean_append in H as [Ha Hb]. split; [exact Ha|].
    intros b' [= <-]. now apply clean_tail in Hb.
  - split; [exact H | discriminate].
Qed.

Lemma clean_split (sep : ascii) (s : string) :
  no_http_whitespace s -> Forall no_http_whitespace (JS.split sep s).
Proof.
  induction s as [|c s IH]; intros H.
  - constructor; [exact H | constructor].
  - pose proof (clean_tail H) as Hs. specialize (IH Hs). simpl.
    destruct (Ascii.eqb c sep).
    + constructor; [intros d Hd; discriminate | exact IH].
    + assert (Hc : Headers.is_http_whitespace c = false).
      { apply H. simpl. now rewrite Ascii.eqb_refl. }
      destruct (JS.split sep s) as [|x xs].
      * constructor; [|constructor]. apply clean_cons; [exact Hc|].
        intros d Hd. discriminate.
      * inversion IH; subst. constructor; [|assumption].
        now apply clean_cons.
Qed.

Lemma clean_join (sep : string) (l : list string) :
  no_http_whitespace sep -> Forall no_http_whitespace l ->
  no_http_whitespace (JS.join sep l).
Proof.
  intros Hsep Hl. unfold JS.join.
  induction Hl as [|x l Hx Hl IH]; [intros d Hd; discriminate|].
  destruct l as [|y l']; [exact Hx|].
  change (String.concat sep (x :: y :: l'))
    with (x ++ sep ++ String.concat sep (y :: l')).
  apply clean_append. split; [exact Hx|].
  apply clean_append. now split.
Qed.

Lemma clean_normalize (s : string) :
  no_http_whitespace s -> Headers.normalize s = s.
Proof.
  intros H. unfold Headers.normalize.
  assert (Hl : Headers.strip_leading s = s).
  { destruct s as [|c s]; [reflexivity|]. simpl.
    rewrite (H c); [reflexivity|]. simpl. now rewrite Ascii.eqb_refl. }
  rewrite Hl. clear Hl.
  induction s as [|c s IH]; [reflexivity|].
  simpl. rewrite (IH (clean_tail H)).
  destruct s; [|reflexivity].
  rewrite (H c); [reflexivity|]. simpl. now rewrite Ascii.eqb_refl.
Qed.

Lemma clean_new (u : string) :
  no_http_whitespace u ->
  no_http_whitespace (URL.pathname (URL.new u)) /\
  no_http_whitespace (URL.search (URL.new u)).
Proof.
  intros H. unfold URL.new, URL.search.
  destruct (clean_cut "#" H) as [Hbh _].
  destruct (JS.cut "#" u) as [bh frag]. simpl in Hbh.
  destruct (clean_cut "?" Hbh) as [Hbq Hq].
  destruct (JS.cut "?" bh) as [bq q]. simpl in Hbq, Hq.
  pose proof (URLFacts.split_origin_spec bq) as Hs.
  destruct (URL.split_origin bq) as [o p]. destruct Hs as [Hop _].
  cbn [URL.pathname URL.query]. split.
  - assert (Hopc : no_http_whitespace (o ++ p)).
    { destruct Hop as [-> | ->]; [exact Hbq|].
      apply clean_append. split; [exact Hbq|].
      apply clean_cons; [reflexivity | intros d Hd; discriminate]. }
    now apply clean_append in Hopc.
  - destruct q as [q'|]; [|intros d Hd; discriminate].
    destruct (JS.truthy q'); [|intros d Hd; discriminate].
    apply clean_cons; [reflexivity|]. now apply Hq.
Qed.

Lemma clean_empty : no_http_whitespace "".
Proof. intros d Hd. discriminate. Qed.

Ltac clean_literal :=
  repeat (apply clean_cons; [reflexivity|]); apply clean_empty.

Lemma clean_host (h : string) : In h GITHUB_HOSTS -> no_http_whitespace h.
Proof.
  unfold GITHUB_HOSTS. simpl.
  intros [<- | [<- | [<- | [<- | []]]]]; clean_literal.
Qed.

Lemma clean_fullUrl (pathname : string) (info : GitHubInfo) :
  no_http_whitespace pathname ->
  parseGitHubPath pathname = Some info ->
  no_http_whitespace (fullUrl info).
Proof.
  intros H Hp. unfold parseGitHubPath, path_parts in Hp.
  pose proof (clean_split "/" H) as Hparts.
  assert (Hf : Forall no_http_whitespace
                 (filter JS.truthy (JS.split "/" pathname))).
  { rewrite Forall_forall in *. intros x Hx.
    apply filter_In in Hx as [Hx _]. now apply Hparts. }
  destruct (filter JS.truthy (JS.split "/" pathname)) as [|first others];
    [discriminate|].
  injection Hp as <-. cbn [fullUrl].
  inversion Hf as [|? ? Hfirst Hothers]; subst.
  change (no_http_whitespace
            ("https://" ++
             (if is_github_host first then first else "github.com") ++
             (if is_github_host first then "/" ++ JS.join "/" others
              else pathname))).
  apply clean_append. split; [clean_literal|].
  destruct (is_github_host first) eqn:Eh.
  - apply clean_append. split; [exact Hfirst|].
    apply clean_cons; [reflexivity|].
    apply clean_join; [clean_literal | exact Hothers].
  - apply clean_append. split; [|exact H].
    apply clean_host. now left.
Qed.

(** The upstream URL of a request whose URL has no whitespace has none,
    and is in a header as it is. *)
Lemma clean_upstream_url (request : Request) (info : GitHubInfo) :
  no_http_whitespace (url request) ->
  parseGitHubPath (URL.pathname (URL.new (url request))) = Some info ->
  Headers.normalize (upstream_url request info) = upstream_url request info.
Proof.
  intros H Hp. apply clean_normalize. unfold upstream_url.
  destruct (clean_new H) as [Hpath Hsearch].
  apply clean_append. split; [|exact Hsearch].
  exact (clean_fullUrl Hpath Hp).
Qed.

End TargetFacts.

(** ** Where a returned response comes from *)

Module OriginFacts.

Lemma miss_says_miss (w : World) (strategy : CacheStrategy)
    (ver target : string) (r : Response) :
  Headers.get "X-Cache-Status"
    (headers (miss_response w strategy ver target r)) = Some "MISS".
Proof.
  unfold miss_response. cbv zeta. cbn [headers]. read_header. reflexivity.
Qed.

Lemma miss_names_target (w : World) (strategy : CacheStrategy)
    (ver target : string) (r : Response) :
  Headers.get "X-GitHub-Target"
    (headers (miss_response w strategy ver target r)) =
  Some (Headers.normalize target).
Proof.
  unfold miss_response. cbv zeta. cbn [headers]. read_header. reflexivity.
Qed.

Lemma hit_says_hit (w : World) (strategy : CacheStrategy) (hit : Response) :
  Headers.get "X-Cache-Status" (headers (hit_response w strategy hit)) =
  Some "HIT".
Proof.
  unfold hit_response. cbn [headers]. read_header. reflexivity.
Qed.

(** A response that [serve] returns: the hit response of the entry under
    the lookup key, with no upstream fetch, or the response built from
    the one the retry loop returned. *)
Lemma returned_cases (w : World) (request : Request) (info : GitHubInfo)
    (effs : list Effect) (out : Response) :
  serve w request (URL.new (url request)) info = Some (effs, Return out) ->
  (exists hit,
      cache_match w (lookup_key w request) = Some hit /\
      out = hit_response w (getCacheStrategy (path info)) hit /\
      upstream_requests effs = []) \/
  (exists evs upstreamResp ver,
      upstream_attempts w request info = Some (evs, Return upstreamResp) /\
      valid_init_status (status upstreamResp) = true /\
      out = miss_response w (getCacheStrategy (path info)) ver
              (upstream_url request info) upstreamResp).
Proof.
  intros Hs. rewrite HandlerRuns.serve_eq in Hs. cbv zeta in Hs.
  destruct (String.eqb (method request) "GET" &&
            negb (header_truthy "range" (request_headers request))).
  - destruct (cache_match w (lookup_key w request)) as [hit|] eqn:Ehit.
    + injection Hs as <- <-. left. exists hit. repeat split.
      rewrite HandlerRuns.upstream_requests_app.
      destruct (UpstreamFacts.hints_quiet request info) as [Hh _].
      cbv zeta in Hh. now rewrite Hh.
    + destruct (upstream_attempts w request info)
        as [[evs [r|e|]]|] eqn:Eup; try discriminate.
      destruct (valid_init_status (status r)) eqn:Ev; [|discriminate].
      injection Hs as <- <-. right. now eexists evs, r, _.
  - destruct (upstream_attempts w request info)
      as [[evs [r|e|]]|] eqn:Eup; try discriminate.
    destruct (valid_init_status (status r)) eqn:Ev; [|discriminate].
    injection Hs as <- <-. right. now eexists evs, r, _.
Qed.

End OriginFacts.

(** X22.  A returned response says where it comes from.  If its
    X-Cache-Status is MISS, upstream was fetched and the response has the
    status and body of the upstream response, a status that new Response
    accepts, and names the upstream URL in X-GitHub-Target: as
    Headers.set stores it, which is the URL itself when the URL of the
    request has no whitespace, as no serialised URL has.  If it is HIT,
    the cache had the entry, the response has its status and body, and
    no upstream fetch was made.  Every response to a GET or HEAD says
    one of the two. *)
Theorem X22_returned_response_names_its_origin
    (w : World) (request : Request) (info : GitHubInfo)
    (effs : list Effect) (out : Response) :
  parseGitHubPath (URL.pathname (URL.new (url request))) = Some info ->
  fetch w request = Some (effs, Return out) ->
  (Headers.get "X-Cache-Status" (headers out) = Some "MISS" ->
   exists evs upstreamResp,
     upstream_attempts w request info = Some (evs, Return upstreamResp) /\
     status out = status upstreamResp /\
     body out = body upstreamResp /\
     valid_init_status (status out) = true /\
     Headers.get "X-GitHub-Target" (headers out) =
       Some (Headers.normalize (upstream_url request info)) /\
     (no_http_whitespace (url request) ->
      Headers.get "X-GitHub-Target" (headers out) =
        Some (upstream_url request info))) /\
  (Headers.get "X-Cache-Status" (headers out) = Some "HIT" ->
   upstream_requests effs = [] /\
   exists hit,
     cache_match w (lookup_key w request) = Some hit /\
     status out = status hit /\
     body out = body hit) /\
  (method request = "GET" \/ method request = "HEAD" ->
   Headers.get "X-Cache-Status" (headers out) = Some "HIT" \/
   Headers.get "X-Cache-Status" (headers out) = Some "MISS").
Proof.
  intros Hp Hrun.
  destruct (HandlerRunCases.fetch_run_cases _ _ Hp Hrun)
    as [(_ & Hg & Hh & [H|H]) | (Hm & Hs)].
  - injection H as ->. repeat split; try discriminate. tauto.
  - injection H as ->. repeat split; try discriminate. tauto.
  - destruct (OriginFacts.returned_cases _ _ _ Hs)
      as [(hit & Hhit & -> & Hnone) | (evs & r & ver & Hup & Hv & ->)].
    + rewrite OriginFacts.hit_says_hit.
      repeat split; try discriminate; [exact Hnone | | now left].
      now exists hit.
    + rewrite OriginFacts.miss_says_miss.
      repeat split; try discriminate; [|now right].
      intros _. exists evs, r.
      rewrite OriginFacts.miss_names_target.
      repeat split; [exact Hup | exact Hv |].
      intros Hclean. now rewrite (TargetFacts.clean_upstream_url _ Hclean Hp).
Qed.

Lemma X22_returned_response_witness :
  upstream_requests (run_effects (fetch world_with_entry get_file)) = [].
Proof.
  refine (proj1 (proj1 (proj2
    (@X22_returned_response_names_its_origin
       world_with_entry get_file file_info
       (run_effects (fetch world_with_entry get_file))
       (hit_response world_with_entry (getCacheStrategy (path file_info))
          (plain_response 200))
       eq_refl _)) _)).
  - vm_compute. reflexivity.
  - vm_compute. reflexivity.
Defined.

Module StoredFacts.
Import StringFacts CacheKeyFacts.

(** The version a key carries, read back from the key. *)
Lemma key_version (now : UTCDate) (u e : string) (v : option string) :
  URLSearchParams.getAll "__v"
    (URL.searchParams (URL.new (getOptimalCacheKey now u e v))) =
  [UTF8.encode (effective_version now v)].
Proof. rewrite key_parses_back. apply cacheUrl_version. Qed.

Lemma mirror_version (w : World) (strategy : CacheStrategy)
    (ver target : string) (r : Response) :
  Headers.get "X-Mirror-Version"
    (headers (miss_response w strategy ver target r)) =
  Some (Headers.normalize ver).
Proof.
  unfold miss_response. cbv zeta. cbn [headers]. read_header. reflexivity.
Qed.

Lemma no_hint_in_retries (target : string) (init : FetchInit)
    (evs : list RetryEvent) :
  early_hints (map (retry_effect target init) evs) = [].
Proof. induction evs as [|[i|ms] evs IH]; simpl; auto. Qed.

Lemma early_hints_app (a b : list Effect) :
  early_hints (a ++ b) = (early_hints a ++ early_hints b)%list.
Proof. apply flat_map_app. Qed.

End StoredFacts.

(** X23.  A stored response is stored under its own version: when the
    handler schedules a cache write and the date has not changed between
    the lookup and the assembly of the response, there is one version
    string, the date stamp or the tag of the ETag, never empty, that the
    key written to carries as the one value of __v, in UTF-8, and that
    the stored response carries in X-Mirror-Version, as Headers.set
    stores it.  The two can differ in the whitespace at the ends of the
    tag, which the header loses and the key keeps: the tag of an ETag
    header with a space after its opening quote is in the key with the
    space and in the header without. *)
Theorem X23_stored_response_version_is_the_key_version
    (w : World) (request : Request) (info : GitHubInfo)
    (effs : list Effect) (c : Completion Response)
    (key : string) (out : Response) :
  parseGitHubPath (URL.pathname (URL.new (url request))) = Some info ->
  fetch w request = Some (effs, c) ->
  In (CachePut key out) effs ->
  date_at_assembly w = date_at_lookup w ->
  exists version,
    version <> "" /\
    URLSearchParams.getAll "__v" (URL.searchParams (URL.new key)) =
      [UTF8.encode version] /\
    Headers.get "X-Mirror-Version" (headers out) =
      Some (Headers.normalize version).
Proof.
  intros Hp Hrun Hin Hday.
  destruct (@HandlerRunCases.put_is_the_returned_response
              w request info effs c key out Hp Hrun Hin)
    as (_ & evs & r & _ & _ & Hko).
  injection Hko as -> ->.
  rewrite StoredFacts.mirror_version.
  unfold final_key_and_version. cbv zeta.
  assert (Hdate :
    exists version,
      version <> "" /\
      URLSearchParams.getAll "__v"
        (URL.searchParams (URL.new (lookup_key w request))) =
        [UTF8.encode version] /\
      Some (Headers.normalize (getCacheVersion (date_at_assembly w))) =
        Some (Headers.normalize version)).
  { exists (getCacheVersion (date_at_assembly w)).
    split; [apply CacheKeyFacts.getCacheVersion_not_empty|].
    split; [|reflexivity].
    unfold lookup_key. rewrite StoredFacts.key_version, Hday. reflexivity. }
  destruct (useETag (getCacheStrategy (path info))); [|exact Hdate].
  destruct (extractETag r) as [etag|]; [|exact Hdate].
  destruct (JS.truthy etag) eqn:Et; [|exact Hdate].
  cbn [fst snd]. exists etag.
  split; [now apply StringFacts.truthy_true|]. split; [|reflexivity].
  rewrite StoredFacts.key_version.
  unfold effective_version, JS.or_else. now rewrite Et.
Qed.

Lemma X23_stored_response_version_witness :
  exists version,
    version <> "" /\
    URLSearchParams.getAll "__v"
      (URL.searchParams
         (URL.new
            "https://proxy.example/user/repo/file.bin?__v=+abc&__enc=gzip")) =
      [UTF8.encode version] /\
    Headers.get "X-Mirror-Version"
      (headers
         (miss_response world_upstream_spaced_etag default_strategy " abc"
            (fullUrl file_info) (response_with_etag spaced_etag))) =
      Some (Headers.normalize version).
Proof.
  refine (@X23_stored_response_version_is_the_key_version
            world_upstream_spaced_etag get_file file_info
            (run_effects (fetch world_upstream_spaced_etag get_file))
            (Return
               (miss_response world_upstream_spaced_etag default_strategy
                  " abc" (fullUrl file_info)
                  (response_with_etag spaced_etag)))
            _ _ eq_refl _ _ eq_refl).
  - vm_compute. reflexivity.
  - vm_compute. repeat (try (left; reflexivity); right).
Defined.

(** X24.  The early hint belongs to GET alone: a run for a GET request
    dispatches exactly one hint, before anything else, to the request's
    own URL and with the Link header naming the upstream URL as
    preconnect target, on a cache hit as on a miss; a run for any other
    method dispatches none. *)
Theorem X24_early_hint_first_and_only_for_get
    (w : World) (request : Request) (info : GitHubInfo)
    (effs : list Effect) (c : Completion Response) :
  parseGitHubPath (URL.pathname (URL.new (url request))) = Some info ->
  fetch w request = Some (effs, c) ->
  (method request = "GET" ->
   exists rest,
     effs =
       EarlyHint (url request)
         ("<" ++ upstream_url request info ++ ">; rel=preconnect") :: rest /\
     early_hints rest = []) /\
  (method request <> "GET" -> early_hints effs = []).
Proof.
  intros Hp Hrun.
  destruct (HandlerRunCases.fetch_run_cases _ _ Hp Hrun)
    as [(-> & Hg & _) | (_ & Hs)].
  { split; [intros H; now destruct Hg | reflexivity]. }
  rewrite HandlerRuns.serve_eq in Hs. cbv zeta in Hs.
  assert (Hlooked : forall b key,
            early_hints (if b : bool then [CacheMatch key] else []) = []).
  { now intros []. }
  assert (Hstored : forall b key out,
            early_hints (if b : bool then [CachePut key out] else []) = []).
  { now intros []. }
  assert (Htail : forall (hints : list Effect) rest,
            effs = (hints ++ rest)%list ->
            early_hints rest = [] ->
            hints = (if String.eqb (method request) "GET"
                     then [early_hint request info] else []) ->
            (method request = "GET" ->
             exists rest',
               effs = early_hint request info :: rest' /\
               early_hints rest' = []) /\
            (method request <> "GET" -> early_hints effs = [])).
  { intros hints rest -> Hrest ->.
    destruct (String.eqb_spec (method request) "GET") as [E|E].
    - split; [|tauto]. intros _. now exists rest.
    - split; [tauto|]. intros _. exact Hrest. }
  destruct (if _ && _ then cache_match w _ else None) as [hit|].
  - injection Hs as <- <-. eapply Htail; [reflexivity| |reflexivity].
    apply Hlooked.
  - destruct (upstream_attempts w request info) as [[evs [r|e|]]|];
      try discriminate;
      [destruct (valid_init_status (status r))| |].
    + cbv zeta in Hs. rewrite <- app_assoc in Hs. injection Hs as <- _.
      eapply Htail; [reflexivity| |reflexivity].
      rewrite !StoredFacts.early_hints_app, Hlooked, Hstored,
        StoredFacts.no_hint_in_retries. reflexivity.
    + injection Hs as <- _.
      eapply Htail; [reflexivity| |reflexivity].
      rewrite StoredFacts.early_hints_app, Hlooked,
        StoredFacts.no_hint_in_retries. reflexivity.
    + injection Hs as <- _.
      eapply Htail; [reflexivity| |reflexivity].
      rewrite StoredFacts.early_hints_app, Hlooked,
        StoredFacts.no_hint_in_retries. reflexivity.
    + injection Hs as <- _.
      eapply Htail; [reflexivity| |reflexivity].
      rewrite StoredFacts.early_hints_app, Hlooked,
        StoredFacts.no_hint_in_retries. reflexivity.
Qed.

Lemma X24_early_hint_witness :
  exists rest,
    run_effects (fetch world_with_entry get_file) =
      EarlyHint "https://proxy.example/user/repo/file.bin"
        "<https://github.com/user/repo/file.bin>; rel=preconnect" :: rest /\
    early_hints rest = [].
Proof.
  refine (proj1
    (@X24_early_hint_first_and_only_for_get
       world_with_entry get_file file_info
       (run_effects (fetch world_with_entry get_file))
       (Return
          (hit_response world_with_entry (getCacheStrategy (path file_info))
             (plain_response 200)))
       eq_refl _) eq_refl).
  vm_compute. reflexivity.
Defined.
